(** * Boredom Dial server: a shallow embedding of [server/index.js]

    The development follows the source file top to bottom: JavaScript
    numbers and JSON values, the insertion-ordered [Map] used for a room's
    participants, the room registry, the bot simulation, [getRoomStats],
    the expiry sweep, the HTTP handlers and the WebSocket handlers.

    Modelling conventions.
    - A JavaScript number is a rational, [+Infinity], [-Infinity] or [NaN].
      Every binary64 value denotes exactly one of these.  Addition,
      subtraction, multiplication and division compute the exact result
      and round it to the nearest binary64 value ([binary64]: ties to the
      even significand, gradual underflow, overflow to an infinity), and
      a decimal literal such as [0.1] stands for its nearest binary64
      value.  Comparisons, [Math.round], [Math.min] and [Math.max] are
      exact.  The sign of zero is not modelled: it cannot be observed
      through [JSON.stringify], comparisons or the operations used here.
    - Objects live in a heap.  The registry [rooms] maps a room identifier
      to the address of a room object, so that a handler that captured
      [room] keeps its object when the registry entry is replaced.
    - Randomness ([crypto.randomBytes], [Math.random]), the clock
      ([Date.now], [new Date()]) and the query parameters of a connection
      URL are inputs of the operation that reads them.  [JSON.parse] is a
      parameter of the development; a parsed object is the list of its
      own properties, each name once.
    - A string is held as the bytes of its UTF-8 encoding; a surrogate
      that is not part of a pair is held as the three bytes of its own
      code point.  Operations that count ([slice]) count UTF-16 code
      units, as the program does.
    - Console output does not change the state; the one conversion to a
      string that can throw inside a [try] ([stringifies]) is part of the
      model.  Socket sends are modelled as lists of messages. *)

From Stdlib Require Import QArith Qcanon Qcabs Qabs Qround Qpower ZArith Lia Lqa.
From Stdlib.Strings Require Import Ascii String Byte.
From stdpp Require Import base numbers option list gmap strings fin_maps.

Set Warnings "-register-all".

Local Open Scope Qc_scope.
Local Open Scope list_scope.

(** ** JavaScript numbers *)

Module Num.

Inductive num : Type :=
| Finite (q : Qc)
| PInf
| NInf
| NaN.

Definition of_Z (z : Z) : num := Finite (Qc_of_Z z).
Definition of_nat (n : nat) : num := of_Z (Z.of_nat n).

Definition neg (x : num) : num :=
  match x with
  | Finite q => Finite (- q)
  | PInf => NInf
  | NInf => PInf
  | NaN => NaN
  end.

(** Sign of a rational: [Gt] positive, [Lt] negative, [Eq] zero. *)
Definition sgn (q : Qc) : comparison := (q ?= 0)%Qc.

(** The infinity of a given sign; the sign of zero gives [NaN]. *)
Definition signed_inf (c : comparison) : num :=
  match c with Gt => PInf | Lt => NInf | Eq => NaN end.

Definition flip (c : comparison) : comparison :=
  match c with Lt => Gt | Gt => Lt | Eq => Eq end.

(** *** Rounding to binary64 *)

(** [2^k] *)
Definition pow2 (k : Z) : Q := (2 ^ k)%Q.

(** The exponent [e] with [2^e <= a < 2^(e+1)], for a positive [a]. *)
Definition flog2 (a : Q) : Z :=
  if Qle_bool 1 a then Z.log2 (Qfloor a)
  else (- Z.log2_up (Qceiling (/ a)))%Z.

(** The integer nearest to [y], the even one when [y] lies half way. *)
Definition rne (y : Q) : Z :=
  let f := Qfloor y in
  match Qcompare (y - inject_Z f)%Q (1 # 2)%Q with
  | Lt => f
  | Gt => (f + 1)%Z
  | Eq => if Z.even f then f else (f + 1)%Z
  end.

(** The exponent of the last bit of a 53-bit significand for the
    magnitude [a]; it is at least -1074 (subnormal numbers). *)
Definition ulpExp (a : Q) : Z := Z.max (flog2 a - 52) (-1074).

(** The multiple of [2^q] nearest to [a], the even one on a tie. *)
Definition grid (q : Z) (a : Q) : Q :=
  (inject_Z (rne (a / pow2 q)) * pow2 q)%Q.

(** Rounding of a magnitude. *)
Definition roundMag (a : Q) : Q := grid (ulpExp a) a.

(** The Number value for a rational: the nearest binary64 value, the one
    with the even significand on a tie, an infinity from [2^1024] on. *)
Definition binary64 (x : Qc) : num :=
  let y := roundMag (Qabs x) in
  if Qle_bool (pow2 1024) y then signed_inf (sgn x)
  else Finite (Q2Qc (if Qle_bool 0 x then y else (- y)%Q)).

(** A decimal literal of the source. *)
Definition literal (q : Q) : num := binary64 (Q2Qc q).

(** [x + y] *)
Definition add (x y : num) : num :=
  match x, y with
  | NaN, _ | _, NaN => NaN
  | Finite a, Finite b => binary64 (a + b)
  | PInf, NInf | NInf, PInf => NaN
  | PInf, _ | _, PInf => PInf
  | NInf, _ | _, NInf => NInf
  end.

(** [x - y] *)
Definition sub (x y : num) : num := add x (neg y).

(** [x * y]; an infinity times zero is [NaN]. *)
Definition mul (x y : num) : num :=
  match x, y with
  | NaN, _ | _, NaN => NaN
  | Finite a, Finite b => binary64 (a * b)
  | PInf, Finite b | Finite b, PInf => signed_inf (sgn b)
  | NInf, Finite b | Finite b, NInf => signed_inf (flip (sgn b))
  | PInf, PInf | NInf, NInf => PInf
  | PInf, NInf | NInf, PInf => NInf
  end.

(** [x / y]; a finite non-zero number over zero is an infinity with the
    sign of the numerator (the divisor is taken as [+0]). *)
Definition div (x y : num) : num :=
  match x, y with
  | NaN, _ | _, NaN => NaN
  | Finite a, Finite b =>
      if decide (b = 0) then signed_inf (sgn a) else binary64 (a / b)
  | Finite _, (PInf | NInf) => Finite 0
  | PInf, Finite b =>
      if decide (b = 0) then PInf else signed_inf (sgn b)
  | NInf, Finite b =>
      if decide (b = 0) then NInf else signed_inf (flip (sgn b))
  | (PInf | NInf), (PInf | NInf) => NaN
  end.

(** [x <= y] on numbers other than [NaN]. *)
Definition leb (x y : num) : bool :=
  match x, y with
  | NaN, _ | _, NaN => false
  | NInf, _ | _, PInf => true
  | _, NInf | PInf, _ => false
  | Finite a, Finite b => bool_decide (a ≤ b)
  end.

(** [Math.min(x, y)] *)
Definition Math_min (x y : num) : num :=
  match x, y with
  | NaN, _ | _, NaN => NaN
  | _, _ => if leb x y then x else y
  end.

(** [Math.max(x, y)] *)
Definition Math_max (x y : num) : num :=
  match x, y with
  | NaN, _ | _, NaN => NaN
  | _, _ => if leb x y then y else x
  end.

(** The integer [Math.round] picks for a rational: the nearest one, the
    larger of the two when the rational lies half way. *)
Definition round_Z (q : Qc) : Z := Qfloor (q + Q2Qc (1 # 2)).

(** [Math.round(x)] *)
Definition Math_round (x : num) : num :=
  match x with
  | Finite q => of_Z (round_Z q)
  | _ => x
  end.

End Num.

Export Num.

(** ** JSON values

    The result of [JSON.parse] and every value the server stores in a
    [name] field.  A number literal parses to a finite number or, when it
    overflows, to an infinity; [JSON.parse] never returns [NaN]. *)

Inductive jnumber : Type :=
| JFinite (q : Qc)
| JInfinite (negative : bool).

Definition num_of_jnumber (n : jnumber) : num :=
  match n with
  | JFinite q => Finite q
  | JInfinite false => PInf
  | JInfinite true => NInf
  end.

Inductive json : Type :=
| JNull
| JBool (b : bool)
| JNumber (n : jnumber)
| JString (s : string)
| JArray (items : list json)
| JObject (fields : list (string * json)).

(** JavaScript truthiness, as used by [||] and [&&]. *)
Definition truthy (v : json) : bool :=
  match v with
  | JNull => false
  | JBool b => b
  | JNumber (JFinite q) => negb (bool_decide (q = 0))
  | JNumber (JInfinite _) => true
  | JString s => negb (bool_decide (s = EmptyString))
  | JArray _ | JObject _ => true
  end.

(** [a || b] where [a] may be [undefined] *)
Definition or_else (a : option json) (b : json) : json :=
  match a with
  | Some v => if truthy v then v else b
  | None => b
  end.

Fixpoint assoc {V : Type} (k : string) (l : list (string * V)) : option V :=
  match l with
  | [] => None
  | (k', v) :: l' => if decide (k = k') then Some v else assoc k l'
  end.

(** Property access [v.k] for the property names the server reads
    ([type], [boredom], [name]): [None] is the [TypeError] thrown on
    [null]; [Some None] is [undefined]. *)
Definition getProp (k : string) (v : json) : option (option json) :=
  match v with
  | JNull => None
  | JObject fields => Some (assoc k fields)
  | _ => Some None
  end.

(** Whether the conversion of a parsed value to a string, as in a
    template literal, succeeds.  A parsed value holds no function.  For an
    object the conversion calls [Object.prototype.toString] unless the
    object has a property named [toString] of its own; in that case
    neither [toString] nor [valueOf] yields a primitive value and the conversion
    throws a [TypeError].  An array joins the conversions of its
    elements. *)
Fixpoint stringifies (v : json) : bool :=
  match v with
  | JArray items => forallb stringifies items
  | JObject fields => negb (bool_decide (is_Some (assoc "toString" fields)))
  | _ => true
  end.

(** ** The insertion-ordered [Map] of a room's participants *)

Module JSMap.

Abbreviation t V := (list (string * V)) (only parsing).

Definition empty {V : Type} : t V := [].

Definition get {V : Type} (k : string) (m : t V) : option V := assoc k m.

(** [m.set(k, v)]: an existing key keeps its position, a new key goes
    to the end. *)
Fixpoint set {V : Type} (k : string) (v : V) (m : t V) : t V :=
  match m with
  | [] => [(k, v)]
  | (k', v') :: m' =>
      if decide (k = k') then (k', v) :: m' else (k', v') :: set k v m'
  end.

(** [m.delete(k)] *)
Fixpoint delete {V : Type} (k : string) (m : t V) : t V :=
  match m with
  | [] => []
  | (k', v') :: m' =>
      if decide (k = k') then delete k m' else (k', v') :: delete k m'
  end.

Definition entries {V : Type} (m : t V) : list (string * V) := m.

Definition values {V : Type} (m : t V) : list V := m.*2.

End JSMap.

(** ** Strings: hexadecimal encoding, upper-casing, the room-code test *)

Definition hexDigit (n : N) : ascii :=
  match n with
  | 0%N => "0" | 1%N => "1" | 2%N => "2" | 3%N => "3"
  | 4%N => "4" | 5%N => "5" | 6%N => "6" | 7%N => "7"
  | 8%N => "8" | 9%N => "9" | 10%N => "a" | 11%N => "b"
  | 12%N => "c" | 13%N => "d" | 14%N => "e" | _ => "f"
  end%char.

(** [buf.toString('hex')] *)
Fixpoint toHex (buf : list Byte.byte) : string :=
  match buf with
  | [] => EmptyString
  | b :: buf' =>
      let n := Byte.to_N b in
      String (hexDigit (n / 16)) (String (hexDigit (n mod 16)) (toHex buf'))
  end.

Definition upperChar (c : ascii) : ascii :=
  let n := nat_of_ascii c in
  if (97 <=? n)%nat && (n <=? 122)%nat then ascii_of_nat (n - 32) else c.

(** [s.toUpperCase()] on ASCII text *)
Fixpoint toUpperCase (s : string) : string :=
  match s with
  | EmptyString => EmptyString
  | String c s' => String (upperChar c) (toUpperCase s')
  end.

(** The character class [[A-Z0-9]] *)
Definition isUpperAlnum (c : ascii) : bool :=
  let n := nat_of_ascii c in
  ((65 <=? n)%nat && (n <=? 90)%nat) || ((48 <=? n)%nat && (n <=? 57)%nat).

Fixpoint allUpperAlnum (s : string) : bool :=
  match s with
  | EmptyString => true
  | String c s' => isUpperAlnum c && allUpperAlnum s'
  end.

(** [/^[A-Z0-9]+$/.test(s)] *)
Definition testUpperAlnum (s : string) : bool :=
  match s with
  | EmptyString => false
  | _ => allUpperAlnum s
  end.

(** [roomId.length === 6 && /^[A-Z0-9]+$/.test(roomId)]: the test admits
    ASCII text only, in which every byte is one code unit. *)
Definition looksLikeCode (roomId : string) : bool :=
  bool_decide (String.length roomId = 6%nat) && testUpperAlnum roomId.

(** ** Strings: UTF-16 code units

    In UTF-8 a byte from 128 to 191 continues a character, any other byte
    starts one: a character of one, two or three bytes is one code unit,
    a character of four bytes (lead byte from 240) is a surrogate pair. *)

Definition isContinuation (a : ascii) : bool :=
  (128 <=? nat_of_ascii a)%nat && (nat_of_ascii a <? 192)%nat.

(** The code units of the character that the byte [a] starts. *)
Definition codeUnits (a : ascii) : nat :=
  if isContinuation a then 0%nat
  else if (nat_of_ascii a <? 240)%nat then 1%nat else 2%nat.

(** [str.length] *)
Fixpoint utf16_length (str : string) : nat :=
  match str with
  | EmptyString => 0%nat
  | String a rest => (codeUnits a + utf16_length rest)%nat
  end.

(** The low six bits of the first byte of [str]. *)
Definition continuationBits (str : string) : N :=
  match str with
  | EmptyString => 0%N
  | String b _ => N.land (N_of_ascii b) 63
  end.

Definition tail (str : string) : string :=
  match str with
  | EmptyString => EmptyString
  | String _ rest => rest
  end.

(** The high surrogate of the four-byte character with lead byte [a]
    and continuation bytes [rest], as the three bytes of its code point:
    the character is [0x10000 + ((high - 0xD800) << 10) + (low - 0xDC00)],
    so [high] is [0xD7C0] plus the character shifted right by ten bits. *)
Definition highSurrogate (a : ascii) (rest : string) : string :=
  let top :=
    (N.shiftl (N.land (N_of_ascii a) 7) 8
     + N.shiftl (continuationBits rest) 2
     + N.shiftr (continuationBits (tail rest)) 4)%N in
  let high := (55232 + top)%N in
  String (ascii_of_N 237)
    (String (ascii_of_N (128 + N.land (N.shiftr high 6) 63))
       (String (ascii_of_N (128 + N.land high 63)) EmptyString)).

(** [str.slice(0, n)]: the first [n] code units.  A surrogate pair that
    straddles the end is cut, its high surrogate being kept. *)
Fixpoint slice (n : nat) (str : string) : string :=
  match str with
  | EmptyString => EmptyString
  | String a rest =>
      if isContinuation a then String a (slice n rest)
      else if (codeUnits a <=? n)%nat
           then String a (slice (n - codeUnits a) rest)
           else match n with
                | O => EmptyString
                | S _ => highSurrogate a rest
                end
  end.

(** Text without surrogate pairs, and ASCII text. *)
Fixpoint inBasicPlane (str : string) : bool :=
  match str with
  | EmptyString => true
  | String a rest => (nat_of_ascii a <? 240)%nat && inBasicPlane rest
  end.

Fixpoint isAscii (str : string) : bool :=
  match str with
  | EmptyString => true
  | String a rest => (nat_of_ascii a <? 128)%nat && isAscii rest
  end.

(** ** Identifiers *)

Definition GLOBAL_ROOM_ID : string := "global".

(** [generateRoomCode]: [rnd] is the result of [crypto.randomBytes(3)]. *)
Definition generateRoomCode (rnd : Byte.byte * Byte.byte * Byte.byte) : string :=
  let '(b0, b1, b2) := rnd in toUpperCase (toHex [b0; b1; b2]).

(** [generateUserId]: [rnd] is the result of [crypto.randomBytes(8)]. *)
Definition generateUserId (rnd : list Byte.byte) : string := toHex rnd.

(** ** Data model *)

(** A WebSocket object, identified by a number. *)
Definition socket : Type := nat.

Record User : Type := mkUser {
  boredom : num;
  ws : option socket;        (* [null] for a bot *)
  isBot : bool;
  userName : json            (* the [name] field; [JNull] is [null] *)
}.

Record Room : Type := mkRoom {
  users : JSMap.t User;
  createdAt : Z;             (* [createdAt.getTime()], in milliseconds *)
  name : json;
  isGlobal : bool
}.

(** Address of a room object. *)
Definition loc : Type := nat.

Record Server : Type := mkServer {
  heap : gmap loc Room;      (* the room objects *)
  rooms : gmap string loc    (* the [rooms] map *)
}.

Definition setBoredom (b : num) (u : User) : User :=
  mkUser b (ws u) (isBot u) (userName u).

Definition setUserName (n : json) (u : User) : User :=
  mkUser (boredom u) (ws u) (isBot u) n.

Definition setUsers (us : JSMap.t User) (r : Room) : Room :=
  mkRoom us (createdAt r) (name r) (isGlobal r).

(** A fresh address for a new object. *)
Definition newLoc (h : gmap loc Room) : loc := fresh (dom h).

(** [rooms.set(roomId, { ... })] with a newly created room object. *)
Definition setNewRoom (roomId : string) (r : Room) (s : Server) : Server :=
  let l := newLoc (heap s) in
  mkServer (<[l := r]> (heap s)) (<[roomId := l]> (rooms s)).

(** [rooms.get(roomId)], followed to the room object. *)
Definition getRoom (s : Server) (roomId : string) : option Room :=
  l ← rooms s !! roomId; heap s !! l.

(** Assignment to a field of the room object at address [l]. *)
Definition storeRoom (l : loc) (r : Room) (s : Server) : Server :=
  mkServer (<[l := r]> (heap s)) (rooms s).

(** ** Simulated users of the global room *)

(** A bot profile; its numbers are literals in the source, hence
    rationals. *)
Record Bot : Type := mkBot {
  bot_id : string;
  bot_name : string;
  bot_boredom : Qc;
  bot_volatility : Qc;
  bot_speed : Z
}.

Definition bots : list Bot :=
  [ mkBot "bot-restless" "Restless Rita" (Qc_of_Z 65) (Qc_of_Z 15) 3000;
    mkBot "bot-chill" "Chill Charlie" (Qc_of_Z 25) (Qc_of_Z 8) 7000;
    mkBot "bot-moody" "Moody Morgan" (Qc_of_Z 50) (Qc_of_Z 25) 4000;
    mkBot "bot-sleepy" "Sleepy Sam" (Qc_of_Z 80) (Qc_of_Z 10) 10000 ].

(** The global room as built at start-up, [start] being the time. *)
Definition globalRoom (start : Z) : Room :=
  mkRoom
    (foldl (λ us bot,
              JSMap.set (bot_id bot)
                (mkUser (Finite (bot_boredom bot)) None true
                   (JString (bot_name bot))) us)
           JSMap.empty bots)
    start (JString "Global Boredom") true.

(** The state after the module's top-level code has run. *)
Definition initial (start : Z) : Server :=
  setNewRoom GLOBAL_ROOM_ID (globalRoom start) (mkServer ∅ ∅).

(** One firing of a bot's [setInterval] callback; [random] is the value
    returned by [Math.random()]. *)
Definition botTick (bot : Bot) (random : Qc) (s : Server) : Server :=
  match rooms s !! GLOBAL_ROOM_ID with
  | None => s
  | Some l =>
      match heap s !! l with
      | None => s
      | Some room =>
          match JSMap.get (bot_id bot) (users room) with
          | None => s
          | Some user =>
              let drift :=
                mul (sub (Finite (bot_boredom bot)) (boredom user))
                    (literal (1 # 10)) in
              let randomChange :=
                mul (sub (Finite random) (Finite (Q2Qc (1 # 2))))
                    (Finite (bot_volatility bot)) in
              let user' :=
                setBoredom
                  (Math_max (of_Z 0)
                     (Math_min (of_Z 100)
                        (add (add (boredom user) drift) randomChange)))
                  user in
              storeRoom l
                (setUsers (JSMap.set (bot_id bot) user' (users room)) room) s
          end
      end
  end.

(** ** Room statistics *)

Record Individual : Type := mkIndividual {
  ind_id : string;
  ind_boredom : num;
  ind_isBot : bool;
  ind_name : json
}.

Record Stats : Type := mkStats {
  average : num;
  count : nat;
  individuals : list Individual;
  stats_roomName : json;
  stats_roomId : string
}.

(** [getRoomStats]: [None] is the [null] returned for an unknown room. *)
Definition getRoomStats (s : Server) (roomId : string) : option Stats :=
  match getRoom s roomId with
  | None => None
  | Some room =>
      let entries := JSMap.entries (users room) in
      let values := map (λ e : string * User, boredom e.2) entries in
      let count := length values in
      let average :=
        if bool_decide (0 < count)%nat
        then Math_round (div (foldl add (of_Z 0) values) (of_nat count))
        else of_Z 50 in
      let individuals :=
        map (λ e : string * User,
               mkIndividual e.1 (Math_round (boredom e.2))
                 (isBot e.2 || false)
                 (or_else (Some (userName e.2)) JNull))
            entries in
      Some (mkStats average count individuals (name room) roomId)
  end.

(** ** Expiry sweep *)

(** [Array.from(room.users.values()).filter(u => u.ws)] *)
Definition realUsers (room : Room) : list User :=
  base.filter (λ u : User, is_Some (ws u)) (JSMap.values (users room)).

(** The body of the [rooms.forEach] callback, for the entry
    [(roomId, l)]; it can only delete that entry from the registry. *)
Definition sweepEntry (now : Z) (h : gmap loc Room)
    (reg : gmap string loc) (e : string * loc) : gmap string loc :=
  let '(roomId, l) := e in
  if decide (roomId = GLOBAL_ROOM_ID) then reg
  else
    match h !! l with
    | None => reg
    | Some room =>
        if bool_decide (length (realUsers room) = 0%nat)
           && bool_decide (3600000 < now - createdAt room)%Z
        then delete roomId reg
        else reg
    end.

(** One firing of the clean-up [setInterval] callback at time [now]. *)
Definition cleanup (now : Z) (s : Server) : Server :=
  mkServer (heap s)
    (foldl (sweepEntry now (heap s)) (rooms s) (map_to_list (rooms s))).

(** ** HTTP and WebSocket handlers *)

Record Request : Type := mkRequest {
  method : string;
  url : string;
  reqBody : string           (* the chunks received, concatenated *)
}.

Inductive Body : Type :=
| NoBody
| HealthBody (status : string) (nrooms : nat) (globalUsers : nat)
| CreatedBody (roomId : string) (roomName : json)
| ErrorBody (error : string)
| StatsBody (st : Stats).

Record Response : Type := mkResponse {
  statusCode : nat;
  body : Body
}.

(** [s.split(sep)] for a one-character separator *)
Fixpoint splitOn (sep : ascii) (s : string) : list string :=
  match s with
  | EmptyString => [EmptyString]
  | String c s' =>
      if decide (c = sep) then EmptyString :: splitOn sep s'
      else
        match splitOn sep s' with
        | [] => [String c EmptyString]
        | w :: ws => String c w :: ws
        end
  end.

(** A connection's closure: the variables [ws], [roomId], [room] and
    [userId] captured by its [message] and [close] handlers. *)
Record Conn : Type := mkConn {
  conn_ws : socket;
  conn_roomId : string;
  conn_room : loc;
  conn_userId : string
}.

Section Handlers.

(** [JSON.parse]; [None] is a [SyntaxError]. *)
Variable JSON_parse : string → option json.

(** The [/health] response. *)
Definition health (s : Server) : Response :=
  let stats := getRoomStats s GLOBAL_ROOM_ID in
  mkResponse 200
    (HealthBody "ok" (size (rooms s))
       (match stats with Some st => count st | None => 0%nat end)).

(** The [end] callback of [POST /api/rooms]: [reqBody] is the body
    received, [now] the time and [rnd] the random bytes drawn by
    [generateRoomCode].  The template literal of [console.log] converts
    [roomName] to a string after [rooms.set] and inside the [try]: when
    that throws, the room is stored and the answer is 400. *)
Definition postRooms (reqBody : string) (now : Z)
    (rnd : Byte.byte * Byte.byte * Byte.byte) (s : Server)
    : Server * Response :=
  let invalid := (s, mkResponse 400 (ErrorBody "Invalid request")) in
  match JSON_parse (if decide (reqBody = EmptyString) then "{}"%string
                    else reqBody) with
  | None => invalid
  | Some data =>
      let roomId := generateRoomCode rnd in
      match getProp "name" data with
      | None => invalid
      | Some dataName =>
          let roomName := or_else dataName (JString ("Room " +:+ roomId)) in
          (setNewRoom roomId (mkRoom JSMap.empty now roomName false) s,
           if stringifies roomName
           then mkResponse 200 (CreatedBody roomId roomName)
           else mkResponse 400 (ErrorBody "Invalid request"))
      end
  end.

(** [GET /api/rooms/<id>] *)
Definition getRoomById (url : string) (s : Server) : Response :=
  let roomId := default EmptyString (splitOn "/" url !! 3%nat) in
  match getRoom s roomId, getRoomStats s roomId with
  | Some _, Some stats => mkResponse 200 (StatsBody stats)
  | _, _ => mkResponse 404 (ErrorBody "Room not found")
  end.

(** The request listener of [http.createServer]. *)
Definition handleRequest (req : Request) (now : Z)
    (rnd : Byte.byte * Byte.byte * Byte.byte) (s : Server)
    : Server * Response :=
  if decide (method req = "OPTIONS"%string) then (s, mkResponse 200 NoBody)
  else if decide (url req = "/health"%string) then (s, health s)
  else if bool_decide (url req = "/api/rooms"%string)
          && bool_decide (method req = "POST"%string)
  then postRooms (reqBody req) now rnd s
  else if String.prefix "/api/rooms/" (url req)
          && bool_decide (method req = "GET"%string)
  then (s, getRoomById (url req) s)
  else (s, mkResponse 404 NoBody).

(** Room resolution at the start of the [connection] handler:
    [roomParam] is [url.searchParams.get('room')].  The result is the
    state and the final value of [roomId]. *)
Definition resolveRoom (roomParam : option string) (now : Z) (s : Server)
    : Server * string :=
  let roomId :=
    match roomParam with
    | Some r => if decide (r = EmptyString) then GLOBAL_ROOM_ID else r
    | None => GLOBAL_ROOM_ID
    end in
  if bool_decide (is_Some (rooms s !! roomId)) then (s, roomId)
  else if looksLikeCode roomId
  then (setNewRoom roomId
          (mkRoom JSMap.empty now (JString ("Room " +:+ roomId)) false) s,
        roomId)
  else (s, GLOBAL_ROOM_ID).

(** The [connection] handler up to the registration of the [message]
    and [close] handlers.  [None] is the [TypeError] raised when
    [rooms.get(roomId)] is [undefined]. *)
Definition onConnection (sock : socket) (roomParam nameParam : option string)
    (now : Z) (rnd : list Byte.byte) (s : Server) : option (Server * Conn) :=
  let '(s1, roomId) := resolveRoom roomParam now s in
  l ← rooms s1 !! roomId;
  room ← heap s1 !! l;
  let userId := generateUserId rnd in
  let userName := or_else (JString <$> nameParam) JNull in
  let room' :=
    setUsers (JSMap.set userId (mkUser (of_Z 50) (Some sock) false userName)
                (users room)) room in
  Some (storeRoom l room' s1, mkConn sock roomId l userId).

(** The [update] branch of the [message] handler. *)
Definition applyUpdate (c : Conn) (message : json) (s : Server) : Server :=
  match getProp "type" message, getProp "boredom" message with
  | Some (Some (JString ty)), Some (Some (JNumber n)) =>
      if decide (ty = "update"%string) then
        let boredom :=
          Math_max (of_Z 0)
            (Math_min (of_Z 100) (Math_round (num_of_jnumber n))) in
        match heap s !! conn_room c with
        | None => s
        | Some room =>
            match JSMap.get (conn_userId c) (users room) with
            | None => s
            | Some user =>
                storeRoom (conn_room c)
                  (setUsers
                     (JSMap.set (conn_userId c) (setBoredom boredom user)
                        (users room)) room) s
            end
        end
      else s
  | _, _ => s
  end.

(** [v.slice(0, 20)]: defined on strings and arrays, a [TypeError]
    ([None]) on the other values. *)
Definition slice20 (v : json) : option json :=
  match v with
  | JString str => Some (JString (slice 20 str))
  | JArray items => Some (JArray (take 20 items))
  | _ => None
  end.

(** The [setName] branch of the [message] handler. *)
Definition applySetName (c : Conn) (message : json) (s : Server) : Server :=
  match getProp "type" message, getProp "name" message with
  | Some (Some (JString ty)), Some (Some nm) =>
      if bool_decide (ty = "setName"%string) && truthy nm then
        match heap s !! conn_room c with
        | None => s
        | Some room =>
            match JSMap.get (conn_userId c) (users room) with
            | None => s
            | Some user =>
                match slice20 nm with
                | None => s
                | Some nm' =>
                    storeRoom (conn_room c)
                      (setUsers
                         (JSMap.set (conn_userId c) (setUserName nm' user)
                            (users room)) room) s
                end
            end
        end
      else s
  | _, _ => s
  end.

(** The [message] handler of a connection; every exception is caught
    and leaves the state as it was when it was raised. *)
Definition onMessage (c : Conn) (data : string) (s : Server) : Server :=
  match JSON_parse data with
  | None => s
  | Some message => applySetName c message (applyUpdate c message s)
  end.

(** The [close] handler of a connection. *)
Definition onClose (c : Conn) (s : Server) : Server :=
  match heap s !! conn_room c with
  | None => s
  | Some room =>
      storeRoom (conn_room c)
        (setUsers (JSMap.delete (conn_userId c) (users room)) room) s
  end.

End Handlers.

(** ** Notions used by the statements *)

(** The bounds of the rounding error: [2^-53] relative to the magnitude,
    [2^-1075] near zero. *)
Definition u53 : Qc := Q2Qc (pow2 (-53)).
Definition tiny : Qc := Q2Qc (pow2 (-1075)).

(** Arithmetic mean of a non-empty list of rationals. *)
Definition sumQ (qs : list Qc) : Qc := foldr Qcplus 0 qs.

Definition mean (qs : list Qc) : Qc :=
  sumQ qs / Qc_of_Z (Z.of_nat (length qs)).

(** [z] is the integer nearest to [q], the larger one on a tie. *)
Definition rounds_to (q : Qc) (z : Z) : Prop :=
  Qc_of_Z z - Q2Qc (1 # 2) ≤ q ∧ q < Qc_of_Z z + Q2Qc (1 # 2).

(** [clamp x lo hi] *)
Definition clamp (x lo hi : Qc) : Qc :=
  if decide (x < lo) then lo else if decide (hi < x) then hi else x.

(** A room code: exactly six characters, each an upper-case letter or a
    digit. *)
Definition wellFormedCode (roomId : string) : Prop :=
  String.length roomId = 6%nat ∧
  Forall (λ c : ascii,
            c ∈ list_ascii_of_string "ABCDEFGHIJKLMNOPQRSTUVWXYZ0123456789")
         (list_ascii_of_string roomId).

(** Participants backed by a connection. *)
Definition liveCount (room : Room) : nat :=
  length (base.filter (λ e : string * User, ws e.2 ≠ None) (users room)).

(** Every value stored in a room is a rational between 0 and 100. *)
Definition valuesInRange (room : Room) : Prop :=
  ∀ id u, (id, u) ∈ users room →
          ∃ q, boredom u = Finite q ∧ 0 ≤ q ∧ q ≤ Qc_of_Z 100.

(** Invariant of the states the server can reach: the global room exists,
    every registered room is an allocated object, every identifier other
    than the global one is a room code, and every stored value is a
    rational between 0 and 100. *)
Record wf (s : Server) : Prop := mkWf {
  wf_global : is_Some (getRoom s GLOBAL_ROOM_ID);
  wf_alloc : ∀ roomId l, rooms s !! roomId = Some l → is_Some (heap s !! l);
  wf_codes : ∀ roomId, is_Some (rooms s !! roomId) →
             roomId = GLOBAL_ROOM_ID ∨ looksLikeCode roomId = true;
  wf_values : ∀ l room, heap s !! l = Some room → valuesInRange room
}.

(** The states the server goes through from start-up at time [start],
    one event at a time: a bot tick, a sweep, an HTTP request, a new
    connection, a message or a close on a connection. *)
Inductive reachable (JSON_parse : string → option json) (start : Z)
  : Server → Prop :=
| reach_initial :
    reachable JSON_parse start (initial start)
| reach_botTick (s : Server) (bot : Bot) (r : Qc) :
    reachable JSON_parse start s → bot ∈ bots → 0 ≤ r → r < 1 →
    reachable JSON_parse start (botTick bot r s)
| reach_cleanup (s : Server) (now : Z) :
    reachable JSON_parse start s →
    reachable JSON_parse start (cleanup now s)
| reach_request (s : Server) (req : Request) (now : Z)
    (rnd : Byte.byte * Byte.byte * Byte.byte) :
    reachable JSON_parse start s →
    reachable JSON_parse start (handleRequest JSON_parse req now rnd s).1
| reach_connection (s s' : Server) (sock : socket)
    (roomParam nameParam : option string) (now : Z) (rnd : list Byte.byte)
    (c : Conn) :
    reachable JSON_parse start s →
    onConnection sock roomParam nameParam now rnd s = Some (s', c) →
    reachable JSON_parse start s'
| reach_message (s : Server) (c : Conn) (data : string) :
    reachable JSON_parse start s →
    reachable JSON_parse start (onMessage JSON_parse c data s)
| reach_close (s : Server) (c : Conn) :
    reachable JSON_parse start s →
    reachable JSON_parse start (onClose c s).

(** Whether the sweep at time [now] deletes the entry [(roomId, l)]. *)
Definition evicts (now : Z) (h : gmap loc Room) (roomId : string) (l : loc) : bool :=
  if decide (roomId = GLOBAL_ROOM_ID) then false
  else
    match h !! l with
    | None => false
    | Some room =>
        bool_decide (length (realUsers room) = 0%nat)
        && bool_decide (3600000 < now - createdAt room)%Z
    end.

(** A fragment of [JSON.parse], enough for the examples: the empty
    object, [null], an object with a [name] and an [update] message;
    every other text is rejected. *)
Definition quoted (str : string) : string :=
  let dq := String (ascii_of_nat 34) EmptyString in dq +:+ str +:+ dq.

Definition nameBody : string :=
  "{" +:+ quoted "name" +:+ ":" +:+ quoted "Team Sync" +:+ "}".

Definition updateText (value : string) : string :=
  "{" +:+ quoted "type" +:+ ":" +:+ quoted "update" +:+ ","
      +:+ quoted "boredom" +:+ ":" +:+ value +:+ "}".

Definition updateMessage (value : Z) : json :=
  JObject [("type"%string, JString "update");
           ("boredom"%string, JNumber (JFinite (Qc_of_Z value)))].

Definition parseSample (text : string) : option json :=
  if decide (text = "{}"%string) then Some (JObject [])
  else if decide (text = "null"%string) then Some JNull
  else if decide (text = nameBody)
  then Some (JObject [("name"%string, JString "Team Sync")])
  else if decide (text = updateText "80") then Some (updateMessage 80)
  else if decide (text = updateText "250") then Some (updateMessage 250)
  else if decide (text = updateText "-3.5")
  then Some (JObject [("type"%string, JString "update");
                      ("boredom"%string, JNumber (JFinite (Q2Qc (-7 # 2))))])
  else None.

(** A body whose [name] is an object with a property [toString], and a
    parser that reads it besides the texts of [parseSample]. *)
Definition oddNameBody : string :=
  "{" +:+ quoted "name" +:+ ":{" +:+ quoted "toString" +:+ ":null}}".

Definition parseOddName (text : string) : option json :=
  if decide (text = oddNameBody)
  then Some (JObject [("name"%string, JObject [("toString"%string, JNull)])])
  else parseSample text.

(** ** A sample run

    The scenario of the specification: a room named "Team Sync" is
    created, two connections join it, the first one reports 80 and then
    disconnects. *)

Definition sampleBytes : Byte.byte * Byte.byte * Byte.byte :=
  (Byte.xab, Byte.x12, Byte.xcd).

Definition sampleCode : string := "AB12CD".

Definition created : Server * Response :=
  handleRequest parseSample (mkRequest "POST" "/api/rooms" nameBody)
    1000 sampleBytes (initial 0).

Definition noConn : Conn := mkConn 0%nat EmptyString 0%nat EmptyString.

Definition joined1 : Server * Conn :=
  default (created.1, noConn)
    (onConnection 1%nat (Some sampleCode) None 2000
       (replicate 8 Byte.x01) created.1).

Definition joined2 : Server * Conn :=
  default (joined1.1, noConn)
    (onConnection 2%nat (Some sampleCode) None 3000
       (replicate 8 Byte.x02) joined1.1).

Definition updated : Server :=
  onMessage parseSample joined1.2 (updateText "80") joined2.1.

Definition closed : Server := onClose joined1.2 updated.

(** The room of the sample run once both connections have joined. *)
Definition teamSyncRoom : Room :=
  mkRoom
    [("0101010101010101"%string, mkUser (of_Z 50) (Some 1%nat) false JNull);
     ("0202020202020202"%string, mkUser (of_Z 50) (Some 2%nat) false JNull)]
    1000 (JString "Team Sync") false.

(** The first bot profile. *)
Definition restless : Bot :=
  mkBot "bot-restless" "Restless Rita" (Qc_of_Z 65) (Qc_of_Z 15) 3000.

(** The last bot profile. *)
Definition sleepy : Bot :=
  mkBot "bot-sleepy" "Sleepy Sam" (Qc_of_Z 80) (Qc_of_Z 10) 10000.

(** Two values [Math.random()] can return: the binary64 value written
    [0.6], which is [5404319552844595 / 2^53], and
    [6305039478318680 / 2^53], a little below [0.7]. *)
Definition draw06 : Qc := Q2Qc (5404319552844595 # 9007199254740992).

Definition drawTie : Qc := Q2Qc (6305039478318680 # 9007199254740992).

(** The state after start-up and one tick of the last bot with the
    second draw. *)
Definition sleepyTicked : Server := botTick sleepy drawTie (initial 0).

(** Sample requests. *)
Definition healthRequest : Request := mkRequest "GET" "/health" EmptyString.


Definition emptyRequest : Request := mkRequest "POST" "/api/rooms" EmptyString.

(** ** Messages sent to sockets *)

(** The objects passed to [JSON.stringify] before [ws.send]. *)
Inductive Message : Type :=
| WelcomeMessage (userId roomId : string) (roomName : json) (boredom : num)
    (stats : option Stats)
| StatsMessage (stats : option Stats).

(** [broadcastToRoom]: the list of [send] calls, in the order of the
    participant table; [isOpen sock] is [sock.readyState === WebSocket.OPEN]. *)
Definition broadcastToRoom (isOpen : socket → bool) (s : Server)
    (roomId : string) : list (socket * Message) :=
  match getRoom s roomId with
  | None => []
  | Some room =>
      let stats := getRoomStats s roomId in
      let message := StatsMessage stats in
      omap (λ e : string * User,
              match ws e.2 with
              | Some sock => if isOpen sock then Some (sock, message) else None
              | None => None
              end)
           (users room)
  end.

(** The [send] calls of the [connection] handler: the welcome message to
    the new socket, then the broadcast to the room. *)
Definition connectionSends (isOpen : socket → bool) (sock : socket)
    (roomParam nameParam : option string) (now : Z) (rnd : list Byte.byte)
    (s : Server) : list (socket * Message) :=
  match onConnection sock roomParam nameParam now rnd s with
  | None => []
  | Some (s', c) =>
      match heap s' !! conn_room c with
      | None => []
      | Some room =>
          (sock,
           WelcomeMessage (conn_userId c) (conn_roomId c) (name room)
             (of_Z 50) (getRoomStats s' (conn_roomId c)))
          :: broadcastToRoom isOpen s' (conn_roomId c)
      end
  end.

(** The [send] calls of the [close] handler. *)
Definition closeSends (isOpen : socket → bool) (c : Conn) (s : Server)
    : list (socket * Message) :=
  broadcastToRoom isOpen (onClose c s) (conn_roomId c).

(** ** The dial component: angles, labels and colours *)

(** [x < y] *)
Definition ltb (x y : num) : bool :=
  match x, y with
  | NaN, _ | _, NaN => false
  | Finite a, Finite b => bool_decide (a < b)
  | PInf, _ | _, NInf => false
  | NInf, _ | _, PInf => true
  end.

Definition ARC_DEGREES : num := of_Z 270.
Definition START_ANGLE : num := of_Z (-135).
Definition END_ANGLE : num := of_Z 135.

Definition valueToAngle (val : num) : num :=
  add START_ANGLE (mul (div val (of_Z 100)) ARC_DEGREES).

Definition angleToValue (angle : num) : num :=
  let normalized := angle in
  let normalized :=
    if ltb normalized START_ANGLE then START_ANGLE else normalized in
  let normalized :=
    if ltb END_ANGLE normalized then END_ANGLE else normalized in
  Math_round (mul (div (sub normalized START_ANGLE) ARC_DEGREES) (of_Z 100)).

Definition getBoredomLabel (val : num) : string :=
  if ltb val (of_Z 15) then "Engaged"
  else if ltb val (of_Z 30) then "Content"
  else if ltb val (of_Z 50) then "Neutral"
  else if ltb val (of_Z 70) then "Restless"
  else if ltb val (of_Z 85) then "Bored"
  else "Very Bored".

Definition getBoredomColor (val : num) : string :=
  if ltb val (of_Z 30) then "#22c55e"
  else if ltb val (of_Z 50) then "#84cc16"
  else if ltb val (of_Z 70) then "#eab308"
  else if ltb val (of_Z 85) then "#f97316"
  else "#ef4444".

(** ** Further notions used by the statements *)

(** Value of a hexadecimal digit of either case (0 for other characters). *)
Definition hexVal (c : ascii) : N :=
  let n := N_of_ascii c in
  if (48 <=? n)%N && (n <=? 57)%N then (n - 48)%N
  else if (97 <=? n)%N && (n <=? 102)%N then (n - 87)%N
  else if (65 <=? n)%N && (n <=? 70)%N then (n - 55)%N
  else 0%N.

(** The characters of a string all belong to an alphabet. *)
Definition charsIn (alphabet str : string) : Prop :=
  Forall (λ c : ascii, c ∈ list_ascii_of_string alphabet)
         (list_ascii_of_string str).

(** The sockets a broadcast reaches: those of the participants that have
    one, when it is open, in table order. *)
Definition openSockets (isOpen : socket → bool) (room : Room) : list socket :=
  base.filter (λ sock, isOpen sock = true)
    (omap (λ e : string * User, ws e.2) (users room)).

(** What a message on a connection may change in a room object: nothing
    but the value and the name of the connection's own participant. *)
Definition roomFrame (userId : string) (room room' : Room) : Prop :=
  (users room').*1 = (users room).*1
  ∧ createdAt room' = createdAt room
  ∧ name room' = name room
  ∧ isGlobal room' = isGlobal room
  ∧ (∀ id, id ≠ userId →
           JSMap.get id (users room') = JSMap.get id (users room))
  ∧ (∀ u, JSMap.get userId (users room) = Some u →
          ∃ u', JSMap.get userId (users room') = Some u'
                ∧ ws u' = ws u ∧ isBot u' = isBot u).

(** What a message on connection [c] may change in the state. *)
Definition messageFrame (c : Conn) (s s' : Server) : Prop :=
  rooms s' = rooms s
  ∧ (∀ l, l ≠ conn_room c → heap s' !! l = heap s !! l)
  ∧ match heap s !! conn_room c with
    | Some room =>
        ∃ room', heap s' !! conn_room c = Some room'
                 ∧ roomFrame (conn_userId c) room room'
    | None => heap s' !! conn_room c = None
    end.

(** Every bot has its entry in a participant table, with the bot flag
    set, no socket and its own name. *)
Definition botsPresent (room : Room) : Prop :=
  ∀ bot, bot ∈ bots →
    ∃ u, JSMap.get (bot_id bot) (users room) = Some u
         ∧ isBot u = true ∧ ws u = None
         ∧ userName u = JString (bot_name bot).

(** The global room is registered and holds the bots. *)
Definition botsInGlobal (s : Server) : Prop :=
  ∃ room, getRoom s GLOBAL_ROOM_ID = Some room ∧ botsPresent room.

(** The runs of the server: as [reachable], with the connections accepted
    so far, whose identifiers come from eight random bytes; messages and
    closes only happen on accepted connections. *)
Inductive running (JSON_parse : string → option json) (start : Z)
  : Server → list Conn → Prop :=
| run_initial :
    running JSON_parse start (initial start) []
| run_botTick (s : Server) (cs : list Conn) (bot : Bot) (r : Qc) :
    running JSON_parse start s cs → bot ∈ bots → 0 ≤ r → r < 1 →
    running JSON_parse start (botTick bot r s) cs
| run_cleanup (s : Server) (cs : list Conn) (now : Z) :
    running JSON_parse start s cs →
    running JSON_parse start (cleanup now s) cs
| run_request (s : Server) (cs : list Conn) (req : Request) (now : Z)
    (rnd : Byte.byte * Byte.byte * Byte.byte) :
    running JSON_parse start s cs →
    running JSON_parse start (handleRequest JSON_parse req now rnd s).1 cs
| run_connection (s s' : Server) (cs : list Conn) (sock : socket)
    (roomParam nameParam : option string) (now : Z) (rnd : list Byte.byte)
    (c : Conn) :
    running JSON_parse start s cs →
    length rnd = 8%nat →
    onConnection sock roomParam nameParam now rnd s = Some (s', c) →
    running JSON_parse start s' (c :: cs)
| run_message (s : Server) (cs : list Conn) (c : Conn) (data : string) :
    running JSON_parse start s cs → c ∈ cs →
    running JSON_parse start (onMessage JSON_parse c data s) cs
| run_close (s : Server) (cs : list Conn) (c : Conn) :
    running JSON_parse start s cs → c ∈ cs →
    running JSON_parse start (onClose c s) cs.

(** The [send] calls of the [message] handler: [broadcastToRoom] runs
    once after the value is stored and once after the name is stored,
    and not at all when the branch is not taken or raises. *)
Definition updateSends (isOpen : socket → bool) (c : Conn) (message : json)
    (s : Server) : list (socket * Message) :=
  match getProp "type" message, getProp "boredom" message with
  | Some (Some (JString ty)), Some (Some (JNumber n)) =>
      if decide (ty = "update"%string) then
        match heap s !! conn_room c with
        | None => []
        | Some room =>
            match JSMap.get (conn_userId c) (users room) with
            | None => []
            | Some _ =>
                broadcastToRoom isOpen (applyUpdate c message s) (conn_roomId c)
            end
        end
      else []
  | _, _ => []
  end.

Definition setNameSends (isOpen : socket → bool) (c : Conn) (message : json)
    (s : Server) : list (socket * Message) :=
  match getProp "type" message, getProp "name" message with
  | Some (Some (JString ty)), Some (Some nm) =>
      if bool_decide (ty = "setName"%string) && truthy nm then
        match heap s !! conn_room c with
        | None => []
        | Some room =>
            match JSMap.get (conn_userId c) (users room) with
            | None => []
            | Some _ =>
                match slice20 nm with
                | None => []
                | Some _ =>
                    broadcastToRoom isOpen (applySetName c message s)
                      (conn_roomId c)
                end
            end
        end
      else []
  | _, _ => []
  end.

Definition messageSends (JSON_parse : string → option json)
    (isOpen : socket → bool) (c : Conn) (data : string) (s : Server)
    : list (socket * Message) :=
  match JSON_parse data with
  | None => []
  | Some message =>
      updateSends isOpen c message s
      ++ setNameSends isOpen c message (applyUpdate c message s)
  end.

(** Seven euro signs (21 bytes, 7 code units), and 19 letters followed by
    the character U+1F600 (4 bytes, 2 code units). *)
Definition euros : string :=
  let euro (rest : string) :=
    String (ascii_of_nat 226) (String (ascii_of_nat 130)
      (String (ascii_of_nat 172) rest)) in
  euro (euro (euro (euro (euro (euro (euro EmptyString)))))).

Definition lettersAndFace : string :=
  "abcdefghijklmnopqrs"
  +:+ String (ascii_of_nat 240) (String (ascii_of_nat 159)
        (String (ascii_of_nat 152) (String (ascii_of_nat 128) EmptyString))).

(** A [setName] message with a name of 26 characters, and a parser that
    reads it besides the texts of [parseSample]. *)
Definition setNameText : string :=
  "{" +:+ quoted "type" +:+ ":" +:+ quoted "setName" +:+ ","
      +:+ quoted "name" +:+ ":" +:+ quoted "abcdefghijklmnopqrstuvwxyz" +:+ "}".

Definition setNameMessage : json :=
  JObject [("type"%string, JString "setName");
           ("name"%string, JString "abcdefghijklmnopqrstuvwxyz")].

Definition parseWithName (text : string) : option json :=
  if decide (text = setNameText) then Some setNameMessage
  else parseSample text.

(** * Properties *)

(** ** Rounding to binary64 *)

Section Binary64.

Local Open Scope Q_scope.

Lemma pow2_pos (k : Z) : 0 < pow2 k.
Proof. apply Qpower_0_lt. reflexivity. Qed.

Lemma pow2_add (a b : Z) : pow2 (a + b) == pow2 a * pow2 b.
Proof. apply Qpower_plus. discriminate. Qed.

Lemma pow2_le (a b : Z) : (a ≤ b)%Z → pow2 a <= pow2 b.
Proof. intros H. apply Qpower_le_compat_l; [exact H|]. discriminate. Qed.

Lemma pow2_lt (a b : Z) : (a < b)%Z → pow2 a < pow2 b.
Proof. intros H. apply Qpower_lt_compat_l; [exact H|]. reflexivity. Qed.

Lemma pow2_Z (k : Z) : (0 ≤ k)%Z → pow2 k == inject_Z (2 ^ k).
Proof. intros H. unfold pow2. by rewrite Zpower_Qpower. Qed.

Lemma pow2_opp (k : Z) : pow2 (- k) == / pow2 k.
Proof. apply Qpower_opp. Qed.

Lemma pow2_0 : pow2 0 == 1.
Proof. reflexivity. Qed.

Lemma pow2_succ (k : Z) : pow2 (k + 1) == 2 * pow2 k.
Proof. rewrite pow2_add. change (pow2 1) with 2. ring. Qed.

Lemma flog2_spec (a : Q) : 0 < a → pow2 (flog2 a) <= a ∧ a < pow2 (flog2 a + 1).
Proof.
  intros Ha. unfold flog2. destruct (Qle_bool 1 a) eqn:E.
  - apply Qle_bool_iff in E.
    assert (1 ≤ Qfloor a)%Z as Hf.
    { change 1%Z with (Qfloor 1). by apply Qfloor_resp_le. }
    destruct (Z.log2_spec (Qfloor a)) as [H1 H2]; [lia|].
    pose proof (Z.log2_nonneg (Qfloor a)) as Hnn.
    pose proof (Qfloor_le a) as Hfl. pose proof (Qlt_floor a) as Hlt.
    split.
    + rewrite pow2_Z by done. eapply Qle_trans; [|exact Hfl].
      rewrite <- Zle_Qle. exact H1.
    + rewrite pow2_Z by lia. eapply Qlt_le_trans; [exact Hlt|].
      rewrite <- Zle_Qle. lia.
  - assert (a < 1) as Ha1.
    { apply Qnot_le_lt. intros H. apply Qle_bool_iff in H. congruence. }
    set (b := / a).
    assert (a * b == 1) as Hab by (unfold b; field; intros E'; lra).
    assert (0 < b) as Hb by (by apply Qinv_lt_0_compat).
    assert (1 < b) as Hb1 by nra.
    pose proof (Qle_ceiling b) as Hc. pose proof (Qceiling_lt b) as Hc'.
    set (c := Qceiling b) in *.
    assert (1 < c)%Z as Hc1.
    { rewrite Zlt_Qlt. change (inject_Z 1) with 1. lra. }
    destruct (Z.log2_up_spec c Hc1) as [H1 H2].
    pose proof (Z.log2_up_nonneg c) as Hnn.
    set (L := Z.log2_up c) in *.
    assert (0 < L)%Z as HL.
    { destruct (decide (L = 0)%Z) as [E0|]; [|lia]. rewrite E0 in H2.
      simpl in H2. lia. }
    assert (b <= pow2 L) as HbL.
    { rewrite pow2_Z by lia. eapply Qle_trans; [exact Hc|].
      rewrite <- Zle_Qle. exact H2. }
    assert (pow2 (L - 1) < b) as HLb.
    { rewrite pow2_Z by lia. eapply Qle_lt_trans; [|exact Hc'].
      rewrite <- Zle_Qle. replace (Z.pred L) with (L - 1)%Z in H1 by lia. lia. }
    pose proof (pow2_pos L) as HpL. pose proof (pow2_pos (L - 1)) as HpL1.
    split.
    + rewrite pow2_opp.
      assert (/ pow2 L * pow2 L == 1) as Hinv by (field; intros E'; lra).
      set (P := pow2 L) in *. set (I := / P) in *.
      assert (0 < I) by (unfold I; by apply Qinv_lt_0_compat).
      nra.
    + replace (- L + 1)%Z with (- (L - 1))%Z by lia. rewrite pow2_opp.
      assert (/ pow2 (L - 1) * pow2 (L - 1) == 1) as Hinv by (field; intros E'; lra).
      set (P := pow2 (L - 1)) in *. set (I := / P) in *.
      assert (0 < I) by (unfold I; by apply Qinv_lt_0_compat).
      nra.
Qed.

Lemma flog2_unique (a : Q) (e : Z) :
  pow2 e <= a → a < pow2 (e + 1) → flog2 a = e.
Proof.
  intros H1 H2.
  assert (0 < a) as Ha by (pose proof (pow2_pos e); lra).
  destruct (flog2_spec a Ha) as [H3 H4].
  destruct (Z.lt_trichotomy (flog2 a) e) as [Hlt|[->|Hgt]]; [|done|].
  - pose proof (pow2_le (flog2 a + 1) e ltac:(lia)). lra.
  - pose proof (pow2_le (e + 1) (flog2 a) ltac:(lia)). lra.
Qed.

Lemma flog2_mono (a b : Q) : 0 < a → a <= b → (flog2 a ≤ flog2 b)%Z.
Proof.
  intros Ha Hab.
  destruct (flog2_spec a Ha) as [H1 H2].
  destruct (flog2_spec b ltac:(lra)) as [H3 H4].
  destruct (Z_le_gt_dec (flog2 a) (flog2 b)) as [|Hgt]; [done|].
  pose proof (pow2_le (flog2 b + 1) (flog2 a) ltac:(lia)). lra.
Qed.

#[global] Instance flog2_comp : Proper (Qeq ==> eq) flog2.
Proof.
  intros a b E. unfold flog2. rewrite E. destruct (Qle_bool 1 b); by rewrite E.
Qed.

#[global] Instance rne_comp : Proper (Qeq ==> eq) rne.
Proof.
  intros a b E. unfold rne. cbn zeta.
  assert (Qfloor a = Qfloor b) as -> by (by apply Qfloor_comp).
  assert (Qcompare (a - inject_Z (Qfloor b)) (1 # 2)
          = Qcompare (b - inject_Z (Qfloor b)) (1 # 2)) as ->; [|done].
  apply Qcompare_comp; [|reflexivity]. rewrite E. reflexivity.
Qed.

Lemma rne_Z (z : Z) : rne (inject_Z z) = z.
Proof.
  unfold rne. cbn zeta. rewrite Qfloor_Z.
  destruct (Qcompare _ _) eqn:E; [|done|].
  - apply Qeq_alt in E. exfalso. lra.
  - apply Qgt_alt in E. exfalso. lra.
Qed.

Lemma rne_cases (y : Q) :
  rne y = Qfloor y ∨ rne y = (Qfloor y + 1)%Z.
Proof.
  unfold rne. cbn zeta. destruct (Qcompare _ _); [|by left|by right].
  destruct (Z.even _); [by left|by right].
Qed.

Lemma rne_error (y : Q) :
  inject_Z (rne y) - y <= 1 # 2 ∧ y - inject_Z (rne y) <= 1 # 2.
Proof.
  pose proof (Qfloor_le y) as H1. pose proof (Qlt_floor y) as H2.
  rewrite inject_Z_plus in H2. change (inject_Z 1) with 1 in H2.
  unfold rne. cbn zeta. destruct (Qcompare _ _) eqn:E.
  - apply Qeq_alt in E. destruct (Z.even _).
    + lra.
    + rewrite inject_Z_plus. change (inject_Z 1) with 1. lra.
  - apply Qlt_alt in E. lra.
  - apply Qgt_alt in E. rewrite inject_Z_plus. change (inject_Z 1) with 1. lra.
Qed.

Lemma rne_mono (x y : Q) : x <= y → (rne x ≤ rne y)%Z.
Proof.
  intros Hxy. pose proof (Qfloor_resp_le x y Hxy) as Hf.
  destruct (decide (Qfloor x = Qfloor y)) as [Ef|Hne].
  - unfold rne. cbn zeta. rewrite <- Ef.
    destruct (Qcompare (x - _) _) eqn:Ex;
      [apply Qeq_alt in Ex|apply Qlt_alt in Ex|apply Qgt_alt in Ex];
      (destruct (Qcompare (y - _) _) eqn:Ey;
       [apply Qeq_alt in Ey|apply Qlt_alt in Ey|apply Qgt_alt in Ey]);
      try (exfalso; lra); try destruct (Z.even _); lia.
  - destruct (rne_cases x) as [->| ->], (rne_cases y) as [->| ->]; lia.
Qed.

#[global] Instance grid_comp (q : Z) : Proper (Qeq ==> Qeq) (grid q).
Proof. intros a b E. unfold grid. by rewrite E. Qed.

Lemma roundMag_grid (a : Q) : roundMag a = grid (ulpExp a) a.
Proof. reflexivity. Qed.

Lemma div_pow2_mul (q : Z) (m : Z) : inject_Z m * pow2 q / pow2 q == inject_Z m.
Proof. pose proof (pow2_pos q). field. intros E. lra. Qed.

Lemma grid_fix (q m : Z) : grid q (inject_Z m * pow2 q) == inject_Z m * pow2 q.
Proof. unfold grid. by rewrite div_pow2_mul, rne_Z. Qed.

Lemma grid_mono (q : Z) (a b : Q) : a <= b → grid q a <= grid q b.
Proof.
  intros Hab. unfold grid. pose proof (pow2_pos q) as Hp.
  apply Qmult_le_compat_r; [|lra].
  rewrite <- Zle_Qle. apply rne_mono.
  apply Qmult_le_compat_r; [exact Hab|].
  apply Qlt_le_weak, Qinv_lt_0_compat, Hp.
Qed.

Lemma grid_le (q m : Z) (a : Q) :
  a <= inject_Z m * pow2 q → grid q a <= inject_Z m * pow2 q.
Proof. intros H. rewrite <- (grid_fix q m). by apply grid_mono. Qed.

Lemma grid_ge (q m : Z) (a : Q) :
  inject_Z m * pow2 q <= a → inject_Z m * pow2 q <= grid q a.
Proof. intros H. rewrite <- (grid_fix q m). by apply grid_mono. Qed.

Lemma grid_error (q : Z) (a : Q) :
  grid q a - a <= pow2 q * (1 # 2) ∧ a - grid q a <= pow2 q * (1 # 2).
Proof.
  pose proof (pow2_pos q) as Hp. unfold grid.
  destruct (rne_error (a / pow2 q)) as [H1 H2].
  assert (a == a / pow2 q * pow2 q) as Ha by (field; intros E; lra).
  set (y := a / pow2 q) in *. set (r := inject_Z (rne y)) in *.
  set (P := pow2 q) in *. split; rewrite Ha at 1; nra.
Qed.

Lemma pow2_grid (q k : Z) :
  (q ≤ k)%Z → pow2 k == inject_Z (2 ^ (k - q)) * pow2 q.
Proof.
  intros H. rewrite <- pow2_Z by lia. rewrite <- pow2_add. by replace (k - q + q)%Z with k by lia.
Qed.

Lemma ulpExp_mono (a b : Q) : 0 < a → a <= b → (ulpExp a ≤ ulpExp b)%Z.
Proof. intros Ha Hab. unfold ulpExp. pose proof (flog2_mono a b Ha Hab). lia. Qed.

Lemma grid_nonneg (q : Z) (a : Q) : 0 <= a → 0 <= grid q a.
Proof.
  intros Ha. pose proof (grid_ge q 0 a) as H.
  change (inject_Z 0) with 0 in H.
  assert (0 * pow2 q <= a) as H0 by lra. specialize (H H0). lra.
Qed.

Lemma grid_0 (q : Z) : grid q 0 == 0.
Proof.
  pose proof (grid_fix q 0) as H. change (inject_Z 0) with 0 in H.
  assert (0 * pow2 q == 0) as E by ring. rewrite E in H. exact H.
Qed.

#[global] Instance roundMag_comp : Proper (Qeq ==> Qeq) roundMag.
Proof.
  intros a b E. unfold roundMag, ulpExp. cbn zeta.
  rewrite (flog2_comp a b E). by rewrite E.
Qed.

Lemma roundMag_mono (a b : Q) : 0 <= a → a <= b → roundMag a <= roundMag b.
Proof.
  intros Ha Hab. rewrite !roundMag_grid.
  destruct (Qle_lt_or_eq _ _ Ha) as [Hpos|H0].
  - pose proof (ulpExp_mono a b Hpos Hab) as Hq.
    destruct (decide (ulpExp a = ulpExp b)) as [->|Hne].
    + by apply grid_mono.
    + assert (ulpExp a < ulpExp b)%Z as Hlt by lia. clear Hq Hne.
      destruct (flog2_spec a Hpos) as [_ Ha2].
      destruct (flog2_spec b ltac:(lra)) as [Hb1 _].
      assert (flog2 a < flog2 b)%Z as He by (unfold ulpExp in Hlt; lia).
      assert (ulpExp b = flog2 b - 52)%Z as Eb by (unfold ulpExp in *; lia).
      assert (ulpExp a ≤ flog2 b)%Z as Hqa by (unfold ulpExp in *; lia).
      pose proof (pow2_le (flog2 a + 1) (flog2 b) ltac:(lia)) as Hp.
      apply Qle_trans with (pow2 (flog2 b)).
      * rewrite (pow2_grid (ulpExp a) (flog2 b)) by lia.
        apply grid_le. rewrite <- pow2_grid by lia. lra.
      * rewrite (pow2_grid (ulpExp b) (flog2 b)) by lia.
        apply grid_ge. rewrite <- pow2_grid by lia. lra.
  - assert (grid (ulpExp a) a == grid (ulpExp a) 0) as E
      by (apply grid_comp; symmetry; exact H0).
    rewrite E, grid_0. apply grid_nonneg. lra.
Qed.

Lemma roundMag_nonneg (a : Q) : 0 <= a → 0 <= roundMag a.
Proof. intros Ha. rewrite roundMag_grid. by apply grid_nonneg. Qed.

(** Numbers with a significand of at most 53 bits are not changed. *)
Lemma roundMag_fix (m k : Z) :
  (0 ≤ m < 2 ^ 53)%Z → (-1074 ≤ k)%Z →
  roundMag (inject_Z m * pow2 k) == inject_Z m * pow2 k.
Proof.
  intros Hm Hk. set (a := inject_Z m * pow2 k).
  destruct (decide (m = 0%Z)) as [->|Hne].
  - unfold a. change (inject_Z 0) with 0. rewrite Qmult_0_l.
    rewrite roundMag_grid. apply grid_0.
  - pose proof (pow2_pos k) as Hp.
    assert (1 <= inject_Z m) as Hm1.
    { change 1 with (inject_Z 1). rewrite <- Zle_Qle. lia. }
    assert (0 < a) as Ha by (unfold a; nra).
    destruct (flog2_spec a Ha) as [H1 _].
    assert (a < pow2 (53 + k)) as H2.
    { unfold a. rewrite pow2_add, (pow2_Z 53) by lia.
      assert (inject_Z m < inject_Z (2 ^ 53)) as Hlt by (rewrite <- Zlt_Qlt; lia).
      nra. }
    assert (flog2 a < 53 + k)%Z as He.
    { destruct (Z_lt_ge_dec (flog2 a) (53 + k)) as [|Hge]; [done|].
      pose proof (pow2_le (53 + k) (flog2 a) ltac:(lia)). lra. }
    assert (ulpExp a ≤ k)%Z as Hq by (unfold ulpExp; lia).
    rewrite roundMag_grid. set (q := ulpExp a) in *.
    assert (a == inject_Z (m * 2 ^ (k - q)) * pow2 q) as Ea.
    { unfold a. rewrite inject_Z_mult, (pow2_grid q k) by lia. ring. }
    rewrite Ea. apply grid_fix.
Qed.

Lemma roundMag_error (a : Q) :
  0 <= a →
  roundMag a - a <= a * pow2 (-53) + pow2 (-1075)
  ∧ a - roundMag a <= a * pow2 (-53) + pow2 (-1075).
Proof.
  intros Ha. rewrite roundMag_grid.
  pose proof (pow2_pos (-1075)) as Hp. pose proof (pow2_pos (-53)) as Hp'.
  destruct (Qle_lt_or_eq _ _ Ha) as [Hpos|H0].
  - destruct (grid_error (ulpExp a) a) as [H1 H2].
    assert (pow2 (ulpExp a) * (1 # 2) <= a * pow2 (-53) + pow2 (-1075)) as H;
      [|lra].
    destruct (flog2_spec a Hpos) as [Hf _].
    unfold ulpExp. destruct (Z.max_spec (flog2 a - 52) (-1074)) as [[_ ->]|[_ ->]].
    + pose proof (pow2_succ (-1075)) as E.
      change (-1075 + 1)%Z with (-1074)%Z in E. rewrite E. nra.
    + replace (flog2 a - 52)%Z with (flog2 a + (-52))%Z by lia.
      rewrite pow2_add. pose proof (pow2_pos (flog2 a)).
      pose proof (pow2_succ (-53)) as E.
      change (-53 + 1)%Z with (-52)%Z in E. rewrite E. nra.
  - assert (grid (ulpExp a) a == 0) as E.
    { rewrite <- (grid_0 (ulpExp a)). apply grid_comp. symmetry. exact H0. }
    rewrite E. nra.
Qed.

Lemma sgn_pos (x : Qc) : 0 < x → sgn x = Gt.
Proof. intros H. unfold sgn. by apply Qgt_alt. Qed.

Lemma sgn_neg (x : Qc) : x < 0 → sgn x = Lt.
Proof. intros H. unfold sgn. by apply Qlt_alt. Qed.

Lemma Qle_bool_false (x y : Q) : Qle_bool x y = false ↔ y < x.
Proof.
  split.
  - intros H. apply Qnot_le_lt. intros H'. apply Qle_bool_iff in H'. congruence.
  - intros H. apply not_true_is_false. intros H'. apply Qle_bool_iff in H'. lra.
Qed.

Lemma roundMag_0 (a : Q) : a == 0 → roundMag a == 0.
Proof.
  intros E. rewrite roundMag_grid. rewrite <- (grid_0 (ulpExp a)).
  by apply grid_comp.
Qed.

Lemma sgn_cases (x : Qc) :
  (x < 0 ∧ sgn x = Lt) ∨ (x == 0 ∧ sgn x = Eq) ∨ (0 < x ∧ sgn x = Gt).
Proof.
  unfold sgn, Qccompare. change (this 0%Qc) with 0.
  destruct (Qcompare x 0) eqn:E.
  - apply Qeq_alt in E. right. left. by split.
  - apply Qlt_alt in E. left. by split.
  - apply Qgt_alt in E. right. right. by split.
Qed.

Lemma binary64_mono (x y : Qc) :
  (x ≤ y)%Qc → leb (binary64 x) (binary64 y) = true.
Proof.
  unfold Qcle. intros Hxy. unfold binary64. cbn zeta.
  set (a := roundMag (Qabs x)). set (b := roundMag (Qabs y)).
  assert (0 <= a) as Ha by (apply roundMag_nonneg, Qabs_nonneg).
  assert (0 <= b) as Hb by (apply roundMag_nonneg, Qabs_nonneg).
  pose proof (pow2_pos 1024) as Hp.
  assert (x == 0 → a == 0) as Hx0.
  { intros E. apply roundMag_0. rewrite E. reflexivity. }
  assert (y == 0 → b == 0) as Hy0.
  { intros E. apply roundMag_0. rewrite E. reflexivity. }
  assert (y < 0 → b <= a) as Hneg.
  { intros Hy. apply roundMag_mono; [apply Qabs_nonneg|].
    rewrite !Qabs_neg by lra. lra. }
  assert (0 <= x → a <= b) as Hpos.
  { intros Hx. apply roundMag_mono; [apply Qabs_nonneg|].
    rewrite !Qabs_pos by lra. lra. }
  clearbody a b.
  destruct (sgn_cases x) as [[Hx ->]|[[Hx ->]|[Hx ->]]],
           (sgn_cases y) as [[Hy ->]|[[Hy ->]|[Hy ->]]];
    try (exfalso; lra);
    try specialize (Hx0 Hx); try specialize (Hy0 Hy);
    try specialize (Hneg Hy); try specialize (Hpos ltac:(lra));
    (destruct (Qle_bool (pow2 1024) a) eqn:Ea,
              (Qle_bool (pow2 1024) b) eqn:Eb;
     try apply Qle_bool_iff in Ea; try apply Qle_bool_iff in Eb;
     try apply Qle_bool_false in Ea; try apply Qle_bool_false in Eb);
    try (exfalso; lra); try reflexivity;
    cbn; apply bool_decide_eq_true; unfold Qcle; cbn; rewrite !Qred_correct;
    (destruct (Qle_bool 0 x) eqn:Ex, (Qle_bool 0 y) eqn:Ey;
     try apply Qle_bool_iff in Ex; try apply Qle_bool_iff in Ey;
     try apply Qle_bool_false in Ex; try apply Qle_bool_false in Ey);
    lra.
Qed.

Lemma Q2Qc_this (x : Qc) : Q2Qc x = x.
Proof. apply Qc_is_canon. cbn. apply Qred_correct. Qed.

(** Integers below [2^53] in magnitude are binary64 values. *)
Lemma binary64_Z (z : Z) :
  (- 2 ^ 53 < z < 2 ^ 53)%Z → binary64 (Qc_of_Z z) = Finite (Qc_of_Z z).
Proof.
  intros Hz. unfold binary64. cbn zeta.
  change (this (Qc_of_Z z)) with (inject_Z z).
  assert (Qabs (inject_Z z) == inject_Z (Z.abs z) * pow2 0) as Ea.
  { unfold inject_Z. rewrite <- Zabs_Qabs. change (pow2 0) with 1. ring. }
  assert (roundMag (Qabs (inject_Z z)) == inject_Z (Z.abs z)) as Er.
  { rewrite Ea. rewrite roundMag_fix by lia. change (pow2 0) with 1. ring. }
  assert (Qle_bool (pow2 1024) (roundMag (Qabs (inject_Z z))) = false) as ->.
  { apply Qle_bool_false. rewrite Er, (pow2_Z 1024) by lia.
    rewrite <- Zlt_Qlt. apply Z.lt_trans with (2 ^ 53)%Z; [lia|]. reflexivity. }
  f_equal. apply Qc_is_canon.
  change (this (Qc_of_Z z)) with (inject_Z z). cbn [this Q2Qc].
  rewrite Qred_correct.
  destruct (Qle_bool 0 (inject_Z z)) eqn:E.
  - apply Qle_bool_iff in E.
    change 0 with (inject_Z 0) in E. rewrite <- Zle_Qle in E.
    rewrite Er. by rewrite Z.abs_eq.
  - apply Qle_bool_false in E.
    change 0 with (inject_Z 0) in E. rewrite <- Zlt_Qlt in E.
    rewrite Er. rewrite Z.abs_neq by lia. rewrite inject_Z_opp. ring.
Qed.

(** Between two binary64 values the result is finite and between them. *)
Lemma binary64_between (lo hi x : Qc) :
  binary64 lo = Finite lo → binary64 hi = Finite hi →
  (lo ≤ x)%Qc → (x ≤ hi)%Qc →
  ∃ y, binary64 x = Finite y ∧ (lo ≤ y)%Qc ∧ (y ≤ hi)%Qc.
Proof.
  intros Hlo Hhi H1 H2.
  pose proof (binary64_mono lo x H1) as M1.
  pose proof (binary64_mono x hi H2) as M2.
  rewrite Hlo in M1. rewrite Hhi in M2.
  destruct (binary64 x) as [y| | |]; try done.
  exists y. cbn in M1, M2.
  apply bool_decide_eq_true in M1. apply bool_decide_eq_true in M2. done.
Qed.

(** The relative error of rounding is at most [2^-53]. *)
Lemma binary64_error (x y : Qc) :
  binary64 x = Finite y →
  (y - x ≤ Qcabs x * u53 + tiny)%Qc ∧ (x - y ≤ Qcabs x * u53 + tiny)%Qc.
Proof.
  unfold binary64. cbn zeta.
  destruct (Qle_bool (pow2 1024) _); [by destruct (sgn x)|].
  intros [= <-].
  destruct (roundMag_error (Qabs x) (Qabs_nonneg x)) as [H1 H2].
  set (r := roundMag (Qabs x)) in *.
  unfold Qcle, Qcminus, Qcplus, Qcmult, Qcopp, Qcabs, u53, tiny.
  cbn [this Q2Qc]. rewrite !Qred_correct.
  destruct (Qle_bool 0 x) eqn:E.
  - apply Qle_bool_iff in E. rewrite (Qabs_pos x E) in *. lra.
  - apply Qle_bool_false in E. rewrite (Qabs_neg x) in * by lra. lra.
Qed.

(** Numbers [m * 2^k] with a significand below [2^53] are binary64
    values. *)
Lemma binary64_dyadic (m k : Z) :
  (- 2 ^ 53 < m < 2 ^ 53)%Z → (-1074 ≤ k ≤ 970)%Z →
  binary64 (Q2Qc (inject_Z m * pow2 k))
  = Finite (Q2Qc (inject_Z m * pow2 k)).
Proof.
  intros Hm Hk. unfold binary64. cbn zeta. cbn [this Q2Qc].
  pose proof (pow2_pos k) as Hp.
  assert (Qabs (Qred (inject_Z m * pow2 k)) == inject_Z (Z.abs m) * pow2 k)
    as Ea.
  { rewrite Qred_correct, Qabs_Qmult, (Qabs_pos (pow2 k)) by lra.
    unfold inject_Z. by rewrite <- Zabs_Qabs. }
  assert (roundMag (Qabs (Qred (inject_Z m * pow2 k)))
          == inject_Z (Z.abs m) * pow2 k) as Er.
  { rewrite (roundMag_comp _ _ Ea). apply roundMag_fix; lia. }
  assert (Qle_bool (pow2 1024) (roundMag (Qabs (Qred (inject_Z m * pow2 k))))
          = false) as ->.
  { apply Qle_bool_false. rewrite Er.
    apply Qlt_le_trans with (pow2 53 * pow2 k).
    - assert (inject_Z (Z.abs m) < pow2 53).
      { rewrite (pow2_Z 53) by lia. rewrite <- Zlt_Qlt. lia. }
      nra.
    - rewrite <- pow2_add. apply pow2_le. lia. }
  set (r := roundMag _) in *. clearbody r.
  f_equal. apply Qc_is_canon. cbn [this Q2Qc].
  destruct (Qle_bool 0 (Qred (inject_Z m * pow2 k))) eqn:E.
  - apply Qle_bool_iff in E. rewrite !Qred_correct in *. rewrite Er.
    assert (0 <= inject_Z m) as Hm0 by nra.
    change 0 with (inject_Z 0) in Hm0. rewrite <- Zle_Qle in Hm0.
    by rewrite Z.abs_eq.
  - apply Qle_bool_false in E. rewrite !Qred_correct in *. rewrite Er.
    assert (inject_Z m < 0) as Hm0 by nra.
    change 0 with (inject_Z 0) in Hm0. rewrite <- Zlt_Qlt in Hm0.
    rewrite Z.abs_neq by lia. rewrite inject_Z_opp. ring.
Qed.

Lemma binary64_half (m : Z) :
  (- 2 ^ 53 < m < 2 ^ 53)%Z →
  binary64 (Qc_of_Z m * Q2Qc (1 # 2))%Qc = Finite (Qc_of_Z m * Q2Qc (1 # 2))%Qc.
Proof.
  intros Hm.
  assert ((Qc_of_Z m * Q2Qc (1 # 2))%Qc = Q2Qc (inject_Z m * pow2 (-1))) as ->.
  { apply Qc_is_canon. unfold Qcmult. cbn [this Q2Qc].
    change (this (Qc_of_Z m)) with (inject_Z m).
    rewrite !Qred_correct. reflexivity. }
  apply binary64_dyadic; lia.
Qed.

(** One rounding step on a magnitude bounded by an integer. *)
Lemma binary64_step (B : Z) (x : Qc) :
  (0 ≤ B < 2 ^ 53)%Z →
  (- Qc_of_Z B ≤ x)%Qc → (x ≤ Qc_of_Z B)%Qc →
  ∃ y, binary64 x = Finite y
       ∧ (- Qc_of_Z B ≤ y)%Qc ∧ (y ≤ Qc_of_Z B)%Qc
       ∧ (y - x ≤ Qc_of_Z B * u53 + tiny)%Qc
       ∧ (x - y ≤ Qc_of_Z B * u53 + tiny)%Qc.
Proof.
  intros HB H1 H2.
  assert ((- Qc_of_Z B)%Qc = Qc_of_Z (- B)) as Eneg.
  { apply Qc_is_canon. unfold Qcopp. cbn [this Q2Qc].
    change (this (Qc_of_Z B)) with (inject_Z B).
    change (this (Qc_of_Z (- B))) with (inject_Z (- B)).
    rewrite Qred_correct, inject_Z_opp. reflexivity. }
  destruct (binary64_between (Qc_of_Z (- B)) (Qc_of_Z B) x)
    as (y & Hy & Hy1 & Hy2).
  - apply binary64_Z. lia.
  - apply binary64_Z. lia.
  - by rewrite <- Eneg.
  - done.
  - exists y. split_and!; try done; [by rewrite Eneg| |].
    + destruct (binary64_error x y Hy) as [E _].
      eapply Qcle_trans; [exact E|].
      assert (Qcabs x ≤ Qc_of_Z B)%Qc as Ha.
      { apply Qcabs_Qcle_condition. split; [exact H1|exact H2]. }
      revert Ha. unfold Qcle, Qcplus, Qcmult, u53, tiny. cbn [this Q2Qc].
      rewrite !Qred_correct. pose proof (pow2_pos (-53)). intros Ha. nra.
    + destruct (binary64_error x y Hy) as [_ E].
      eapply Qcle_trans; [exact E|].
      assert (Qcabs x ≤ Qc_of_Z B)%Qc as Ha.
      { apply Qcabs_Qcle_condition. split; [exact H1|exact H2]. }
      revert Ha. unfold Qcle, Qcplus, Qcmult, u53, tiny. cbn [this Q2Qc].
      rewrite !Qred_correct. pose proof (pow2_pos (-53)). intros Ha. nra.
Qed.

End Binary64.


(** ** Rationals and rounding *)

Ltac qc_unfold :=
  unfold Qcle, Qclt, Qcminus, Qcdiv, Qcplus, Qcmult, Qcopp, Qc_of_Z in *;
  cbn [this Q2Qc] in *.

Ltac qc_to_q :=
  qc_unfold;
  repeat match goal with
         | H : context [Qred _] |- _ => rewrite Qred_correct in H
         | |- context [Qred _] => rewrite Qred_correct
         end.

(** Integer constants under [inject_Z], for [lra]. *)
Ltac inj_consts :=
  repeat match goal with
         | H : context [(2 ^ Zpos ?p)%Z] |- _ =>
             let v := eval vm_compute in (2 ^ Zpos p)%Z in
             change (2 ^ Zpos p)%Z with v in H
         | |- context [(2 ^ Zpos ?p)%Z] =>
             let v := eval vm_compute in (2 ^ Zpos p)%Z in
             change (2 ^ Zpos p)%Z with v
         | H : context [(2 ^ ?p)%positive] |- _ =>
             let v := eval vm_compute in (2 ^ p)%positive in
             change (2 ^ p)%positive with v in H
         | |- context [(2 ^ ?p)%positive] =>
             let v := eval vm_compute in (2 ^ p)%positive in
             change (2 ^ p)%positive with v
         | H : context [inject_Z (Zpos ?p)] |- _ =>
             change (inject_Z (Zpos p)) with (Zpos p # 1) in H
         | H : context [inject_Z (Zneg ?p)] |- _ =>
             change (inject_Z (Zneg p)) with (Zneg p # 1) in H
         | H : context [inject_Z Z0] |- _ =>
             change (inject_Z Z0) with (0 # 1) in H
         | |- context [inject_Z (Zpos ?p)] =>
             change (inject_Z (Zpos p)) with (Zpos p # 1)
         | |- context [inject_Z (Zneg ?p)] =>
             change (inject_Z (Zneg p)) with (Zneg p # 1)
         | |- context [inject_Z Z0] =>
             change (inject_Z Z0) with (0 # 1)
         end.

(** Linear goals over [Qc] with integer constants. *)
Ltac inj_ops :=
  repeat match goal with
         | H : context [inject_Z (_ + _)] |- _ => rewrite inject_Z_plus in H
         | H : context [inject_Z (_ * _)] |- _ => rewrite inject_Z_mult in H
         | H : context [inject_Z (- _)] |- _ => rewrite inject_Z_opp in H
         | H : context [inject_Z (?a - ?b)] |- _ =>
             change (inject_Z (a - b)) with (inject_Z (a + - b)) in H
         | |- context [inject_Z (?a - ?b)] =>
             change (inject_Z (a - b)) with (inject_Z (a + - b))
         | |- context [inject_Z (_ + _)] => rewrite inject_Z_plus
         | |- context [inject_Z (_ * _)] => rewrite inject_Z_mult
         | |- context [inject_Z (- _)] => rewrite inject_Z_opp
         end.

Ltac qc_lra :=
  repeat match goal with
         | H : ∀ _, _ |- _ => clear H
         end;
  change (Z.of_nat 0) with 0%Z in *;
  unfold Z.succ in *;
  qc_to_q; inj_consts; inj_ops; inj_consts; lra.

(** Closed equalities between rationals. *)
Ltac qc_closed := apply Qc_is_canon; vm_compute; reflexivity.

(** Closed decidable facts. *)
Ltac decided := apply (bool_decide_unpack _); vm_compute; exact I.

Lemma Qc_of_Z_0 : Qc_of_Z 0 = 0.
Proof. qc_closed. Qed.

Lemma Qc_of_Z_le (a b : Z) : (a ≤ b)%Z ↔ Qc_of_Z a ≤ Qc_of_Z b.
Proof. qc_unfold. rewrite Zle_Qle. reflexivity. Qed.

Lemma Qc_of_Z_lt (a b : Z) : (a < b)%Z ↔ Qc_of_Z a < Qc_of_Z b.
Proof. qc_unfold. rewrite Zlt_Qlt. reflexivity. Qed.

Lemma Qc_of_Z_inj (a b : Z) : Qc_of_Z a = Qc_of_Z b → a = b.
Proof.
  intros H. apply Z.le_antisymm; apply Qc_of_Z_le; rewrite H; apply Qcle_refl.
Qed.

Lemma this_plus_half (q : Qc) : (this (q + Q2Qc (1 # 2)) == this q + (1 # 2))%Q.
Proof. qc_to_q. reflexivity. Qed.

Lemma round_Z_rounds (q : Qc) : rounds_to q (round_Z q).
Proof.
  unfold rounds_to, round_Z.
  pose proof (Qfloor_le (q + Q2Qc (1 # 2))) as H1.
  pose proof (Qlt_floor (q + Q2Qc (1 # 2))) as H2.
  pose proof (this_plus_half q) as E.
  rewrite inject_Z_plus in H2. change (inject_Z 1) with 1%Q in H2.
  set (z := Qfloor _) in *. clearbody z.
  set (x := this (q + Q2Qc (1 # 2))) in *. clearbody x.
  qc_to_q. split; lra.
Qed.

Lemma rounds_to_unique (q : Qc) (z1 z2 : Z) :
  rounds_to q z1 → rounds_to q z2 → z1 = z2.
Proof.
  intros [H1 H2] [H3 H4]. qc_to_q.
  assert (inject_Z z1 < inject_Z z2 + 1)%Q as A by lra.
  assert (inject_Z z2 < inject_Z z1 + 1)%Q as B by lra.
  change 1%Q with (inject_Z 1) in A, B. rewrite <- inject_Z_plus in A, B.
  rewrite <- Zlt_Qlt in A, B. lia.
Qed.

Lemma round_Z_of_Z (z : Z) : round_Z (Qc_of_Z z) = z.
Proof.
  apply (rounds_to_unique (Qc_of_Z z)); [apply round_Z_rounds|].
  split; qc_to_q; lra.
Qed.

(** A rounded value is at least as close as any other integer. *)
Lemma rounds_to_nearest (q : Qc) (z k : Z) :
  rounds_to q z → Qcabs (Qc_of_Z z - q) ≤ Qcabs (Qc_of_Z k - q).
Proof.
  intros [H1 H2].
  assert (k = z ∨ k ≤ z + -1 ∨ z + 1 ≤ k)%Z as [->|[Hk|Hk]] by lia;
    [apply Qcle_refl| |];
    rewrite Zle_Qle, inject_Z_plus in Hk;
    [change (inject_Z (-1)) with (-1)%Q in Hk
    |change (inject_Z 1) with 1%Q in Hk];
    apply (Qcabs_case (Qc_of_Z z - q)); intros Ha;
    apply (Qcabs_case (Qc_of_Z k - q)); intros Hb;
    qc_to_q; lra.
Qed.

(** ** Number operations on finite arguments *)

Lemma Math_min_of_Z (a b : Z) : Math_min (of_Z a) (of_Z b) = of_Z (Z.min a b).
Proof.
  unfold Math_min, of_Z, leb. case_bool_decide as H.
  - apply Qc_of_Z_le in H. by rewrite Z.min_l.
  - rewrite <- Qc_of_Z_le in H. rewrite Z.min_r; [done|lia].
Qed.

Lemma Math_max_of_Z (a b : Z) : Math_max (of_Z a) (of_Z b) = of_Z (Z.max a b).
Proof.
  unfold Math_max, of_Z, leb. case_bool_decide as H.
  - apply Qc_of_Z_le in H. by rewrite Z.max_r.
  - rewrite <- Qc_of_Z_le in H. rewrite Z.max_l; [done|lia].
Qed.

Lemma Math_round_of_Z (z : Z) : Math_round (of_Z z) = of_Z z.
Proof. unfold of_Z. simpl. unfold of_Z. by rewrite round_Z_of_Z. Qed.

(** The value the [update] branch stores, as an integer. *)
Lemma update_value_integer (n : jnumber) :
  Math_max (of_Z 0) (Math_min (of_Z 100) (Math_round (num_of_jnumber n)))
  = of_Z (match n with
          | JFinite q => Z.max 0 (Z.min 100 (round_Z q))
          | JInfinite false => 100
          | JInfinite true => 0
          end).
Proof.
  destruct n as [q|[|]]; cbn [num_of_jnumber Math_round].
  - by rewrite Math_min_of_Z, Math_max_of_Z.
  - reflexivity.
  - reflexivity.
Qed.

Lemma Math_clamp_finite (x : Qc) :
  Math_max (of_Z 0) (Math_min (of_Z 100) (Finite x))
  = Finite (clamp x 0 (Qc_of_Z 100)).
Proof.
  unfold Math_max, Math_min, of_Z, leb, clamp. rewrite Qc_of_Z_0.
  assert (0 ≤ Qc_of_Z 100) as H100 by (rewrite <- Qc_of_Z_0; by apply Qc_of_Z_le).
  repeat (case_bool_decide || case_decide); try reflexivity; f_equal;
    repeat match goal with
           | H : ¬ (_ ≤ _) |- _ => apply Qcnot_le_lt in H
           | H : ¬ (_ < _) |- _ => apply Qcnot_lt_le in H
           end;
    try (apply Qcle_antisym; done);
    exfalso; qc_to_q; lra.
Qed.

Lemma clamp_range (x lo hi : Qc) : lo ≤ hi → lo ≤ clamp x lo hi ∧ clamp x lo hi ≤ hi.
Proof.
  intros H. unfold clamp. repeat case_decide;
    repeat match goal with
           | H : ¬ (_ < _) |- _ => apply Qcnot_lt_le in H
           end; split; try done; apply Qcle_refl.
Qed.

(** *** Rounded arithmetic on bounded arguments *)

Lemma u53_pos : 0 < u53.
Proof. decided. Qed.

Lemma tiny_pos : 0 < tiny.
Proof. decided. Qed.

(** The rounding errors met below add up to less than [2^-21]. *)
Lemma rounding_budget :
  Qc_of_Z (2 ^ 31 + 2 ^ 12) * u53 + Qc_of_Z 16 * tiny ≤ Q2Qc (1 # 2 ^ 21).
Proof. decided. Qed.

Lemma rounding_budget_small :
  Qc_of_Z (2 ^ 12) * u53 + Qc_of_Z (2 ^ 9) * tiny ≤ Q2Qc (1 # 2 ^ 40).
Proof. decided. Qed.

Lemma add_finite (a b : Qc) : add (Finite a) (Finite b) = binary64 (a + b).
Proof. reflexivity. Qed.

Lemma sub_finite (a b : Qc) : sub (Finite a) (Finite b) = binary64 (a - b).
Proof. reflexivity. Qed.

Lemma mul_finite (a b : Qc) : mul (Finite a) (Finite b) = binary64 (a * b).
Proof. reflexivity. Qed.

Lemma div_finite (a b : Qc) :
  b ≠ 0 → div (Finite a) (Finite b) = binary64 (a / b).
Proof. intros H. unfold div. by rewrite decide_False. Qed.

(** A rounding step between two integers: the result is finite, lies
    between them and is off by at most [B * 2^-53 + 2^-1075]. *)
Lemma binary64_range (lo hi B : Z) (x : Qc) :
  (- B ≤ lo)%Z → (hi ≤ B)%Z → (B < 2 ^ 53)%Z →
  Qc_of_Z lo ≤ x → x ≤ Qc_of_Z hi →
  ∃ y, binary64 x = Finite y
       ∧ Qc_of_Z lo ≤ y ∧ y ≤ Qc_of_Z hi
       ∧ y - x ≤ Qc_of_Z B * u53 + tiny
       ∧ x - y ≤ Qc_of_Z B * u53 + tiny.
Proof.
  intros Hlo Hhi HB H1 H2.
  assert (lo ≤ hi)%Z as Hlh by (apply Qc_of_Z_le; by eapply Qcle_trans).
  destruct (binary64_between (Qc_of_Z lo) (Qc_of_Z hi) x)
    as (y & Hy & Hy1 & Hy2); [apply binary64_Z; lia|apply binary64_Z; lia|
                               done|done|].
  destruct (binary64_step B x) as (y' & Hy' & _ & _ & E1 & E2); [lia| | |].
  - apply Qcle_trans with (Qc_of_Z lo); [|done].
    apply (proj1 (Qc_of_Z_le _ _)) in Hlo. qc_lra.
  - apply Qcle_trans with (Qc_of_Z hi); [done|].
    apply (proj1 (Qc_of_Z_le _ _)). lia.
  - rewrite Hy in Hy'. injection Hy' as <-. by exists y.
Qed.

(** The left-to-right rounded sum of values between 0 and 100: it stays
    below 100 times the number of terms, and each addition is off by at
    most [2^31 * 2^-53 + 2^-1075]. *)
Lemma foldl_add_sum (qs : list Qc) (a : Qc) (k : Z) :
  Forall (λ q, 0 ≤ q ∧ q ≤ Qc_of_Z 100) qs →
  (0 ≤ k)%Z → (k + Z.of_nat (length qs) ≤ 2 ^ 24)%Z →
  Qc_of_Z 0 ≤ a → a ≤ Qc_of_Z (100 * k) →
  ∃ y, foldl add (Finite a) (Finite <$> qs) = Finite y
       ∧ Qc_of_Z 0 ≤ y
       ∧ y ≤ Qc_of_Z (100 * (k + Z.of_nat (length qs)))
       ∧ y - (a + sumQ qs)
         ≤ Qc_of_Z (Z.of_nat (length qs)) * (Qc_of_Z (2 ^ 31) * u53 + tiny)
       ∧ (a + sumQ qs) - y
         ≤ Qc_of_Z (Z.of_nat (length qs)) * (Qc_of_Z (2 ^ 31) * u53 + tiny).
Proof.
  revert a k. induction qs as [|q qs IH]; intros a k HF Hk Hn Ha0 Ha.
  - exists a. cbn [length fmap list_fmap foldl sumQ foldr Z.of_nat].
    rewrite Z.add_0_r. split_and!; try done; qc_lra.
  - apply Forall_cons in HF as [[Hq0 Hq] HF].
    cbn [length] in Hn. rewrite Nat2Z.inj_succ in Hn.
    cbn [fmap list_fmap foldl]. rewrite add_finite.
    destruct (binary64_range 0 (100 * (k + 1)) (2 ^ 31) (a + q))
      as (y1 & Hy1 & Hlo & Hhi & E1 & E2); [lia|lia|lia| | |].
    { qc_lra. }
    { qc_lra. }
    rewrite Hy1.
    destruct (IH y1 (k + 1)%Z HF ltac:(lia) ltac:(lia) Hlo Hhi)
      as (y & Hy & Hy0 & Hyh & F1 & F2).
    exists y. cbn [length sumQ foldr]. rewrite Nat2Z.inj_succ.
    replace (k + Z.succ (Z.of_nat (length qs)))%Z
      with (k + 1 + Z.of_nat (length qs))%Z by lia.
    fold (sumQ qs). split_and!; try done.
    + qc_lra.
    + qc_lra.
Qed.

Lemma sumQ_of_Z (zs : list Z) :
  sumQ (Qc_of_Z <$> zs) = Qc_of_Z (foldr Z.add 0%Z zs).
Proof.
  induction zs as [|z zs IH]; [symmetry; apply Qc_of_Z_0|].
  cbn [fmap list_fmap sumQ foldr]. fold (sumQ (Qc_of_Z <$> zs)).
  by rewrite IH, Z2Qc_inj_add.
Qed.

(** A sum of integers between 0 and 100 is exact. *)
Lemma foldl_add_integers (zs : list Z) (a : Z) :
  Forall (λ z, 0 ≤ z ≤ 100)%Z zs →
  (0 ≤ a)%Z → (a + 100 * Z.of_nat (length zs) < 2 ^ 53)%Z →
  foldl add (of_Z a) (Finite <$> (Qc_of_Z <$> zs))
  = of_Z (a + foldr Z.add 0%Z zs).
Proof.
  revert a. induction zs as [|z zs IH]; intros a HF Ha Hn.
  - cbn. by rewrite Z.add_0_r.
  - apply Forall_cons in HF as [Hz HF].
    cbn [length] in Hn. rewrite Nat2Z.inj_succ in Hn.
    cbn [fmap list_fmap foldl foldr]. unfold of_Z at 1. rewrite add_finite.
    rewrite <- Z2Qc_inj_add, binary64_Z by lia.
    fold (of_Z (a + z)). rewrite IH by (done || lia). f_equal. lia.
Qed.

(** ** The participant map *)

Lemma get_set_eq {V : Type} (k : string) (v : V) (m : JSMap.t V) :
  JSMap.get k (JSMap.set k v m) = Some v.
Proof.
  unfold JSMap.get. induction m as [|[k' v'] m IH]; simpl.
  - by rewrite decide_True.
  - destruct (decide (k = k')) as [->|Hne]; simpl.
    + by rewrite decide_True.
    + by rewrite decide_False.
Qed.

Lemma get_set_ne {V : Type} (k k0 : string) (v : V) (m : JSMap.t V) :
  k0 ≠ k → JSMap.get k0 (JSMap.set k v m) = JSMap.get k0 m.
Proof.
  intros Hne. unfold JSMap.get. induction m as [|[k' v'] m IH]; simpl.
  - by rewrite decide_False.
  - destruct (decide (k = k')) as [->|Hne']; simpl.
    + by rewrite !decide_False.
    + destruct (decide (k0 = k')); [done|apply IH].
Qed.

Lemma get_delete_eq {V : Type} (k : string) (m : JSMap.t V) :
  JSMap.get k (JSMap.delete k m) = None.
Proof.
  unfold JSMap.get. induction m as [|[k' v'] m IH]; simpl; [done|].
  destruct (decide (k = k')) as [->|Hne]; simpl; [done|].
  by rewrite decide_False.
Qed.

Lemma get_delete_ne {V : Type} (k k0 : string) (m : JSMap.t V) :
  k0 ≠ k → JSMap.get k0 (JSMap.delete k m) = JSMap.get k0 m.
Proof.
  intros Hne. unfold JSMap.get. induction m as [|[k' v'] m IH]; simpl; [done|].
  destruct (decide (k = k')) as [->|Hne']; simpl.
  - by rewrite decide_False.
  - destruct (decide (k0 = k')); [done|apply IH].
Qed.

Lemma elem_of_set {V : Type} (k k0 : string) (v v0 : V) (m : JSMap.t V) :
  (k0, v0) ∈ JSMap.set k v m → (k0, v0) = (k, v) ∨ (k0, v0) ∈ m.
Proof.
  induction m as [|[k' v'] m IH]; simpl.
  - intros H. apply list_elem_of_singleton in H. by left.
  - destruct (decide (k = k')) as [->|Hne]; intros H;
      apply elem_of_cons in H as [H|H].
    + by left.
    + right. by apply list_elem_of_further.
    + right. rewrite H. apply list_elem_of_here.
    + destruct (IH H) as [?|?]; [by left|right; by apply list_elem_of_further].
Qed.

Lemma elem_of_delete {V : Type} (k k0 : string) (v0 : V) (m : JSMap.t V) :
  (k0, v0) ∈ JSMap.delete k m → (k0, v0) ∈ m.
Proof.
  induction m as [|[k' v'] m IH]; simpl; [done|].
  destruct (decide (k = k')) as [->|Hne]; intros H.
  - by apply list_elem_of_further, IH.
  - apply elem_of_cons in H as [H|H];
      [rewrite H; apply list_elem_of_here|by apply list_elem_of_further, IH].
Qed.

Lemma get_Some_elem {V : Type} (k : string) (v : V) (m : JSMap.t V) :
  JSMap.get k m = Some v → (k, v) ∈ m.
Proof.
  unfold JSMap.get. induction m as [|[k' v'] m IH]; simpl; [done|].
  destruct (decide (k = k')) as [->|Hne].
  - intros [= ->]. apply list_elem_of_here.
  - intros H. apply list_elem_of_further, IH, H.
Qed.

(** ** Room statistics *)

Lemma length_live_split (m : JSMap.t User) :
  length m
  = (length (base.filter (λ e : string * User, ws e.2 ≠ None) m)
     + length (base.filter (λ e : string * User, ws e.2 = None) m))%nat.
Proof.
  induction m as [|e m IH]; [done|].
  rewrite !filter_cons. destruct (decide (ws e.2 = None)) as [E|E].
  - rewrite decide_False by (intros H; by apply H). simpl. lia.
  - rewrite decide_True by done. simpl. lia.
Qed.

Lemma rounds_to_range (q : Qc) (z : Z) :
  0 ≤ q → q ≤ Qc_of_Z 100 → rounds_to q z → (0 ≤ z ≤ 100)%Z.
Proof.
  intros H0 H100 [H1 H2]. qc_to_q.
  assert (inject_Z z < 101 # 1)%Q as A by (inj_consts; lra).
  assert (-1 # 1 < inject_Z z)%Q as B by (inj_consts; lra).
  change (101 # 1) with (inject_Z 101) in A.
  change (-1 # 1) with (inject_Z (-1)) in B.
  rewrite <- Zlt_Qlt in A, B. lia.
Qed.

Lemma sumQ_bounds (qs : list Qc) :
  Forall (λ q, 0 ≤ q ∧ q ≤ Qc_of_Z 100) qs →
  0 ≤ sumQ qs ∧ sumQ qs ≤ Qc_of_Z 100 * Qc_of_Z (Z.of_nat (length qs)).
Proof.
  induction 1 as [|q qs [H0 H100] _ [IH0 IH100]]; cbn [sumQ foldr length].
  - split; [apply Qcle_refl|]. qc_to_q.
    change (Z.of_nat 0) with 0%Z. inj_consts. lra.
  - fold (sumQ qs). rewrite Nat2Z.inj_succ. unfold Z.succ. split.
    + qc_to_q. lra.
    + qc_to_q. rewrite inject_Z_plus. inj_consts. lra.
Qed.

Lemma mean_range (qs : list Qc) :
  qs ≠ [] →
  Forall (λ q, 0 ≤ q ∧ q ≤ Qc_of_Z 100) qs →
  0 ≤ mean qs ∧ mean qs ≤ Qc_of_Z 100.
Proof.
  intros Hne HF. destruct (sumQ_bounds qs HF) as [H0 H100].
  assert (0 < Qc_of_Z (Z.of_nat (length qs))) as Hn.
  { rewrite <- Qc_of_Z_0. apply (proj1 (Qc_of_Z_lt _ _)).
    destruct qs; [done|cbn; lia]. }
  unfold mean. set (n := Qc_of_Z (Z.of_nat (length qs))) in *.
  set (t := sumQ qs) in *. clearbody n t.
  assert (n ≠ 0) as Hn0 by (intros ->; by apply Qclt_not_eq in Hn).
  assert (t = (t / n) * n) as Ht by (field; done).
  set (m := t / n) in *. clearbody m. subst t.
  split.
  - apply Qcnot_lt_le. intros Hm.
    assert (m * n < 0) as Hneg; [|by apply Qcle_not_lt in H0].
    qc_to_q. nra.
  - apply Qcnot_lt_le. intros Hm.
    assert (Qc_of_Z 100 * n < m * n) as Hbig; [|by apply Qcle_not_lt in H100].
    qc_to_q. inj_consts. nra.
Qed.

(** The quotient of the rounded sum by the number of terms, for at most
    [2^24] values between 0 and 100: it is within [2^-21] of the mean and,
    when the values are integers, rounds to the same integer as the mean. *)
Lemma average_rounded (qs : list Qc) :
  qs ≠ [] →
  Forall (λ q, 0 ≤ q ∧ q ≤ Qc_of_Z 100) qs →
  (Z.of_nat (length qs) ≤ 2 ^ 24)%Z →
  ∃ w : Qc,
    div (foldl add (of_Z 0) (Finite <$> qs)) (of_nat (length qs)) = Finite w
    ∧ 0 ≤ w ∧ w ≤ Qc_of_Z 100
    ∧ w - mean qs ≤ Q2Qc (1 # 2 ^ 21)
    ∧ mean qs - w ≤ Q2Qc (1 # 2 ^ 21)
    ∧ (∀ zs, qs = Qc_of_Z <$> zs → round_Z w = round_Z (mean qs)).
Proof.
  intros Hne HF Hlen.
  assert (1 ≤ Z.of_nat (length qs))%Z as Hn1 by (destruct qs; [done|cbn; lia]).
  destruct (foldl_add_sum qs (Qc_of_Z 0) 0 HF ltac:(lia) ltac:(lia))
    as (y & Hy & Hy0 & Hyh & E1 & E2);
    [apply Qcle_refl|apply Qcle_refl|].
  rewrite Z.add_0_l in Hyh. fold (of_Z 0) in Hy. rewrite Hy.
  set (n := Z.of_nat (length qs)) in *.
  assert (Qc_of_Z n ≠ 0) as Hn0.
  { rewrite <- Qc_of_Z_0. intros H. apply Qc_of_Z_inj in H. lia. }
  unfold of_nat, of_Z. fold n. rewrite div_finite by done.
  assert (y = (y / Qc_of_Z n) * Qc_of_Z n) as Ey by (field; done).
  assert (sumQ qs = mean qs * Qc_of_Z n) as Es.
  { unfold mean. fold n. field. done. }
  destruct (mean_range qs Hne HF) as [Hm0 Hm100].
  set (p := y / Qc_of_Z n) in *. set (m := mean qs) in *.
  assert (Qc_of_Z 1 ≤ Qc_of_Z n) as Hnq by (by apply (proj1 (Qc_of_Z_le _ _))).
  assert (Qc_of_Z n ≤ Qc_of_Z (2 ^ 24)) as Hnq'
    by (by apply (proj1 (Qc_of_Z_le _ _))).
  pose proof u53_pos as Hu. pose proof tiny_pos as Ht.
  assert (Qc_of_Z 0 ≤ p ∧ p ≤ Qc_of_Z 100) as [Hp0 Hp100].
  { clearbody p m n. rewrite Ey in Hy0, Hyh. clear Ey Es E1 E2 Hy.
    split; apply Qcnot_lt_le; intros Hc.
    - assert (p * Qc_of_Z n < Qc_of_Z 0) as A; [|by apply Qcle_not_lt in Hy0].
      qc_to_q. inj_consts. nra.
    - assert (Qc_of_Z (100 * n) < p * Qc_of_Z n) as A;
        [|by apply Qcle_not_lt in Hyh].
      qc_to_q. rewrite inject_Z_mult. inj_consts. nra. }
  destruct (binary64_range 0 100 (2 ^ 7) p)
    as (w & Hw & Hw0 & Hw100 & F1 & F2); [lia|lia|lia|done|done|].
  assert (p - m ≤ Qc_of_Z (2 ^ 31) * u53 + tiny
          ∧ m - p ≤ Qc_of_Z (2 ^ 31) * u53 + tiny) as [G1 G2].
  { rewrite Es, Ey in E1, E2. clearbody p m n.
    clear Ey Es Hy Hw F1 F2 Hy0 Hyh.
    set (d := Qc_of_Z (2 ^ 31) * u53 + tiny) in *.
    assert (0 ≤ d) as Hd by (unfold d; qc_lra). clearbody d.
    split; apply Qcnot_lt_le; intros Hc.
    - assert (Qc_of_Z n * d < p * Qc_of_Z n - (Qc_of_Z 0 + m * Qc_of_Z n)) as A;
        [|by apply Qcle_not_lt in E1].
      qc_to_q. inj_consts. nra.
    - assert (Qc_of_Z n * d < Qc_of_Z 0 + m * Qc_of_Z n - p * Qc_of_Z n) as A;
        [|by apply Qcle_not_lt in E2].
      qc_to_q. inj_consts. nra. }
  pose proof rounding_budget as HB.
  exists w. split_and!; [done| | | | |].
  - rewrite <- Qc_of_Z_0. done.
  - done.
  - clear Ey Es. clearbody p m. qc_lra.
  - clear Ey Es. clearbody p m. qc_lra.
  - intros zs ->.
    assert (Forall (λ z, 0 ≤ z ≤ 100)%Z zs) as HZ.
    { apply Forall_fmap in HF. eapply Forall_impl; [exact HF|].
      intros z [Hz0 Hz100]. cbn in Hz0, Hz100. rewrite <- Qc_of_Z_0 in Hz0.
      apply Qc_of_Z_le in Hz0, Hz100. lia. }
    assert (n = Z.of_nat (length zs)) as En
      by (unfold n; by rewrite length_fmap).
    pose proof (foldl_add_integers zs 0 HZ ltac:(lia) ltac:(lia)) as Hint.
    rewrite Hy in Hint. injection Hint as Hint. rewrite Z.add_0_l in Hint.
    set (S := foldr Z.add 0%Z zs) in *.
    set (k := round_Z m).
    destruct (round_Z_rounds m) as [K1 K2]. fold k in K1, K2.
    destruct (rounds_to_range m k Hm0 Hm100 (round_Z_rounds m)) as [Hk0 Hk100].
    fold k in Hk0, Hk100. clearbody k.
    apply (rounds_to_unique w); [apply round_Z_rounds|]. split.
    + (* the half-integer below is a binary64 value *)
      pose proof (binary64_half (2 * k - 1) ltac:(lia)) as Hhalf.
      assert (Qc_of_Z (2 * k - 1) * Q2Qc (1 # 2) ≤ p) as Hle.
      { rewrite sumQ_of_Z in Es. fold S in Es. rewrite Hint in Ey.
        assert (Qc_of_Z S = p * Qc_of_Z n) as Ey' by exact Ey.
        clear Ey. rewrite Es in Ey'.
        apply Qcnot_lt_le. intros Hc.
        assert (p * Qc_of_Z n < m * Qc_of_Z n) as A.
        { clearbody p m n. clear - Hc K1 Hnq.
          qc_to_q. inj_ops. inj_consts. nra. }
        rewrite Ey' in A. by apply Qclt_not_eq in A. }
      pose proof (binary64_mono _ _ Hle) as M. rewrite Hhalf, Hw in M.
      cbn [leb] in M. apply bool_decide_eq_true in M.
      clear - M. qc_lra.
    + (* the gap to the half-integer above exceeds the rounding error *)
      rewrite sumQ_of_Z in Es. fold S in Es. rewrite Hint in Ey.
      assert (2 * S + 1 ≤ (2 * k + 1) * n)%Z as Hgap.
      { assert (2 * S < (2 * k + 1) * n)%Z as Hlt; [|lia].
        apply Qc_of_Z_lt. rewrite !Z2Qc_inj_mul, Z2Qc_inj_add, Z2Qc_inj_mul.
        rewrite Es. clearbody m n. clear - K2 Hnq.
        qc_to_q. inj_consts. nra. }
      apply (proj1 (Qc_of_Z_le _ _)) in Hgap.
      rewrite Z2Qc_inj_mul, !Z2Qc_inj_add, !Z2Qc_inj_mul, Ey in Hgap.
      assert (Qc_of_Z (2 ^ 7) * u53 + tiny < Q2Qc (1 # 2 ^ 26)) as Hsmall
        by decided.
      clearbody p m n. clear - Hgap Hsmall F1 Hnq Hnq' Hu Ht.
      apply Qcnot_le_lt. intros Hc.
      assert (Qc_of_Z 2 * (p * Qc_of_Z n) + Qc_of_Z 1
              > (Qc_of_Z 2 * Qc_of_Z k + Qc_of_Z 1) * Qc_of_Z n) as A;
        [|by apply Qclt_not_le in A].
      revert Hsmall. qc_to_q. inj_consts. intros Hsmall.
      set (e := (128 * u53 + tiny)%Q) in *. clearbody e. nra.
Qed.

(** C1, as amended: for a room with a non-empty participant table,
    [getRoomStats] returns [count] equal to the number of entries (those
    backed by a connection plus the others) and, position by position,
    one [individuals] entry per participant carrying its identifier and
    its stored value rounded.  [average] is [Math.round] of the binary64
    quotient of the binary64 sum, taken left to right, by the count: for
    stored values between 0 and 100 in a table of at most [2^24] entries
    it is an integer within [1/2 + 2^-21] of the arithmetic mean, and when
    all stored values are integers it is the mean rounded to the nearest
    integer. *)
Theorem getRoomStats_nonempty (s : Server) (roomId : string) (room : Room)
    (qs : list Qc) :
  getRoom s roomId = Some room →
  users room ≠ [] →
  boredom <$> JSMap.values (users room) = Finite <$> qs →
  Forall (λ q, 0 ≤ q ∧ q ≤ Qc_of_Z 100) qs →
  (Z.of_nat (length qs) ≤ 2 ^ 24)%Z →
  ∃ (st : Stats) (z : Z),
    getRoomStats s roomId = Some st
    ∧ count st = length (users room)
    ∧ count st
      = (liveCount room
         + length (base.filter (λ e : string * User, ws e.2 = None)
                     (users room)))%nat
    ∧ average st = of_Z z
    ∧ average st
      = Math_round (div (foldl add (of_Z 0) (Finite <$> qs))
                      (of_nat (length qs)))
    ∧ Qc_of_Z z - mean qs ≤ Q2Qc (1 # 2) + Q2Qc (1 # 2 ^ 21)
    ∧ mean qs - Qc_of_Z z ≤ Q2Qc (1 # 2) + Q2Qc (1 # 2 ^ 21)
    ∧ (∀ zs : list Z, qs = Qc_of_Z <$> zs → rounds_to (mean qs) z)
    ∧ length (individuals st) = length (users room)
    ∧ ∀ (i : nat) (id : string) (u : User),
        users room !! i = Some (id, u) →
        ∃ ind, individuals st !! i = Some ind
               ∧ ind_id ind = id
               ∧ ind_boredom ind = Math_round (boredom u)
               ∧ ∀ q, boredom u = Finite q →
                      ∃ zi, ind_boredom ind = of_Z zi ∧ rounds_to q zi.
Proof.
  intros Hroom Hne Hvals HF Hbound.
  assert (length qs = length (users room)) as Hlen.
  { apply (f_equal length) in Hvals. unfold JSMap.values in Hvals.
    by rewrite !length_fmap in Hvals. }
  assert (qs ≠ []) as Hqs.
  { intros ->. destruct (users room); [done|discriminate Hlen]. }
  destruct (average_rounded qs Hqs HF Hbound)
    as (w & Hw & Hw0 & Hw100 & A1 & A2 & Hint).
  unfold getRoomStats. rewrite Hroom.
  eexists _, (round_Z w). split; [reflexivity|].
  cbn [count average individuals]. unfold JSMap.entries.
  change (map (λ e : string * User, boredom e.2) (users room))
    with ((boredom ∘ snd) <$> users room).
  unfold JSMap.values in Hvals. rewrite <- list_fmap_compose in Hvals.
  rewrite Hvals. change (map ?f ?l) with (f <$> l). rewrite !length_fmap.
  rewrite bool_decide_eq_true_2 by (destruct qs; [done|simpl; lia]).
  destruct (round_Z_rounds w) as [R1 R2].
  split_and!.
  - done.
  - rewrite Hlen. apply length_live_split.
  - rewrite Hw. reflexivity.
  - reflexivity.
  - clear - R1 R2 A1 A2. qc_lra.
  - clear - R1 R2 A1 A2. qc_lra.
  - intros zs Hzs. rewrite (Hint zs Hzs). apply round_Z_rounds.
  - reflexivity.
  - intros i id u Hi. eexists. split.
    + rewrite list_lookup_fmap, Hi. reflexivity.
    + cbn. split_and!; [done..|].
      intros q ->. exists (round_Z q). split; [done|apply round_Z_rounds].
Qed.

(** C2: for a room with an empty participant table, [getRoomStats]
    returns a result (not [null]) with [count] 0, [average] 50 and no
    [individuals]. *)
Theorem getRoomStats_empty (s : Server) (roomId : string) (room : Room) :
  getRoom s roomId = Some room →
  users room = [] →
  ∃ st : Stats,
    getRoomStats s roomId = Some st
    ∧ count st = 0%nat
    ∧ average st = of_Z 50
    ∧ individuals st = [].
Proof.
  intros Hroom Hempty. unfold getRoomStats. rewrite Hroom, Hempty.
  eexists. split; [reflexivity|]. by cbn.
Qed.

(** ** The [message] handler *)

Lemma applySetName_not_setName (c : Conn) (message : json) (s : Server) (ty : string) :
  getProp "type" message = Some (Some (JString ty)) →
  ty ≠ "setName"%string →
  applySetName c message s = s.
Proof.
  intros Hty Hne. unfold applySetName. rewrite Hty.
  destruct (getProp "name" message) as [[nm|]|]; try done.
  by rewrite bool_decide_eq_false_2.
Qed.

Lemma onMessage_update (JSON_parse : string → option json) (c : Conn)
    (data : string) (message : json) (n : jnumber) (s : Server)
    (room : Room) (user : User) :
  JSON_parse data = Some message →
  getProp "type" message = Some (Some (JString "update")) →
  getProp "boredom" message = Some (Some (JNumber n)) →
  heap s !! conn_room c = Some room →
  JSMap.get (conn_userId c) (users room) = Some user →
  onMessage JSON_parse c data s
  = storeRoom (conn_room c)
      (setUsers
         (JSMap.set (conn_userId c)
            (setBoredom
               (Math_max (of_Z 0)
                  (Math_min (of_Z 100) (Math_round (num_of_jnumber n))))
               user)
            (users room)) room) s.
Proof.
  intros Hparse Hty Hb Hroom Huser. unfold onMessage. rewrite Hparse.
  rewrite (applySetName_not_setName _ _ _ "update") by done.
  unfold applyUpdate. rewrite Hty, Hb, Hroom, Huser. by rewrite decide_True.
Qed.

(** C3: when the [message] handler receives an [update] message whose
    [boredom] is a number, from a connection whose participant is still
    in its room's table, the value stored for that participant afterwards
    is an integer between 0 and 100: the rounded input when that lies in
    the range, the nearer bound otherwise. *)
Theorem update_stores_integer_in_range (JSON_parse : string → option json)
    (c : Conn) (data : string) (message : json) (n : jnumber) (s : Server)
    (room : Room) (user : User) :
  JSON_parse data = Some message →
  getProp "type" message = Some (Some (JString "update")) →
  getProp "boredom" message = Some (Some (JNumber n)) →
  heap s !! conn_room c = Some room →
  JSMap.get (conn_userId c) (users room) = Some user →
  ∃ (room' : Room) (user' : User) (z : Z),
    heap (onMessage JSON_parse c data s) !! conn_room c = Some room'
    ∧ JSMap.get (conn_userId c) (users room') = Some user'
    ∧ boredom user' = of_Z z
    ∧ (0 ≤ z ≤ 100)%Z
    ∧ z = match n with
          | JFinite q => Z.max 0 (Z.min 100 (round_Z q))
          | JInfinite false => 100%Z
          | JInfinite true => 0%Z
          end.
Proof.
  intros Hparse Hty Hb Hroom Huser.
  rewrite (onMessage_update _ _ _ _ _ _ _ _ Hparse Hty Hb Hroom Huser).
  eexists _, _,
    (match n with
     | JFinite q => Z.max 0 (Z.min 100 (round_Z q))
     | JInfinite false => 100%Z
     | JInfinite true => 0%Z
     end).
  split_and!.
  - unfold storeRoom. cbn [heap]. apply lookup_insert_eq.
  - cbn [users setUsers]. apply get_set_eq.
  - cbn [boredom setBoredom]. apply update_value_integer.
  - destruct n as [q|[|]]; lia.
  - destruct n as [q|[|]]; lia.
  - reflexivity.
Qed.

(** ** Room codes *)

Lemma isUpperAlnum_alphabet (c : ascii) :
  isUpperAlnum c = true
  ↔ c ∈ list_ascii_of_string "ABCDEFGHIJKLMNOPQRSTUVWXYZ0123456789".
Proof.
  rewrite <- (bool_decide_spec (c ∈ _)).
  destruct c as [[] [] [] [] [] [] [] []]; vm_compute; by split.
Qed.

Lemma allUpperAlnum_Forall (str : string) :
  allUpperAlnum str = true
  ↔ Forall (λ c, isUpperAlnum c = true) (list_ascii_of_string str).
Proof.
  induction str as [|c str IH]; simpl.
  - split; [constructor|done].
  - rewrite andb_true_iff, Forall_cons, IH. reflexivity.
Qed.

Lemma looksLikeCode_wellFormed (roomId : string) :
  looksLikeCode roomId = true ↔ wellFormedCode roomId.
Proof.
  unfold looksLikeCode, wellFormedCode.
  rewrite andb_true_iff, bool_decide_eq_true.
  assert (Forall (λ c, isUpperAlnum c = true) (list_ascii_of_string roomId)
          ↔ Forall (λ c, c ∈ list_ascii_of_string
                             "ABCDEFGHIJKLMNOPQRSTUVWXYZ0123456789")
                   (list_ascii_of_string roomId)) as HF.
  { split; intros H; (eapply Forall_impl; [exact H|]); intros c;
      apply isUpperAlnum_alphabet. }
  rewrite <- HF, <- allUpperAlnum_Forall.
  destruct roomId; simpl; [split; intros [? ?]; done|reflexivity].
Qed.

Lemma looksLikeCode_not_wellFormed (roomId : string) :
  looksLikeCode roomId = false ↔ ¬ wellFormedCode roomId.
Proof.
  rewrite <- looksLikeCode_wellFormed. destruct (looksLikeCode roomId); naive_solver.
Qed.

Lemma hexDigit_upper (n : N) : isUpperAlnum (upperChar (hexDigit n)) = true.
Proof.
  destruct n as [|p]; [reflexivity|].
  do 5 (try destruct p as [p|p|]); reflexivity.
Qed.

Lemma generateRoomCode_looksLikeCode (rnd : Byte.byte * Byte.byte * Byte.byte) :
  looksLikeCode (generateRoomCode rnd) = true.
Proof.
  destruct rnd as [[b0 b1] b2].
  unfold looksLikeCode, generateRoomCode. cbn [toHex toUpperCase].
  rewrite bool_decide_eq_true_2 by reflexivity.
  cbn [andb testUpperAlnum allUpperAlnum]. by rewrite !hexDigit_upper.
Qed.

Lemma global_not_code : looksLikeCode GLOBAL_ROOM_ID = false.
Proof. reflexivity. Qed.

Lemma empty_not_code : looksLikeCode EmptyString = false.
Proof. reflexivity. Qed.

(** ** The registry and the heap *)

Lemma newLoc_fresh (h : gmap loc Room) : h !! newLoc h = None.
Proof. apply not_elem_of_dom. unfold newLoc. apply is_fresh. Qed.

Lemma getRoom_setNewRoom_eq (roomId : string) (r : Room) (s : Server) :
  getRoom (setNewRoom roomId r s) roomId = Some r.
Proof.
  unfold getRoom, setNewRoom. cbn [rooms heap].
  rewrite lookup_insert_eq. simpl. apply lookup_insert_eq.
Qed.

Lemma heap_setNewRoom_old (roomId : string) (r : Room) (s : Server) (l : loc) :
  is_Some (heap s !! l) → heap (setNewRoom roomId r s) !! l = heap s !! l.
Proof.
  intros [r0 Hl]. unfold setNewRoom. cbn [heap].
  apply lookup_insert_ne. intros <-. by rewrite newLoc_fresh in Hl.
Qed.

Lemma getRoom_setNewRoom_ne (roomId roomId' : string) (r : Room) (s : Server) :
  (∀ l, rooms s !! roomId' = Some l → is_Some (heap s !! l)) →
  roomId' ≠ roomId →
  rooms (setNewRoom roomId r s) !! roomId' = rooms s !! roomId'
  ∧ getRoom (setNewRoom roomId r s) roomId' = getRoom s roomId'.
Proof.
  intros Halloc Hne.
  assert (rooms (setNewRoom roomId r s) !! roomId' = rooms s !! roomId') as E.
  { unfold setNewRoom. cbn [rooms]. by apply lookup_insert_ne. }
  split; [done|]. unfold getRoom. rewrite E.
  destruct (rooms s !! roomId') as [l|] eqn:El; [|done].
  cbn [mbind option_bind]. apply heap_setNewRoom_old, Halloc. done.
Qed.

Lemma getRoom_Some (s : Server) (roomId : string) (room : Room) :
  getRoom s roomId = Some room ↔
  ∃ l, rooms s !! roomId = Some l ∧ heap s !! l = Some room.
Proof.
  unfold getRoom. destruct (rooms s !! roomId) as [l|]; simpl.
  - split; [intros H; by exists l|intros (l' & [= <-] & H); done].
  - split; [done|intros (l' & H & _); done].
Qed.

(** ** The state invariant *)

Lemma valuesInRange_empty (created : Z) (nm : json) (g : bool) :
  valuesInRange (mkRoom JSMap.empty created nm g).
Proof. intros id u H. by apply elem_of_nil in H. Qed.

Lemma of_Z_in_range (z : Z) :
  (0 ≤ z ≤ 100)%Z → 0 ≤ Qc_of_Z z ∧ Qc_of_Z z ≤ Qc_of_Z 100.
Proof.
  intros [H0 H100]. rewrite <- Qc_of_Z_0.
  split; by apply (proj1 (Qc_of_Z_le _ _)).
Qed.

Lemma valuesInRange_set (room : Room) (k : string) (u : User) :
  valuesInRange room →
  (∃ q, boredom u = Finite q ∧ 0 ≤ q ∧ q ≤ Qc_of_Z 100) →
  valuesInRange (setUsers (JSMap.set k u (users room)) room).
Proof.
  intros Hr Hu id u' H. cbn [users setUsers] in H.
  apply elem_of_set in H as [[= -> ->]|H]; [done|by eapply Hr].
Qed.

Lemma valuesInRange_delete (room : Room) (k : string) :
  valuesInRange room →
  valuesInRange (setUsers (JSMap.delete k (users room)) room).
Proof.
  intros Hr id u' H. cbn [users setUsers] in H.
  apply elem_of_delete in H. by eapply Hr.
Qed.

Lemma wf_valuesInRange (s : Server) (l : loc) (room : Room) :
  wf s → heap s !! l = Some room → valuesInRange room.
Proof. intros Hwf Hl. by apply (wf_values s Hwf l). Qed.

(** In a state that satisfies the invariant the stored values of a room
    are rationals between 0 and 100. *)
Lemma valuesInRange_finite (room : Room) :
  valuesInRange room →
  ∃ qs : list Qc,
    boredom <$> JSMap.values (users room) = Finite <$> qs
    ∧ Forall (λ q, 0 ≤ q ∧ q ≤ Qc_of_Z 100) qs.
Proof.
  unfold valuesInRange, JSMap.values.
  induction (users room) as [|[id u] m IH]; intros H.
  - by exists [].
  - destruct (H id u) as (q & Hq & Hrange); [apply list_elem_of_here|].
    destruct IH as (qs & Hqs & HF).
    { intros id' u' Hin. apply (H id'). by apply list_elem_of_further. }
    exists (q :: qs). split; [|by constructor].
    rewrite !fmap_cons. cbn [snd]. by rewrite Hq, Hqs.
Qed.

Lemma wf_setNewRoom (roomId : string) (r : Room) (s : Server) :
  (roomId = GLOBAL_ROOM_ID ∨ looksLikeCode roomId = true) →
  valuesInRange r →
  (wf s ∨ (roomId = GLOBAL_ROOM_ID ∧ heap s = ∅ ∧ rooms s = ∅)) →
  wf (setNewRoom roomId r s).
Proof.
  intros Hid Hr Hs. split.
  - destruct (decide (roomId = GLOBAL_ROOM_ID)) as [->|Hne].
    + rewrite getRoom_setNewRoom_eq. by eexists.
    + destruct Hs as [Hwf|[? _]]; [|done].
      destruct (getRoom_setNewRoom_ne roomId GLOBAL_ROOM_ID r s) as [_ ->];
        [apply (wf_alloc s Hwf)|done|apply (wf_global s Hwf)].
  - intros id l. unfold setNewRoom. cbn [rooms heap].
    destruct (decide (id = roomId)) as [->|Hne].
    + rewrite lookup_insert_eq. intros [= <-]. rewrite lookup_insert_eq. by eexists.
    + rewrite lookup_insert_ne by done. intros Hl.
      destruct Hs as [Hwf|(_ & _ & E)]; [|by rewrite E in Hl].
      destruct (wf_alloc s Hwf id l Hl) as [r0 Hr0].
      exists r0. rewrite lookup_insert_ne; [done|].
      intros <-. by rewrite newLoc_fresh in Hr0.
  - intros id. unfold setNewRoom. cbn [rooms].
    destruct (decide (id = roomId)) as [->|Hne]; [done|].
    rewrite lookup_insert_ne by done. intros Hl.
    destruct Hs as [Hwf|(_ & _ & E)]; [by apply (wf_codes s Hwf)|].
    rewrite E in Hl. by destruct Hl.
  - intros l room. unfold setNewRoom. cbn [heap].
    destruct (decide (l = newLoc (heap s))) as [->|Hne].
    + rewrite lookup_insert_eq. by intros [= <-].
    + rewrite lookup_insert_ne by done. intros Hl.
      destruct Hs as [Hwf|(_ & E & _)]; [by apply (wf_values s Hwf l)|].
      by rewrite E in Hl.
Qed.

Lemma wf_storeRoom (l : loc) (r : Room) (s : Server) :
  wf s → valuesInRange r → wf (storeRoom l r s).
Proof.
  intros Hwf Hr. split.
  - destruct (wf_global s Hwf) as [g Hg]. apply getRoom_Some in Hg as (lg & Hlg & Hg).
    unfold getRoom, storeRoom. cbn [rooms heap]. rewrite Hlg. simpl.
    destruct (decide (lg = l)) as [->|Hne].
    + rewrite lookup_insert_eq. by eexists.
    + rewrite lookup_insert_ne by done. by eexists.
  - intros id l0 Hl0. unfold storeRoom in *. cbn [rooms heap] in *.
    destruct (decide (l0 = l)) as [->|Hne].
    + rewrite lookup_insert_eq. by eexists.
    + rewrite lookup_insert_ne by done. by apply (wf_alloc s Hwf id).
  - apply (wf_codes s Hwf).
  - intros l0 room. unfold storeRoom. cbn [heap].
    destruct (decide (l0 = l)) as [->|Hne].
    + rewrite lookup_insert_eq. by intros [= <-].
    + rewrite lookup_insert_ne by done. apply (wf_values s Hwf).
Qed.

Lemma wf_initial (start : Z) : wf (initial start).
Proof.
  unfold initial. apply wf_setNewRoom; [by left| |right; done].
  intros id u H.
  change (users (globalRoom start))
    with [("bot-restless"%string,
           mkUser (of_Z 65) None true (JString "Restless Rita"));
          ("bot-chill"%string,
           mkUser (of_Z 25) None true (JString "Chill Charlie"));
          ("bot-moody"%string,
           mkUser (of_Z 50) None true (JString "Moody Morgan"));
          ("bot-sleepy"%string,
           mkUser (of_Z 80) None true (JString "Sleepy Sam"))] in H.
  repeat (apply elem_of_cons in H as [[= _ ->]|H];
          [eexists; split; [reflexivity|by apply of_Z_in_range]|]).
  by apply elem_of_nil in H.
Qed.

(** ** Room resolution on connection *)

Lemma wf_not_empty_id (s : Server) : wf s → rooms s !! EmptyString = None.
Proof.
  intros Hwf. destruct (rooms s !! EmptyString) eqn:E; [|done].
  destruct (wf_codes s Hwf EmptyString) as [H|H]; [by eexists|done..].
Qed.

Lemma wf_global_registered (s : Server) :
  wf s → is_Some (rooms s !! GLOBAL_ROOM_ID).
Proof.
  intros Hwf. destruct (wf_global s Hwf) as [g Hg].
  apply getRoom_Some in Hg as (l & Hl & _). by eexists.
Qed.

(** C4: resolution of the room a connection asks for.  A registered
    identifier resolves to itself and changes nothing; an unregistered
    room code is registered with a new empty room named after it, every
    other identifier keeping its room; any other unregistered identifier,
    and a missing one, resolve to the global room and change nothing.  In
    every case the resolved identifier is registered afterwards. *)
Theorem resolveRoom_cases (roomParam : option string) (now : Z) (s : Server) :
  wf s →
  (∀ id, roomParam = Some id → is_Some (rooms s !! id) →
         resolveRoom roomParam now s = (s, id))
  ∧ (∀ id, roomParam = Some id → rooms s !! id = None → wellFormedCode id →
       let room := mkRoom JSMap.empty now (JString ("Room " +:+ id)) false in
       resolveRoom roomParam now s = (setNewRoom id room s, id)
       ∧ getRoom (setNewRoom id room s) id = Some room
       ∧ ∀ id', id' ≠ id →
           rooms (setNewRoom id room s) !! id' = rooms s !! id'
           ∧ getRoom (setNewRoom id room s) id' = getRoom s id')
  ∧ (∀ id, roomParam = Some id → rooms s !! id = None → ¬ wellFormedCode id →
       resolveRoom roomParam now s = (s, GLOBAL_ROOM_ID))
  ∧ (roomParam = None → resolveRoom roomParam now s = (s, GLOBAL_ROOM_ID))
  ∧ is_Some (getRoom (resolveRoom roomParam now s).1
               (resolveRoom roomParam now s).2).
Proof.
  intros Hwf.
  pose proof (wf_not_empty_id s Hwf) as Hempty.
  pose proof (wf_global_registered s Hwf) as Hglobal.
  split_and!.
  - intros id -> Hid. unfold resolveRoom.
    rewrite decide_False by (intros ->; rewrite Hempty in Hid; by destruct Hid).
    by rewrite bool_decide_eq_true_2.
  - intros id -> Hid Hcode room.
    apply looksLikeCode_wellFormed in Hcode as Hlooks.
    split_and!.
    + unfold resolveRoom.
      rewrite decide_False by (intros ->; by rewrite empty_not_code in Hlooks).
      rewrite bool_decide_eq_false_2 by (rewrite Hid; by intros [? ?]).
      by rewrite Hlooks.
    + apply getRoom_setNewRoom_eq.
    + intros id' Hne. apply getRoom_setNewRoom_ne; [|done].
      intros l. apply (wf_alloc s Hwf).
  - intros id -> Hid Hcode. apply looksLikeCode_not_wellFormed in Hcode.
    unfold resolveRoom. destruct (decide (id = EmptyString)) as [->|Hne].
    + by rewrite bool_decide_eq_true_2.
    + rewrite bool_decide_eq_false_2 by (rewrite Hid; by intros [? ?]).
      by rewrite Hcode.
  - intros ->. unfold resolveRoom. by rewrite bool_decide_eq_true_2.
  - unfold resolveRoom.
    set (roomId := match roomParam with
                   | Some r => if decide (r = EmptyString)
                               then GLOBAL_ROOM_ID else r
                   | None => GLOBAL_ROOM_ID
                   end).
    case_bool_decide as Hreg.
    + destruct Hreg as [l Hl]. destruct (wf_alloc s Hwf _ _ Hl) as [r Hr].
      exists r. apply getRoom_Some. by exists l.
    + destruct (looksLikeCode roomId); cbn [fst snd].
      * rewrite getRoom_setNewRoom_eq. by eexists.
      * apply (wf_global s Hwf).
Qed.

Lemma wf_resolveRoom (roomParam : option string) (now : Z) (s : Server) :
  wf s → wf (resolveRoom roomParam now s).1.
Proof.
  intros Hwf. unfold resolveRoom.
  case_bool_decide; [done|].
  destruct (looksLikeCode _) eqn:E; cbn [fst]; [|done].
  apply wf_setNewRoom; [by right|apply valuesInRange_empty|by left].
Qed.

(** ** Expiry sweep *)

Lemma sweepEntry_evicts (now : Z) (h : gmap loc Room) (reg : gmap string loc)
    (roomId : string) (l : loc) :
  sweepEntry now h reg (roomId, l)
  = if evicts now h roomId l then delete roomId reg else reg.
Proof.
  unfold sweepEntry, evicts. case_decide; [done|].
  destruct (h !! l); [|done]. reflexivity.
Qed.

Lemma sweep_stays_absent (now : Z) (h : gmap loc Room)
    (es : list (string * loc)) (reg : gmap string loc) (k : string) :
  reg !! k = None → foldl (sweepEntry now h) reg es !! k = None.
Proof.
  revert reg. induction es as [|[k' l'] es IH]; intros reg Hk; [done|].
  cbn [foldl]. apply IH. rewrite sweepEntry_evicts.
  destruct (evicts now h k' l'); [|done].
  rewrite lookup_delete. case_decide; done.
Qed.

Lemma sweep_deletes (now : Z) (h : gmap loc Room)
    (es : list (string * loc)) (reg : gmap string loc) (k : string) (l : loc) :
  (k, l) ∈ es → evicts now h k l = true →
  foldl (sweepEntry now h) reg es !! k = None.
Proof.
  revert reg. induction es as [|[k' l'] es IH]; intros reg Hin Hev.
  - by apply elem_of_nil in Hin.
  - cbn [foldl]. apply elem_of_cons in Hin as [[= <- <-]|Hin].
    + apply sweep_stays_absent. rewrite sweepEntry_evicts, Hev.
      apply lookup_delete_eq.
    + by apply IH.
Qed.

Lemma sweep_keeps (now : Z) (h : gmap loc Room)
    (es : list (string * loc)) (reg : gmap string loc) (k : string) :
  (∀ l, (k, l) ∈ es → evicts now h k l = false) →
  foldl (sweepEntry now h) reg es !! k = reg !! k.
Proof.
  revert reg. induction es as [|[k' l'] es IH]; intros reg Hno; [done|].
  cbn [foldl]. rewrite IH.
  - rewrite sweepEntry_evicts. destruct (evicts now h k' l') eqn:Hev; [|done].
    apply lookup_delete_ne. intros ->.
    rewrite Hno in Hev; [done|apply list_elem_of_here].
  - intros l Hin. apply Hno. by apply list_elem_of_further.
Qed.

Lemma realUsers_liveCount (room : Room) :
  length (realUsers room) = liveCount room.
Proof.
  unfold realUsers, liveCount, JSMap.values.
  induction (users room) as [|e m IH]; [done|].
  rewrite fmap_cons, !filter_cons.
  destruct (ws e.2) as [sock|] eqn:E.
  - rewrite decide_True by by eexists. rewrite decide_True by done.
    simpl. by rewrite IH.
  - rewrite decide_False by (by intros [? ?]). rewrite decide_False by (by intros H).
    done.
Qed.

Lemma cleanup_keeps (now : Z) (s : Server) (roomId : string) (room : Room) :
  getRoom s roomId = Some room →
  roomId = GLOBAL_ROOM_ID ∨ liveCount room ≠ 0%nat
  ∨ (now - createdAt room ≤ 3600000)%Z →
  rooms (cleanup now s) !! roomId = rooms s !! roomId
  ∧ getRoom (cleanup now s) roomId = Some room.
Proof.
  intros Hroom Hcase.
  assert (rooms (cleanup now s) !! roomId = rooms s !! roomId) as E.
  { unfold cleanup. cbn [rooms]. apply sweep_keeps.
    intros l Hin. apply elem_of_map_to_list in Hin.
    apply getRoom_Some in Hroom as (l' & Hl' & Hr).
    rewrite Hl' in Hin. injection Hin as ->.
    unfold evicts. case_decide; [done|]. rewrite Hr, realUsers_liveCount.
    destruct Hcase as [?|[Hlive|Hage]]; [done| |].
    - by rewrite bool_decide_eq_false_2.
    - rewrite (bool_decide_eq_false_2 (_ < _)%Z) by lia.
      apply andb_false_r. }
  split; [done|]. unfold getRoom in *. by rewrite E.
Qed.

Lemma cleanup_removes (now : Z) (s : Server) (roomId : string) (room : Room) :
  roomId ≠ GLOBAL_ROOM_ID →
  getRoom s roomId = Some room →
  liveCount room = 0%nat →
  (3600000 < now - createdAt room)%Z →
  rooms (cleanup now s) !! roomId = None.
Proof.
  intros Hne Hroom Hlive Hage.
  apply getRoom_Some in Hroom as (l & Hl & Hr).
  unfold cleanup. cbn [rooms]. apply (sweep_deletes _ _ _ _ _ l).
  - by apply elem_of_map_to_list.
  - unfold evicts. rewrite decide_False by done.
    rewrite Hr, realUsers_liveCount.
    rewrite bool_decide_eq_true_2 by done.
    by rewrite bool_decide_eq_true_2.
Qed.

(** C5: one run of the expiry sweep at time [now].  A room other than the
    global one, with no participant backed by a connection and created
    more than 3600000 ms before [now], is no longer registered; every
    other room, the global room in particular, is still registered with
    the same room object; no room object is modified. *)
Theorem cleanup_sweep (now : Z) (s : Server) :
  heap (cleanup now s) = heap s
  ∧ (∀ roomId room,
       roomId ≠ GLOBAL_ROOM_ID →
       getRoom s roomId = Some room →
       liveCount room = 0%nat →
       (3600000 < now - createdAt room)%Z →
       rooms (cleanup now s) !! roomId = None)
  ∧ (∀ roomId room,
       getRoom s roomId = Some room →
       roomId = GLOBAL_ROOM_ID ∨ liveCount room ≠ 0%nat
       ∨ (now - createdAt room ≤ 3600000)%Z →
       rooms (cleanup now s) !! roomId = rooms s !! roomId
       ∧ getRoom (cleanup now s) roomId = Some room)
  ∧ (∀ room,
       getRoom s GLOBAL_ROOM_ID = Some room →
       getRoom (cleanup now s) GLOBAL_ROOM_ID = Some room).
Proof.
  split_and!.
  - reflexivity.
  - apply cleanup_removes.
  - apply cleanup_keeps.
  - intros room Hroom. apply cleanup_keeps; [done|by left].
Qed.

Lemma cleanup_subset (now : Z) (s : Server) (roomId : string) (l : loc) :
  rooms (cleanup now s) !! roomId = Some l → rooms s !! roomId = Some l.
Proof.
  unfold cleanup. cbn [rooms]. intros H.
  destruct (rooms s !! roomId) as [l'|] eqn:E.
  - destruct (evicts now (heap s) roomId l') eqn:Hev.
    + rewrite (sweep_deletes _ _ _ _ _ l') in H; [done| |done].
      by apply elem_of_map_to_list.
    + rewrite sweep_keeps in H; [by rewrite <- H|].
      intros l0 Hin. apply elem_of_map_to_list in Hin.
      rewrite E in Hin. by injection Hin as <-.
  - by rewrite sweep_stays_absent in H.
Qed.

Lemma wf_cleanup (now : Z) (s : Server) : wf s → wf (cleanup now s).
Proof.
  intros Hwf. split.
  - destruct (wf_global s Hwf) as [g Hg]. exists g.
    apply cleanup_keeps; [done|by left].
  - intros id l Hl. apply (wf_alloc s Hwf id), (cleanup_subset now), Hl.
  - intros id [l Hl]. apply (wf_codes s Hwf).
    exists l. by apply (cleanup_subset now).
  - apply (wf_values s Hwf).
Qed.

(** ** Bot simulation *)

Lemma botTick_present (bot : Bot) (r : Qc) (s : Server) (l : loc)
    (room : Room) (user : User) (c : Qc) :
  rooms s !! GLOBAL_ROOM_ID = Some l →
  heap s !! l = Some room →
  JSMap.get (bot_id bot) (users room) = Some user →
  boredom user = Finite c →
  botTick bot r s
  = storeRoom l
      (setUsers
         (JSMap.set (bot_id bot)
            (setBoredom
               (Math_max (of_Z 0)
                  (Math_min (of_Z 100)
                     (add (add (Finite c)
                             (mul (sub (Finite (bot_boredom bot)) (Finite c))
                                (literal (1 # 10))))
                        (mul (sub (Finite r) (Finite (Q2Qc (1 # 2))))
                           (Finite (bot_volatility bot))))))
               user)
            (users room)) room) s.
Proof.
  intros Hl Hroom Huser Hc. unfold botTick.
  by rewrite Hl, Hroom, Huser, Hc.
Qed.

Lemma botTick_missing (bot : Bot) (r : Qc) (s : Server) :
  getRoom s GLOBAL_ROOM_ID = None
  ∨ (∃ room, getRoom s GLOBAL_ROOM_ID = Some room
             ∧ JSMap.get (bot_id bot) (users room) = None) →
  botTick bot r s = s.
Proof.
  unfold getRoom, botTick.
  destruct (rooms s !! GLOBAL_ROOM_ID) as [l|]; [|done]. cbn [mbind option_bind].
  intros [H|(room & H & Hu)]; rewrite H; [done|]. by rewrite Hu.
Qed.

Lemma zero_le_hundred : 0 ≤ Qc_of_Z 100.
Proof. rewrite <- Qc_of_Z_0. by apply (proj1 (Qc_of_Z_le _ _)). Qed.

Lemma literal_tenth :
  ∃ c01 : Qc, literal (1 # 10) = Finite c01
              ∧ (this c01 == 3602879701896397 # 36028797018963968)%Q.
Proof. eexists. split; [vm_compute; reflexivity|]. vm_compute. reflexivity. Qed.

Lemma clamp_lipschitz (a b lo hi e : Qc) :
  lo ≤ hi → a - b ≤ e → b - a ≤ e →
  clamp a lo hi - clamp b lo hi ≤ e ∧ clamp b lo hi - clamp a lo hi ≤ e.
Proof.
  intros Hlh H1 H2. unfold clamp.
  repeat case_decide;
    repeat match goal with
           | H : ¬ (_ < _) |- _ => apply Qcnot_lt_le in H
           end;
    split; qc_lra.
Qed.

(** The value one tick computes, for one of the four bots, a draw in
    [0,1) and a current value between 0 and 100: it is finite, lies
    between 0 and 100 and is within [2^-40] of the formula evaluated
    without rounding. *)
Lemma tick_value (bot : Bot) (r c : Qc) :
  bot ∈ bots → 0 ≤ r → r < 1 → 0 ≤ c → c ≤ Qc_of_Z 100 →
  ∃ v : Qc,
    Math_max (of_Z 0)
      (Math_min (of_Z 100)
         (add (add (Finite c)
                 (mul (sub (Finite (bot_boredom bot)) (Finite c))
                    (literal (1 # 10))))
            (mul (sub (Finite r) (Finite (Q2Qc (1 # 2))))
               (Finite (bot_volatility bot)))))
    = Finite v
    ∧ 0 ≤ v ∧ v ≤ Qc_of_Z 100
    ∧ v - clamp (c + (bot_boredom bot - c) * Q2Qc (1 # 10)
                 + (r - Q2Qc (1 # 2)) * bot_volatility bot) 0 (Qc_of_Z 100)
      ≤ Q2Qc (1 # 2 ^ 40)
    ∧ clamp (c + (bot_boredom bot - c) * Q2Qc (1 # 10)
             + (r - Q2Qc (1 # 2)) * bot_volatility bot) 0 (Qc_of_Z 100) - v
      ≤ Q2Qc (1 # 2 ^ 40).
Proof.
  intros Hbot Hr0 Hr1 Hc0 Hc100.
  destruct literal_tenth as (c01 & -> & Ec01).
  assert (∃ t vol : Z, bot_boredom bot = Qc_of_Z t
                       ∧ bot_volatility bot = Qc_of_Z vol
                       ∧ (0 ≤ t ≤ 100)%Z ∧ (vol = 8 ∨ vol = 10 ∨ vol = 15 ∨ vol = 25)%Z)
    as (t & vol & -> & -> & Ht & Hvol).
  { unfold bots in Hbot.
    repeat (apply elem_of_cons in Hbot as [->|Hbot]);
      [..|by apply elem_of_nil in Hbot];
      cbn [bot_boredom bot_volatility]; eexists _, _;
      (split; [reflexivity|split; [reflexivity|split; lia]]). }
  rewrite sub_finite.
  destruct (binary64_range (-100) 100 (2 ^ 7) (Qc_of_Z t - c))
    as (d1 & -> & D1a & D1b & D1c & D1d); [lia|lia|lia| | |].
  { destruct Ht as [Ht0 Ht1]. apply (proj1 (Qc_of_Z_le _ _)) in Ht0, Ht1.
    clear - Hc0 Hc100 Ht0 Ht1. qc_lra. }
  { destruct Ht as [Ht0 Ht1]. apply (proj1 (Qc_of_Z_le _ _)) in Ht0, Ht1.
    clear - Hc0 Hc100 Ht0 Ht1. qc_lra. }
  rewrite mul_finite.
  destruct (binary64_range (-11) 11 (2 ^ 4) (d1 * c01))
    as (d2 & -> & D2a & D2b & D2c & D2d); [lia|lia|lia| | |].
  { clear - D1a D1b Ec01. qc_to_q. rewrite Ec01. inj_consts. lra. }
  { clear - D1a D1b Ec01. qc_to_q. rewrite Ec01. inj_consts. lra. }
  rewrite add_finite.
  destruct (binary64_range (-11) 111 (2 ^ 7) (c + d2))
    as (s1 & -> & S1a & S1b & S1c & S1d); [lia|lia|lia| | |].
  { clear - D2a Hc0. qc_lra. }
  { clear - D2b Hc100. qc_lra. }
  rewrite sub_finite.
  destruct (binary64_range (-1) 1 1 (r - Q2Qc (1 # 2)))
    as (n1 & -> & N1a & N1b & N1c & N1d); [lia|lia|lia| | |].
  { clear - Hr0. qc_lra. }
  { clear - Hr1. qc_lra. }
  rewrite mul_finite.
  destruct (binary64_range (-25) 25 (2 ^ 5) (n1 * Qc_of_Z vol))
    as (n2 & -> & N2a & N2b & N2c & N2d); [lia|lia|lia| | |].
  { clear - N1a N1b Hvol. destruct Hvol as [->|[->|[->| ->]]]; qc_lra. }
  { clear - N1a N1b Hvol. destruct Hvol as [->|[->|[->| ->]]]; qc_lra. }
  rewrite add_finite.
  destruct (binary64_range (-36) 136 (2 ^ 8) (s1 + n2))
    as (s2 & -> & S2a & S2b & S2c & S2d); [lia|lia|lia| | |].
  { clear - S1a N2a. qc_lra. }
  { clear - S1b N2b. qc_lra. }
  rewrite Math_clamp_finite. eexists. split; [reflexivity|].
  destruct (clamp_range s2 0 (Qc_of_Z 100) zero_le_hundred) as [V0 V100].
  split; [exact V0|]. split; [exact V100|].
  apply clamp_lipschitz; [apply zero_le_hundred| |].
  - pose proof rounding_budget_small as HB. pose proof u53_pos. pose proof tiny_pos.
    destruct Ht as [Ht0 Ht1]. apply (proj1 (Qc_of_Z_le _ _)) in Ht0, Ht1.
    clear - HB H H0 Ht0 Ht1 Hc0 Hc100 Hr0 Hr1 Ec01 D1a D1b D1c D1d D2c D2d S1c S1d
              N1a N1b N1c N1d N2c N2d S2c S2d Hvol.
    destruct Hvol as [->|[->|[->| ->]]]; qc_to_q; rewrite Ec01 in *; inj_consts; lra.
  - pose proof rounding_budget_small as HB. pose proof u53_pos. pose proof tiny_pos.
    destruct Ht as [Ht0 Ht1]. apply (proj1 (Qc_of_Z_le _ _)) in Ht0, Ht1.
    clear - HB H H0 Ht0 Ht1 Hc0 Hc100 Hr0 Hr1 Ec01 D1a D1b D1c D1d D2c D2d S1c S1d
              N1a N1b N1c N1d N2c N2d S2c S2d Hvol.
    destruct Hvol as [->|[->|[->| ->]]]; qc_to_q; rewrite Ec01 in *; inj_consts; lra.
Qed.


Lemma wf_botTick (bot : Bot) (r : Qc) (s : Server) :
  bot ∈ bots → 0 ≤ r → r < 1 → wf s → wf (botTick bot r s).
Proof.
  intros Hbot Hr0 Hr1 Hwf.
  destruct (rooms s !! GLOBAL_ROOM_ID) as [l|] eqn:Hl;
    [|rewrite botTick_missing; [done|left; unfold getRoom; by rewrite Hl]].
  destruct (heap s !! l) as [room|] eqn:Hroom;
    [|rewrite botTick_missing; [done|left; unfold getRoom; rewrite Hl; done]].
  destruct (JSMap.get (bot_id bot) (users room)) as [user|] eqn:Huser.
  - destruct (wf_values s Hwf l room Hroom _ _ (get_Some_elem _ _ _ Huser))
      as (c & Hc & Hc0 & Hc100).
    rewrite (botTick_present bot r s l room user c) by done.
    destruct (tick_value bot r c Hbot Hr0 Hr1 Hc0 Hc100)
      as (v & Hv & V0 & V100 & _).
    rewrite Hv.
    apply wf_storeRoom; [done|].
    apply valuesInRange_set; [by eapply wf_valuesInRange|].
    eexists. split; [reflexivity|]. done.
  - rewrite botTick_missing; [done|]. right. exists room.
    split; [|done]. unfold getRoom. rewrite Hl. done.
Qed.

(** ** HTTP handlers *)

Lemma handleRequest_health (JSON_parse : string → option json) (req : Request)
    (now : Z) (rnd : Byte.byte * Byte.byte * Byte.byte) (s : Server) :
  method req = "GET"%string → url req = "/health"%string →
  handleRequest JSON_parse req now rnd s = (s, health s).
Proof.
  intros Hm Hu. unfold handleRequest. rewrite Hm, Hu.
  rewrite decide_False by done. by rewrite decide_True.
Qed.

Lemma handleRequest_post (JSON_parse : string → option json) (req : Request)
    (now : Z) (rnd : Byte.byte * Byte.byte * Byte.byte) (s : Server) :
  method req = "POST"%string → url req = "/api/rooms"%string →
  handleRequest JSON_parse req now rnd s
  = postRooms JSON_parse (reqBody req) now rnd s.
Proof.
  intros Hm Hu. unfold handleRequest. rewrite Hm, Hu.
  rewrite decide_False by done. rewrite decide_False by done.
  rewrite (bool_decide_eq_true_2 (_ = "/api/rooms"%string)) by done.
  by rewrite (bool_decide_eq_true_2 (_ = "POST"%string)).
Qed.

Lemma getRoomStats_count (s : Server) (roomId : string) :
  match getRoomStats s roomId with Some st => count st | None => 0%nat end
  = match getRoom s roomId with
    | Some room => length (users room)
    | None => 0%nat
    end.
Proof.
  unfold getRoomStats. destruct (getRoom s roomId) as [room|]; [|done].
  cbn [count]. unfold JSMap.entries. by rewrite length_fmap.
Qed.

(** C7, as amended: a [GET /health] request is answered with status 200,
    [status] "ok", [rooms] equal to the number of registered rooms and
    [globalUsers] equal to the number of entries of the global room's
    participant table, bots included (0 if there is no global room); the
    state is unchanged. *)
Theorem health_counts_all_entries (JSON_parse : string → option json)
    (req : Request) (now : Z) (rnd : Byte.byte * Byte.byte * Byte.byte)
    (s : Server) :
  method req = "GET"%string → url req = "/health"%string →
  handleRequest JSON_parse req now rnd s
  = (s, mkResponse 200
          (HealthBody "ok" (size (rooms s))
             (match getRoom s GLOBAL_ROOM_ID with
              | Some room =>
                  (liveCount room
                   + length (base.filter (λ e : string * User, ws e.2 = None)
                               (users room)))%nat
              | None => 0%nat
              end))).
Proof.
  intros Hm Hu. rewrite handleRequest_health by done.
  unfold health. rewrite getRoomStats_count.
  destruct (getRoom s GLOBAL_ROOM_ID) as [room|]; [|done].
  by rewrite (length_live_split (users room)).
Qed.

Lemma postRooms_accepted (JSON_parse : string → option json) (reqBody : string)
    (now : Z) (rnd : Byte.byte * Byte.byte * Byte.byte) (s : Server)
    (data : json) :
  JSON_parse (if decide (reqBody = EmptyString) then "{}"%string else reqBody)
  = Some data →
  data ≠ JNull →
  ∃ dataName,
    getProp "name" data = Some dataName
    ∧ postRooms JSON_parse reqBody now rnd s
      = (let roomId := generateRoomCode rnd in
         let roomName := or_else dataName (JString ("Room " +:+ roomId)) in
         (setNewRoom roomId (mkRoom JSMap.empty now roomName false) s,
          if stringifies roomName
          then mkResponse 200 (CreatedBody roomId roomName)
          else mkResponse 400 (ErrorBody "Invalid request"))).
Proof.
  intros Hparse Hnn. unfold postRooms. rewrite Hparse.
  destruct data; try done; eexists; (split; [reflexivity|]); reflexivity.
Qed.





(** C10: an empty body is read as the text of an empty object, so the
    request is answered with status 200 and a room named "Room " followed
    by the code is created; so is it when the body is an object without a
    [name] or with an empty [name]. *)
Theorem postRooms_default_name (JSON_parse : string → option json)
    (now : Z) (rnd : Byte.byte * Byte.byte * Byte.byte) (s : Server) :
  JSON_parse "{}"%string = Some (JObject []) →
  let roomId := generateRoomCode rnd in
  let defaultName := JString ("Room " +:+ roomId) in
  let created :=
    (setNewRoom roomId (mkRoom JSMap.empty now defaultName false) s,
     mkResponse 200 (CreatedBody roomId defaultName)) in
  handleRequest JSON_parse (mkRequest "POST" "/api/rooms" EmptyString) now rnd s
  = created
  ∧ getRoom created.1 roomId = Some (mkRoom JSMap.empty now defaultName false)
  ∧ ∀ (reqBody : string) (fields : list (string * json)),
      reqBody ≠ EmptyString →
      JSON_parse reqBody = Some (JObject fields) →
      assoc "name" fields = None
      ∨ assoc "name" fields = Some (JString EmptyString) →
      handleRequest JSON_parse (mkRequest "POST" "/api/rooms" reqBody) now rnd s
      = created.
Proof.
  intros Hparse roomId defaultName created. split_and!.
  - rewrite handleRequest_post by done. unfold postRooms. cbn [reqBody].
    rewrite decide_True by done. by rewrite Hparse.
  - apply getRoom_setNewRoom_eq.
  - intros body fields Hne Hp Hname.
    rewrite handleRequest_post by done. unfold postRooms. cbn [reqBody].
    rewrite decide_False by done. rewrite Hp. cbn [getProp].
    by destruct Hname as [-> | ->].
Qed.

(** ** The invariant is kept by every handler *)

Lemma wf_postRooms (JSON_parse : string → option json) (reqBody : string)
    (now : Z) (rnd : Byte.byte * Byte.byte * Byte.byte) (s : Server) :
  wf s → wf (postRooms JSON_parse reqBody now rnd s).1.
Proof.
  intros Hwf. unfold postRooms.
  destruct (JSON_parse _) as [data|]; [|done].
  destruct (getProp "name" data) as [dataName|]; [|done]. cbn [fst].
  apply wf_setNewRoom;
    [right; apply generateRoomCode_looksLikeCode
    |apply valuesInRange_empty|by left].
Qed.

Lemma wf_handleRequest (JSON_parse : string → option json) (req : Request)
    (now : Z) (rnd : Byte.byte * Byte.byte * Byte.byte) (s : Server) :
  wf s → wf (handleRequest JSON_parse req now rnd s).1.
Proof.
  intros Hwf. unfold handleRequest.
  destruct (decide (method req = "OPTIONS"%string)); [done|].
  destruct (decide (url req = "/health"%string)); [done|].
  destruct (_ && _); [by apply wf_postRooms|].
  destruct (_ && _); done.
Qed.

Lemma onConnection_succeeds (sock : socket) (roomParam nameParam : option string)
    (now : Z) (rnd : list Byte.byte) (s : Server) :
  wf s → is_Some (onConnection sock roomParam nameParam now rnd s).
Proof.
  intros Hwf. unfold onConnection.
  pose proof (wf_resolveRoom roomParam now s Hwf) as Hwf1.
  destruct (resolveRoom roomParam now s) as [s1 roomId] eqn:E. cbn [fst] in Hwf1.
  assert (is_Some (rooms s1 !! roomId)) as [l Hl].
  { unfold resolveRoom in E. case_bool_decide as Hreg.
    - by injection E as <- <-.
    - destruct (looksLikeCode _).
      + injection E as <- <-. unfold setNewRoom. cbn [rooms].
        rewrite lookup_insert_eq. by eexists.
      + injection E as <- <-. by apply wf_global_registered. }
  destruct (wf_alloc s1 Hwf1 _ _ Hl) as [room Hroom].
  rewrite Hl. cbn [mbind option_bind]. rewrite Hroom. by eexists.
Qed.

Lemma wf_onConnection (sock : socket) (roomParam nameParam : option string)
    (now : Z) (rnd : list Byte.byte) (s s' : Server) (c : Conn) :
  wf s →
  onConnection sock roomParam nameParam now rnd s = Some (s', c) →
  wf s'.
Proof.
  intros Hwf. unfold onConnection.
  pose proof (wf_resolveRoom roomParam now s Hwf) as Hwf1.
  destruct (resolveRoom roomParam now s) as [s1 roomId]. cbn [fst] in Hwf1.
  destruct (rooms s1 !! roomId) as [l|]; [|done]. cbn [mbind option_bind].
  destruct (heap s1 !! l) as [room|] eqn:Hroom; [|done].
  intros [= <- _]. apply wf_storeRoom; [done|].
  apply valuesInRange_set; [by eapply wf_valuesInRange|].
  exists (Qc_of_Z 50). split; [done|]. by apply of_Z_in_range.
Qed.

Lemma wf_applyUpdate (c : Conn) (message : json) (s : Server) :
  wf s → wf (applyUpdate c message s).
Proof.
  intros Hwf. unfold applyUpdate.
  destruct (getProp "type" message) as [[[]|]|]; try done.
  destruct (getProp "boredom" message) as [[[]|]|]; try done.
  case_decide; [|done].
  destruct (heap s !! conn_room c) as [room|] eqn:Hroom; [|done].
  destruct (JSMap.get _ _) as [user|]; [|done].
  apply wf_storeRoom; [done|].
  apply valuesInRange_set; [by eapply wf_valuesInRange|].
  rewrite update_value_integer. eexists. split; [reflexivity|].
  apply of_Z_in_range. destruct n as [q|[|]]; lia.
Qed.

Lemma wf_applySetName (c : Conn) (message : json) (s : Server) :
  wf s → wf (applySetName c message s).
Proof.
  intros Hwf. unfold applySetName.
  destruct (getProp "type" message) as [[[]|]|]; try done.
  destruct (getProp "name" message) as [[nm|]|]; try done.
  destruct (_ && _); [|done].
  destruct (heap s !! conn_room c) as [room|] eqn:Hroom; [|done].
  destruct (JSMap.get _ _) as [user|] eqn:Huser; [|done].
  destruct (slice20 nm) as [nm'|]; [|done].
  apply wf_storeRoom; [done|].
  apply valuesInRange_set; [by eapply wf_valuesInRange|].
  apply (wf_values s Hwf _ _ Hroom _ _ (get_Some_elem _ _ _ Huser)).
Qed.

Lemma wf_onMessage (JSON_parse : string → option json) (c : Conn)
    (data : string) (s : Server) :
  wf s → wf (onMessage JSON_parse c data s).
Proof.
  intros Hwf. unfold onMessage. destruct (JSON_parse data); [|done].
  by apply wf_applySetName, wf_applyUpdate.
Qed.

Lemma wf_onClose (c : Conn) (s : Server) : wf s → wf (onClose c s).
Proof.
  intros Hwf. unfold onClose.
  destruct (heap s !! conn_room c) as [room|] eqn:Hroom; [|done].
  apply wf_storeRoom; [done|].
  apply valuesInRange_delete. by eapply wf_valuesInRange.
Qed.

(** X23: after [close] the participant is gone from the room the
    connection joined, and the other participants are untouched. *)
Lemma onClose_removes (c : Conn) (s : Server) (room : Room) :
  heap s !! conn_room c = Some room →
  ∃ room', heap (onClose c s) !! conn_room c = Some room'
           ∧ JSMap.get (conn_userId c) (users room') = None
           ∧ ∀ id, id ≠ conn_userId c →
                   JSMap.get id (users room') = JSMap.get id (users room).
Proof.
  intros Hroom. unfold onClose. rewrite Hroom. eexists. split_and!.
  - unfold storeRoom. cbn [heap]. apply lookup_insert_eq.
  - cbn [users setUsers]. apply get_delete_eq.
  - intros id Hne. cbn [users setUsers]. by apply get_delete_ne.
Qed.

(** Every state the server reaches satisfies the invariant. *)
Lemma reachable_wf (JSON_parse : string → option json) (start : Z) (s : Server) :
  reachable JSON_parse start s → wf s.
Proof.
  induction 1 as [|s bot r _ IH Hbot Hr0 Hr1|s now _ IH|s req now rnd _ IH
                  |s s' sock roomParam nameParam now rnd c _ IH Hconn
                  |s c data _ IH|s c _ IH].
  - apply wf_initial.
  - by apply wf_botTick.
  - by apply wf_cleanup.
  - by apply wf_handleRequest.
  - by eapply wf_onConnection.
  - by apply wf_onMessage.
  - by apply wf_onClose.
Qed.

(** ** The sample run *)

Example created_response :
  created.2 = mkResponse 200 (CreatedBody sampleCode (JString "Team Sync")).
Proof. vm_compute. reflexivity. Qed.

Example joined1_stats :
  getRoomStats joined1.1 sampleCode
  = Some (mkStats (of_Z 50) 1
            [mkIndividual "0101010101010101" (of_Z 50) false JNull]
            (JString "Team Sync") sampleCode).
Proof. vm_compute. reflexivity. Qed.

Example updated_stats :
  getRoomStats updated sampleCode
  = Some (mkStats (of_Z 65) 2
            [mkIndividual "0101010101010101" (of_Z 80) false JNull;
             mkIndividual "0202020202020202" (of_Z 50) false JNull]
            (JString "Team Sync") sampleCode).
Proof. vm_compute. reflexivity. Qed.

Example closed_stats :
  getRoomStats closed sampleCode
  = Some (mkStats (of_Z 50) 1
            [mkIndividual "0202020202020202" (of_Z 50) false JNull]
            (JString "Team Sync") sampleCode).
Proof. vm_compute. reflexivity. Qed.

Example lookup_known_room :
  (handleRequest parseSample (mkRequest "GET" "/api/rooms/AB12CD" EmptyString)
     9000 sampleBytes updated).2
  = mkResponse 200
      (StatsBody
         (mkStats (of_Z 65) 2
            [mkIndividual "0101010101010101" (of_Z 80) false JNull;
             mkIndividual "0202020202020202" (of_Z 50) false JNull]
            (JString "Team Sync") sampleCode)).
Proof. vm_compute. reflexivity. Qed.

Example lookup_unknown_room :
  (handleRequest parseSample (mkRequest "GET" "/api/rooms/QQQQQQ" EmptyString)
     9000 sampleBytes updated).2
  = mkResponse 404 (ErrorBody "Room not found").
Proof. vm_compute. reflexivity. Qed.

Lemma wf_created : wf created.1.
Proof. apply wf_handleRequest, wf_initial. Qed.

Lemma wf_joined2 : wf joined2.1.
Proof.
  apply (wf_onConnection 2%nat (Some sampleCode) None 3000
           (replicate 8 Byte.x02) joined1.1 _ joined2.2).
  - apply (wf_onConnection 1%nat (Some sampleCode) None 2000
             (replicate 8 Byte.x01) created.1 _ joined1.2);
      [apply wf_created|vm_compute; reflexivity].
  - vm_compute. reflexivity.
Qed.

(** ** Instances of the theorems *)

Lemma getRoomStats_nonempty_witness :
  ∃ (st : Stats) (z : Z),
    getRoomStats updated sampleCode = Some st
    ∧ count st = 2%nat
    ∧ average st = of_Z z
    ∧ rounds_to (mean [Qc_of_Z 80; Qc_of_Z 50]) z.
Proof.
  destruct (getRoomStats_nonempty updated sampleCode
              (mkRoom
                 [("0101010101010101"%string,
                   mkUser (of_Z 80) (Some 1%nat) false JNull);
                  ("0202020202020202"%string,
                   mkUser (of_Z 50) (Some 2%nat) false JNull)]
                 1000 (JString "Team Sync") false)
              [Qc_of_Z 80; Qc_of_Z 50])
    as (st & z & Hst & Hcount & _ & Havg & _ & _ & _ & Hround & _).
  - vm_compute. reflexivity.
  - discriminate.
  - reflexivity.
  - constructor; [split; decided|constructor; [split; decided|constructor]].
  - vm_compute. discriminate.
  - exists st, z.
    split; [exact Hst|split; [exact Hcount|split; [exact Havg|]]].
    apply (Hround [80; 50]%Z). reflexivity.
Defined.

(** C1 as stated fails: after start-up and one tick of the last bot the
    global room holds 65, 25, 50 and [82 - 2^-46].  Their mean is
    [55.5 - 2^-48], which rounds to 55, yet the binary64 sum is 222 and
    [getRoomStats] reports the average 56. *)
Lemma getRoomStats_average_counterexample :
  reachable parseSample 0 sleepyTicked
  ∧ ∃ (st : Stats) (room : Room) (q : Qc),
      getRoom sleepyTicked GLOBAL_ROOM_ID = Some room
      ∧ boredom <$> JSMap.values (users room)
        = Finite <$> [Qc_of_Z 65; Qc_of_Z 25; Qc_of_Z 50; q]
      ∧ q = Qc_of_Z 82 - Q2Qc (1 # 2 ^ 46)
      ∧ getRoomStats sleepyTicked GLOBAL_ROOM_ID = Some st
      ∧ average st = of_Z 56
      ∧ rounds_to (mean [Qc_of_Z 65; Qc_of_Z 25; Qc_of_Z 50; q]) 55.
Proof.
  split.
  - apply reach_botTick; [apply reach_initial| |decided|decided].
    do 3 apply list_elem_of_further. apply list_elem_of_here.
  - eexists _, _, _. split_and!.
    + vm_compute. reflexivity.
    + vm_compute. reflexivity.
    + apply Qc_is_canon. vm_compute. reflexivity.
    + vm_compute. reflexivity.
    + vm_compute. reflexivity.
    + split; decided.
Qed.

Lemma getRoomStats_empty_witness :
  ∃ st : Stats,
    getRoomStats created.1 sampleCode = Some st
    ∧ count st = 0%nat
    ∧ average st = of_Z 50
    ∧ individuals st = [].
Proof.
  apply (getRoomStats_empty created.1 sampleCode
           (mkRoom [] 1000 (JString "Team Sync") false)).
  - vm_compute. reflexivity.
  - reflexivity.
Defined.

Lemma update_stores_integer_in_range_witness :
  ∃ (room' : Room) (user' : User) (z : Z),
    heap (onMessage parseSample joined1.2 (updateText "250") joined2.1)
      !! conn_room joined1.2 = Some room'
    ∧ JSMap.get (conn_userId joined1.2) (users room') = Some user'
    ∧ boredom user' = of_Z z
    ∧ (0 ≤ z ≤ 100)%Z
    ∧ z = Z.max 0 (Z.min 100 (round_Z (Qc_of_Z 250))).
Proof.
  apply (update_stores_integer_in_range parseSample joined1.2
           (updateText "250") (updateMessage 250) (JFinite (Qc_of_Z 250))
           joined2.1
           teamSyncRoom
           (mkUser (of_Z 50) (Some 1%nat) false JNull)).
  - vm_compute. reflexivity.
  - reflexivity.
  - reflexivity.
  - vm_compute. reflexivity.
  - vm_compute. reflexivity.
Defined.

Example update_250_stores_100 :
  getRoomStats (onMessage parseSample joined1.2 (updateText "250") joined2.1)
    sampleCode
  = Some (mkStats (of_Z 75) 2
            [mkIndividual "0101010101010101" (of_Z 100) false JNull;
             mkIndividual "0202020202020202" (of_Z 50) false JNull]
            (JString "Team Sync") sampleCode).
Proof. vm_compute. reflexivity. Qed.

Example update_negative_stores_0 :
  getRoomStats (onMessage parseSample joined1.2 (updateText "-3.5") joined2.1)
    sampleCode
  = Some (mkStats (of_Z 25) 2
            [mkIndividual "0101010101010101" (of_Z 0) false JNull;
             mkIndividual "0202020202020202" (of_Z 50) false JNull]
            (JString "Team Sync") sampleCode).
Proof. vm_compute. reflexivity. Qed.

Lemma resolveRoom_cases_witness :
  resolveRoom (Some sampleCode) 7000 created.1 = (created.1, sampleCode)
  ∧ resolveRoom (Some "ZZZ999"%string) 7000 created.1
    = (setNewRoom "ZZZ999"
         (mkRoom JSMap.empty 7000 (JString "Room ZZZ999") false) created.1,
       "ZZZ999"%string)
  ∧ resolveRoom (Some "no such room"%string) 7000 created.1
    = (created.1, GLOBAL_ROOM_ID)
  ∧ resolveRoom None 7000 created.1 = (created.1, GLOBAL_ROOM_ID).
Proof.
  split_and!.
  - destruct (resolveRoom_cases (Some sampleCode) 7000 created.1 wf_created)
      as (H & _).
    apply (H sampleCode); [reflexivity|]. vm_compute. by eexists.
  - destruct (resolveRoom_cases (Some "ZZZ999"%string) 7000 created.1 wf_created)
      as (_ & H & _).
    apply (H "ZZZ999"%string); [reflexivity|vm_compute; reflexivity|].
    apply looksLikeCode_wellFormed. reflexivity.
  - destruct (resolveRoom_cases (Some "no such room"%string) 7000 created.1
                wf_created) as (_ & _ & H & _).
    apply (H "no such room"%string); [reflexivity|vm_compute; reflexivity|].
    apply looksLikeCode_not_wellFormed. reflexivity.
  - destruct (resolveRoom_cases None 7000 created.1 wf_created)
      as (_ & _ & _ & H & _).
    by apply H.
Defined.

Lemma cleanup_sweep_witness :
  rooms (cleanup 3601001 created.1) !! sampleCode = None
  ∧ rooms (cleanup 3601000 created.1) !! sampleCode
    = rooms created.1 !! sampleCode
  ∧ rooms (cleanup 3601001 joined2.1) !! sampleCode
    = rooms joined2.1 !! sampleCode
  ∧ getRoom (cleanup 3601001 created.1) GLOBAL_ROOM_ID = Some (globalRoom 0).
Proof.
  split_and!.
  - destruct (cleanup_sweep 3601001 created.1) as (_ & H & _).
    apply (H sampleCode (mkRoom [] 1000 (JString "Team Sync") false));
      [discriminate|vm_compute; reflexivity|reflexivity|reflexivity].
  - destruct (cleanup_sweep 3601000 created.1) as (_ & _ & H & _).
    apply (H sampleCode (mkRoom [] 1000 (JString "Team Sync") false));
      [vm_compute; reflexivity|].
    right. right. cbn [createdAt]. lia.
  - destruct (cleanup_sweep 3601001 joined2.1) as (_ & _ & H & _).
    apply (H sampleCode teamSyncRoom); [vm_compute; reflexivity|].
    right. left. vm_compute. discriminate.
  - destruct (cleanup_sweep 3601001 created.1) as (_ & _ & _ & H).
    apply H. vm_compute. reflexivity.
Defined.


(** With the draw 0.6 the first bot goes from 65 to 66.5: the value is
    not rounded to an integer.  Over the reals the formula gives
    [66.5 - 3 * 2^-53] for that draw. *)
Example botTick_stores_fraction :
  ∃ (room' : Room) (user' : User),
    heap (botTick restless draw06 (initial 0)) !! 0%nat = Some room'
    ∧ JSMap.get (bot_id restless) (users room') = Some user'
    ∧ boredom user' = Finite (Q2Qc (133 # 2))
    ∧ clamp (Qc_of_Z 65 + (bot_boredom restless - Qc_of_Z 65) * Q2Qc (1 # 10)
             + (draw06 - Q2Qc (1 # 2)) * bot_volatility restless)
        0 (Qc_of_Z 100)
      = Q2Qc (133 # 2) - Qc_of_Z 3 * Q2Qc (1 # 2 ^ 53).
Proof.
  eexists _, _. split_and!.
  - vm_compute. reflexivity.
  - vm_compute. reflexivity.
  - cbn [boredom]. f_equal. apply Qc_is_canon. vm_compute. reflexivity.
  - apply Qc_is_canon. vm_compute. reflexivity.
Qed.

(** C7 as stated fails: at start-up no participant of the global room is
    backed by a connection, yet [globalUsers] is 4. *)
Lemma health_live_count_counterexample :
  getRoom (initial 0) GLOBAL_ROOM_ID = Some (globalRoom 0)
  ∧ liveCount (globalRoom 0) = 0%nat
  ∧ (handleRequest parseSample healthRequest 0 sampleBytes (initial 0)).2
    = mkResponse 200 (HealthBody "ok" 1 4)
  ∧ (handleRequest parseSample healthRequest 0 sampleBytes (initial 0)).2
    ≠ mkResponse 200
        (HealthBody "ok" (size (rooms (initial 0)))
           (liveCount (globalRoom 0))).
Proof.
  split_and!; try (vm_compute; reflexivity).
  vm_compute. discriminate.
Qed.

Lemma health_counts_all_entries_witness :
  handleRequest parseSample healthRequest 9000 sampleBytes joined2.1
  = (joined2.1,
     mkResponse 200
       (HealthBody "ok" (size (rooms joined2.1))
          (match getRoom joined2.1 GLOBAL_ROOM_ID with
           | Some room =>
               (liveCount room
                + length (base.filter (λ e : string * User, ws e.2 = None)
                            (users room)))%nat
           | None => 0%nat
           end))).
Proof.
  apply (health_counts_all_entries parseSample healthRequest 9000 sampleBytes
           joined2.1); reflexivity.
Defined.


(** The room of a name that cannot be converted to a string is stored
    although the request is answered with status 400. *)
Example postRooms_unprintable_name :
  let oddName := JObject [("toString"%string, JNull)] in
  let run :=
    handleRequest parseOddName (mkRequest "POST" "/api/rooms" oddNameBody)
      1000 sampleBytes (initial 0) in
  parseOddName oddNameBody = Some (JObject [("name"%string, oddName)])
  ∧ run.2 = mkResponse 400 (ErrorBody "Invalid request")
  ∧ getRoom run.1 (generateRoomCode sampleBytes)
    = Some (mkRoom JSMap.empty 1000 oddName false)
  ∧ getRoom (initial 0) (generateRoomCode sampleBytes) = None.
Proof. split_and!; vm_compute; reflexivity. Qed.




Example collision_replaces_room :
  getRoomStats
    (handleRequest parseSample emptyRequest 9000 sampleBytes joined2.1).1
    sampleCode
  = Some (mkStats (of_Z 50) 0 [] (JString "Room AB12CD") sampleCode).
Proof. vm_compute. reflexivity. Qed.

(** The connection that joined the replaced room still updates the old
    room object, which the registry no longer reaches. *)
Example update_after_collision :
  let s := (handleRequest parseSample emptyRequest 9000 sampleBytes joined2.1).1 in
  let s' := onMessage parseSample joined1.2 (updateText "80") s in
  (users <$> heap s' !! conn_room joined1.2)
  = Some [("0101010101010101"%string,
           mkUser (of_Z 80) (Some 1%nat) false JNull);
          ("0202020202020202"%string,
           mkUser (of_Z 50) (Some 2%nat) false JNull)]
  ∧ getRoomStats s' sampleCode
    = Some (mkStats (of_Z 50) 0 [] (JString "Room AB12CD") sampleCode).
Proof. split; vm_compute; reflexivity. Qed.

Lemma postRooms_default_name_witness :
  let roomId := generateRoomCode sampleBytes in
  let defaultName := JString ("Room " +:+ roomId) in
  let created :=
    (setNewRoom roomId (mkRoom JSMap.empty 1000 defaultName false) (initial 0),
     mkResponse 200 (CreatedBody roomId defaultName)) in
  handleRequest parseSample emptyRequest 1000 sampleBytes (initial 0) = created
  ∧ getRoom created.1 roomId
    = Some (mkRoom JSMap.empty 1000 defaultName false)
  ∧ ∀ (reqBody : string) (fields : list (string * json)),
      reqBody ≠ EmptyString →
      parseSample reqBody = Some (JObject fields) →
      assoc "name" fields = None
      ∨ assoc "name" fields = Some (JString EmptyString) →
      handleRequest parseSample (mkRequest "POST" "/api/rooms" reqBody)
        1000 sampleBytes (initial 0)
      = created.
Proof.
  apply (postRooms_default_name parseSample 1000 sampleBytes (initial 0)).
  vm_compute. reflexivity.
Defined.

Example empty_body_default_name :
  (handleRequest parseSample emptyRequest 1000 sampleBytes (initial 0)).2
  = mkResponse 200 (CreatedBody "AB12CD" (JString "Room AB12CD")).
Proof. vm_compute. reflexivity. Qed.


(** * Further properties of the server *)

(** ** Identifiers *)

Lemma hexVal_hexDigit (n : N) : (n < 16)%N → hexVal (hexDigit n) = n.
Proof.
  intros Hn. destruct n as [|p]; [reflexivity|].
  do 4 (try destruct p as [p|p|]); try reflexivity; lia.
Qed.

Lemma hexVal_upper_hexDigit (n : N) :
  (n < 16)%N → hexVal (upperChar (hexDigit n)) = n.
Proof.
  intros Hn. destruct n as [|p]; [reflexivity|].
  do 4 (try destruct p as [p|p|]); try reflexivity; lia.
Qed.

Lemma byte_of_digits (b1 b2 : Byte.byte) :
  (Byte.to_N b1 / 16 = Byte.to_N b2 / 16)%N →
  (Byte.to_N b1 mod 16 = Byte.to_N b2 mod 16)%N →
  b1 = b2.
Proof.
  intros Hq Hr.
  assert (Byte.to_N b1 = Byte.to_N b2) as E.
  { rewrite (N.div_mod (Byte.to_N b1) 16), (N.div_mod (Byte.to_N b2) 16) by lia.
    by rewrite Hq, Hr. }
  pose proof (Byte.of_to_N b1) as H1. rewrite E, Byte.of_to_N in H1.
  by injection H1.
Qed.

Lemma byte_digits_bounded (b : Byte.byte) :
  (Byte.to_N b / 16 < 16)%N ∧ (Byte.to_N b mod 16 < 16)%N.
Proof.
  pose proof (Byte.to_N_bounded b). split.
  - apply N.Div0.div_lt_upper_bound. lia.
  - apply N.mod_upper_bound. lia.
Qed.

Lemma toHex_inj (a b : list Byte.byte) : toHex a = toHex b → a = b.
Proof.
  revert b. induction a as [|x a IH]; intros [|y b]; cbn [toHex]; try done.
  intros [= H1 H2 H3].
  destruct (byte_digits_bounded x) as [Hx1 Hx2].
  destruct (byte_digits_bounded y) as [Hy1 Hy2].
  apply (f_equal hexVal) in H1, H2. rewrite !hexVal_hexDigit in H1, H2 by done.
  f_equal; [by apply byte_of_digits|by apply IH].
Qed.

Lemma toHex_length (buf : list Byte.byte) :
  String.length (toHex buf) = (2 * length buf)%nat.
Proof. induction buf as [|b buf IH]; cbn [toHex String.length length]; lia. Qed.

Lemma hexDigit_lower (n : N) :
  hexDigit n ∈ list_ascii_of_string "0123456789abcdef".
Proof.
  apply (bool_decide_unpack _).
  destruct n as [|p]; [reflexivity|].
  do 5 (try destruct p as [p|p|]); reflexivity.
Qed.

Lemma hexDigit_upper_alphabet (n : N) :
  upperChar (hexDigit n) ∈ list_ascii_of_string "0123456789ABCDEF".
Proof.
  apply (bool_decide_unpack _).
  destruct n as [|p]; [reflexivity|].
  do 5 (try destruct p as [p|p|]); reflexivity.
Qed.

(** X1: a generated room code has six characters, all upper-case
    hexadecimal digits; it passes the test the connection handler applies
    to unknown room identifiers, and it is never the global identifier. *)
Theorem generateRoomCode_shape (rnd : Byte.byte * Byte.byte * Byte.byte) :
  String.length (generateRoomCode rnd) = 6%nat
  ∧ charsIn "0123456789ABCDEF" (generateRoomCode rnd)
  ∧ looksLikeCode (generateRoomCode rnd) = true
  ∧ generateRoomCode rnd ≠ GLOBAL_ROOM_ID.
Proof.
  split_and!.
  - by destruct rnd as [[b0 b1] b2].
  - destruct rnd as [[b0 b1] b2]. unfold charsIn, generateRoomCode.
    cbn [toHex toUpperCase list_ascii_of_string].
    repeat (apply Forall_cons; split; [apply hexDigit_upper_alphabet|]).
    apply Forall_nil_2.
  - apply generateRoomCode_looksLikeCode.
  - intros E. pose proof (generateRoomCode_looksLikeCode rnd) as H.
    rewrite E in H. discriminate H.
Qed.

(** X2: different random bytes give different room codes. *)
Theorem generateRoomCode_injective
    (rnd1 rnd2 : Byte.byte * Byte.byte * Byte.byte) :
  generateRoomCode rnd1 = generateRoomCode rnd2 → rnd1 = rnd2.
Proof.
  destruct rnd1 as [[a0 a1] a2], rnd2 as [[b0 b1] b2].
  unfold generateRoomCode. cbn [toHex toUpperCase].
  intros [= H1 H2 H3 H4 H5 H6].
  repeat match goal with
         | H : upperChar _ = upperChar _ |- _ =>
             apply (f_equal hexVal) in H;
             rewrite !hexVal_upper_hexDigit in H by apply byte_digits_bounded
         end.
  by rewrite (byte_of_digits a0 b0), (byte_of_digits a1 b1),
    (byte_of_digits a2 b2).
Qed.

(** X3: a user identifier has two lower-case hexadecimal digits per random
    byte, and different random bytes give different identifiers. *)
Theorem generateUserId_shape (rnd rnd' : list Byte.byte) :
  String.length (generateUserId rnd) = (2 * length rnd)%nat
  ∧ charsIn "0123456789abcdef" (generateUserId rnd)
  ∧ (generateUserId rnd = generateUserId rnd' → rnd = rnd').
Proof.
  unfold generateUserId. split_and!.
  - apply toHex_length.
  - unfold charsIn. induction rnd as [|b rnd IH];
      cbn [toHex list_ascii_of_string]; [apply Forall_nil_2|].
    repeat (apply Forall_cons; split; [apply hexDigit_lower|]). exact IH.
  - apply toHex_inj.
Qed.

Lemma userId_not_bot (rnd : list Byte.byte) :
  length rnd = 8%nat → generateUserId rnd ∉ bot_id <$> bots.
Proof.
  intros Hlen Hin. pose proof (toHex_length rnd) as H. rewrite Hlen in H.
  unfold generateUserId in Hin. cbn in Hin.
  repeat (apply elem_of_cons in Hin as [Hin|Hin];
          [rewrite Hin in H; discriminate H|]).
  by apply elem_of_nil in Hin.
Qed.

(** ** More on the participant map *)

Lemma length_set {V : Type} (k : string) (v : V) (m : JSMap.t V) :
  length (JSMap.set k v m)
  = match JSMap.get k m with
    | Some _ => length m
    | None => S (length m)
    end.
Proof.
  unfold JSMap.get. induction m as [|[k' v'] m IH]; cbn [JSMap.set assoc]; [done|].
  destruct (decide (k = k')) as [->|Hne]; [done|].
  cbn [length]. rewrite IH. by destruct (assoc k m).
Qed.

Lemma keys_set_present {V : Type} (k : string) (v : V) (m : JSMap.t V) :
  is_Some (JSMap.get k m) → (JSMap.set k v m).*1 = m.*1.
Proof.
  unfold JSMap.get. induction m as [|[k' v'] m IH]; cbn [JSMap.set assoc].
  - by intros [? ?].
  - destruct (decide (k = k')) as [->|Hne]; [done|].
    intros H. rewrite !fmap_cons. by rewrite IH.
Qed.

Lemma set_fresh {V : Type} (k : string) (v : V) (m : JSMap.t V) :
  JSMap.get k m = None → JSMap.set k v m = m ++ [(k, v)].
Proof.
  unfold JSMap.get. induction m as [|[k' v'] m IH]; cbn [JSMap.set assoc]; [done|].
  destruct (decide (k = k')) as [->|Hne]; [done|].
  intros H. by rewrite IH.
Qed.

Lemma delete_fresh {V : Type} (k : string) (m : JSMap.t V) :
  JSMap.get k m = None → JSMap.delete k m = m.
Proof.
  unfold JSMap.get. induction m as [|[k' v'] m IH]; cbn [JSMap.delete assoc]; [done|].
  destruct (decide (k = k')) as [->|Hne]; [done|].
  intros H. by rewrite IH.
Qed.

Lemma delete_set_fresh {V : Type} (k : string) (v : V) (m : JSMap.t V) :
  JSMap.get k m = None → JSMap.delete k (JSMap.set k v m) = m.
Proof.
  unfold JSMap.get. induction m as [|[k' v'] m IH]; cbn [JSMap.set JSMap.delete assoc].
  - by rewrite decide_True.
  - destruct (decide (k = k')) as [->|Hne]; [done|].
    intros H. cbn [JSMap.delete]. rewrite decide_False by done. by rewrite IH.
Qed.

Lemma delete_delete {V : Type} (k : string) (m : JSMap.t V) :
  JSMap.delete k (JSMap.delete k m) = JSMap.delete k m.
Proof. apply delete_fresh, get_delete_eq. Qed.

Lemma setUsers_same (room : Room) : setUsers (users room) room = room.
Proof. by destruct room. Qed.

(** ** More on the HTTP handlers *)

Lemma postRooms_state (JSON_parse : string → option json) (reqBody : string)
    (now : Z) (rnd : Byte.byte * Byte.byte * Byte.byte) (s : Server) :
  (postRooms JSON_parse reqBody now rnd s).1 = s
  ∨ ∃ roomName,
      (postRooms JSON_parse reqBody now rnd s).1
      = setNewRoom (generateRoomCode rnd)
          (mkRoom JSMap.empty now roomName false) s.
Proof.
  unfold postRooms. destruct (JSON_parse _) as [data|]; [|by left].
  destruct (getProp "name" data) as [dataName|]; [|by left].
  right. by eexists.
Qed.

Lemma handleRequest_state (JSON_parse : string → option json) (req : Request)
    (now : Z) (rnd : Byte.byte * Byte.byte * Byte.byte) (s : Server) :
  (handleRequest JSON_parse req now rnd s).1 = s
  ∨ (url req = "/api/rooms"%string ∧ method req = "POST"%string
     ∧ ∃ roomName,
         (handleRequest JSON_parse req now rnd s).1
         = setNewRoom (generateRoomCode rnd)
             (mkRoom JSMap.empty now roomName false) s).
Proof.
  unfold handleRequest.
  destruct (decide (method req = "OPTIONS"%string)); [by left|].
  destruct (decide (url req = "/health"%string)); [by left|].
  case_bool_decide as Hu; cbn [andb].
  - case_bool_decide as Hm; cbn [andb].
    + destruct (postRooms_state JSON_parse (reqBody req) now rnd s) as [E|E];
        [by left|by right].
    + left. by destruct (_ && _).
  - left. by destruct (_ && _).
Qed.

(** X4: whatever the request, the HTTP listener leaves the state as it is
    unless the request is a [POST] to [/api/rooms]; and even then no room
    object is modified, no identifier other than the generated code is
    registered, removed or redirected, and the global room stays as it
    is. *)
Theorem handleRequest_frame (JSON_parse : string → option json) (req : Request)
    (now : Z) (rnd : Byte.byte * Byte.byte * Byte.byte) (s : Server) :
  wf s →
  let s' := (handleRequest JSON_parse req now rnd s).1 in
  (url req ≠ "/api/rooms"%string ∨ method req ≠ "POST"%string → s' = s)
  ∧ (∀ l room, heap s !! l = Some room → heap s' !! l = Some room)
  ∧ (∀ roomId, roomId ≠ generateRoomCode rnd →
               rooms s' !! roomId = rooms s !! roomId
               ∧ getRoom s' roomId = getRoom s roomId)
  ∧ getRoom s' GLOBAL_ROOM_ID = getRoom s GLOBAL_ROOM_ID.
Proof.
  intros Hwf s'. unfold s'.
  assert (GLOBAL_ROOM_ID ≠ generateRoomCode rnd) as Hglobal.
  { intros E. pose proof (generateRoomCode_looksLikeCode rnd) as H.
    rewrite <- E in H. discriminate H. }
  destruct (handleRequest_state JSON_parse req now rnd s)
    as [->|(Hu & Hm & roomName & ->)].
  - done.
  - split_and!.
    + by intros [?|?].
    + intros l room Hl. rewrite heap_setNewRoom_old; [done|by eexists].
    + intros roomId Hne. apply getRoom_setNewRoom_ne; [|done].
      intros l. apply (wf_alloc s Hwf).
    + apply getRoom_setNewRoom_ne; [|done]. intros l. apply (wf_alloc s Hwf).
Qed.

Lemma splitOn_no_separator (sep : ascii) (str : string) :
  sep ∉ list_ascii_of_string str → splitOn sep str = [str].
Proof.
  induction str as [|c str IH]; cbn [splitOn list_ascii_of_string]; [done|].
  intros Hnot. apply not_elem_of_cons in Hnot as [Hc Hstr].
  rewrite decide_False by done. by rewrite IH.
Qed.

Lemma api_rooms_url (id : string) :
  "/api/rooms/" +:+ id
  = String "/" (String "a" (String "p" (String "i" (String "/"
      (String "r" (String "o" (String "o" (String "m" (String "s"
        (String "/" id)))))))))).
Proof. reflexivity. Qed.

Lemma lookup_url_segment (id : string) :
  "/"%char ∉ list_ascii_of_string id →
  splitOn "/" ("/api/rooms/" +:+ id) !! 3%nat = Some id.
Proof.
  intros Hid. rewrite api_rooms_url. cbn [splitOn].
  rewrite (splitOn_no_separator _ _ Hid).
  repeat (rewrite decide_True by done || rewrite decide_False by done).
  reflexivity.
Qed.

(** X5: [GET /api/rooms/<id>], for an identifier without a slash, is
    answered with status 200 and the statistics of the room when the
    identifier is registered, and with status 404 and "Room not found"
    otherwise; the state is unchanged. *)
Theorem getRoomById_lookup (JSON_parse : string → option json) (id : string)
    (now : Z) (rnd : Byte.byte * Byte.byte * Byte.byte) (s : Server) :
  "/"%char ∉ list_ascii_of_string id →
  handleRequest JSON_parse
    (mkRequest "GET" ("/api/rooms/" +:+ id) EmptyString) now rnd s
  = (s, match getRoomStats s id with
        | Some stats => mkResponse 200 (StatsBody stats)
        | None => mkResponse 404 (ErrorBody "Room not found")
        end)
  ∧ (is_Some (getRoomStats s id) ↔ is_Some (getRoom s id)).
Proof.
  intros Hid. split.
  - unfold handleRequest. cbn [method url].
    rewrite decide_False by done. rewrite decide_False by done.
    rewrite (bool_decide_eq_false_2 (_ = "/api/rooms"%string))
      by (rewrite api_rooms_url; intros [= E]).
    cbn [andb].
    assert (String.prefix "/api/rooms/" ("/api/rooms/" +:+ id) = true) as ->.
    { rewrite api_rooms_url. apply prefix_correct. cbn. by destruct id. }
    rewrite bool_decide_eq_true_2 by done. cbn [andb].
    unfold getRoomById. rewrite (lookup_url_segment id Hid).
    change (default EmptyString (Some id)) with id.
    unfold getRoomStats. by destruct (getRoom s id).
  - unfold getRoomStats. destruct (getRoom s id) as [room|].
    + split; intros _; eexists; reflexivity.
    + split; intros [x Hx]; discriminate Hx.
Qed.

(** ** Joining and leaving *)

Lemma heap_storeRoom_eq (l : loc) (r : Room) (s : Server) :
  heap (storeRoom l r s) !! l = Some r.
Proof. unfold storeRoom. cbn [heap]. apply lookup_insert_eq. Qed.

Lemma heap_storeRoom_ne (l l' : loc) (r : Room) (s : Server) :
  l' ≠ l → heap (storeRoom l r s) !! l' = heap s !! l'.
Proof. intros Hne. unfold storeRoom. cbn [heap]. by apply lookup_insert_ne. Qed.

Lemma storeRoom_storeRoom (l : loc) (r r' : Room) (s : Server) :
  storeRoom l r (storeRoom l r' s) = storeRoom l r s.
Proof. unfold storeRoom. cbn [heap rooms]. f_equal. apply insert_insert_eq. Qed.

Lemma storeRoom_same (l : loc) (r : Room) (s : Server) :
  heap s !! l = Some r → storeRoom l r s = s.
Proof.
  intros H. destruct s as [h reg]. unfold storeRoom. cbn [heap rooms] in *.
  f_equal. by apply insert_id.
Qed.

Lemma onClose_present (c : Conn) (s : Server) (room : Room) :
  heap s !! conn_room c = Some room →
  onClose c s
  = storeRoom (conn_room c)
      (setUsers (JSMap.delete (conn_userId c) (users room)) room) s.
Proof. intros H. unfold onClose. by rewrite H. Qed.

Lemma onConnection_inv (sock : socket) (roomParam nameParam : option string)
    (now : Z) (rnd : list Byte.byte) (s s' : Server) (c : Conn) :
  onConnection sock roomParam nameParam now rnd s = Some (s', c) →
  let s1 := (resolveRoom roomParam now s).1 in
  let roomId := (resolveRoom roomParam now s).2 in
  ∃ (l : loc) (room1 : Room),
    rooms s1 !! roomId = Some l
    ∧ heap s1 !! l = Some room1
    ∧ c = mkConn sock roomId l (generateUserId rnd)
    ∧ s' = storeRoom l
             (setUsers
                (JSMap.set (generateUserId rnd)
                   (mkUser (of_Z 50) (Some sock) false
                      (or_else (JString <$> nameParam) JNull))
                   (users room1)) room1) s1.
Proof.
  unfold onConnection. destruct (resolveRoom roomParam now s) as [s1 roomId].
  cbn [fst snd]. destruct (rooms s1 !! roomId) as [l|] eqn:Hl; [|done].
  cbn [mbind option_bind]. destruct (heap s1 !! l) as [room1|] eqn:Hroom; [|done].
  intros [= <- <-]. by exists l, room1.
Qed.

(** X6: a join stores, under the new user identifier, a participant with
    value 50, the connection's socket, the bot flag unset and the name
    given (none when the parameter is missing or empty); the other
    participants of the room are untouched.  There is no check that the
    identifier is new: the table grows by one entry when it is, and an
    existing entry with the same identifier is overwritten when it is
    not. *)
Theorem onConnection_adds_participant (sock : socket)
    (roomParam nameParam : option string) (now : Z) (rnd : list Byte.byte)
    (s s' : Server) (c : Conn) :
  onConnection sock roomParam nameParam now rnd s = Some (s', c) →
  ∃ room1 room' : Room,
    heap (resolveRoom roomParam now s).1 !! conn_room c = Some room1
    ∧ rooms s' !! conn_roomId c = Some (conn_room c)
    ∧ heap s' !! conn_room c = Some room'
    ∧ conn_ws c = sock
    ∧ conn_userId c = generateUserId rnd
    ∧ JSMap.get (conn_userId c) (users room')
      = Some (mkUser (of_Z 50) (Some sock) false
                (match nameParam with
                 | Some n => if decide (n = EmptyString) then JNull else JString n
                 | None => JNull
                 end))
    ∧ (∀ id, id ≠ conn_userId c →
             JSMap.get id (users room') = JSMap.get id (users room1))
    ∧ length (users room')
      = match JSMap.get (conn_userId c) (users room1) with
        | Some _ => length (users room1)
        | None => S (length (users room1))
        end
    ∧ createdAt room' = createdAt room1
    ∧ name room' = name room1.
Proof.
  intros Hconn. destruct (onConnection_inv _ _ _ _ _ _ _ _ Hconn)
    as (l & room1 & Hl & Hroom & -> & ->). cbn [conn_room conn_roomId conn_userId conn_ws].
  eexists room1, _. split_and!.
  - exact Hroom.
  - exact Hl.
  - unfold storeRoom. cbn [heap]. apply lookup_insert_eq.
  - reflexivity.
  - reflexivity.
  - cbn [users setUsers]. rewrite get_set_eq. do 2 f_equal.
    destruct nameParam as [n|]; [|done]. cbn [fmap option_fmap option_map or_else truthy].
    destruct (decide (n = EmptyString)) as [->|Hn]; [done|].
    by rewrite bool_decide_eq_false_2.
  - intros id Hne. cbn [users setUsers]. by apply get_set_ne.
  - cbn [users setUsers]. apply length_set.
  - reflexivity.
  - reflexivity.
Qed.

(** X7: a join under a new identifier followed by the close of that
    connection gives back the state reached after room resolution: the
    participant table is as before, in the same order (a room created by
    the join stays). *)
Theorem join_then_close (sock : socket) (roomParam nameParam : option string)
    (now : Z) (rnd : list Byte.byte) (s s' : Server) (c : Conn) (room1 : Room) :
  onConnection sock roomParam nameParam now rnd s = Some (s', c) →
  heap (resolveRoom roomParam now s).1 !! conn_room c = Some room1 →
  JSMap.get (generateUserId rnd) (users room1) = None →
  onClose c s' = (resolveRoom roomParam now s).1.
Proof.
  intros Hconn Hroom1 Hfresh. destruct (onConnection_inv _ _ _ _ _ _ _ _ Hconn)
    as (l & room1' & Hl & Hroom & -> & ->). cbn [conn_room] in Hroom1.
  rewrite Hroom in Hroom1. injection Hroom1 as ->.
  erewrite onClose_present by apply heap_storeRoom_eq.
  cbn [conn_room conn_userId users setUsers].
  rewrite delete_set_fresh by done. rewrite storeRoom_storeRoom.
  apply storeRoom_same. rewrite Hroom. f_equal. by destruct room1.
Qed.

(** X8: closing a connection twice is the same as closing it once. *)
Theorem onClose_idempotent (c : Conn) (s : Server) :
  onClose c (onClose c s) = onClose c s.
Proof.
  destruct (heap s !! conn_room c) as [room|] eqn:Hroom.
  - rewrite (onClose_present c s room Hroom).
    erewrite onClose_present by apply heap_storeRoom_eq.
    cbn [users setUsers]. by rewrite delete_delete, storeRoom_storeRoom.
  - unfold onClose. by rewrite Hroom, Hroom.
Qed.

(** ** Messages *)

Lemma applyUpdate_not_update (c : Conn) (message : json) (s : Server) :
  (∀ n, ¬ (getProp "type" message = Some (Some (JString "update"))
           ∧ getProp "boredom" message = Some (Some (JNumber n)))) →
  applyUpdate c message s = s.
Proof.
  intros H. unfold applyUpdate.
  destruct (getProp "type" message) as [[[]|]|]; try done.
  destruct (getProp "boredom" message) as [[[]|]|]; try done.
  case_decide as E; [|done]. subst. exfalso. by eapply H.
Qed.

Lemma applySetName_not_applicable (c : Conn) (message : json) (s : Server) :
  (∀ nm, ¬ (getProp "type" message = Some (Some (JString "setName"))
            ∧ getProp "name" message = Some (Some nm)
            ∧ truthy nm = true
            ∧ is_Some (slice20 nm))) →
  applySetName c message s = s.
Proof.
  intros H. unfold applySetName.
  destruct (getProp "type" message) as [[[]|]|]; try done.
  destruct (getProp "name" message) as [[nm|]|]; try done.
  case_bool_decide as E; [|done]. cbn [andb].
  destruct (truthy nm) eqn:Ht; [|done].
  destruct (heap s !! conn_room c); [|done].
  destruct (JSMap.get _ _); [|done].
  destruct (slice20 nm) eqn:Hs; [|done].
  subst. exfalso. eapply H. split_and!; done.
Qed.

(** X9: the [message] handler leaves the state as it is when the text
    does not parse; when the message is [null] or its [type] is neither
    "update" nor "setName"; when an update's [boredom] is missing or not
    a number; and when a name is missing, falsy, or a truthy value that
    is neither a string nor an array (the [TypeError] is caught). *)
Theorem onMessage_ignored (JSON_parse : string → option json) (c : Conn)
    (data : string) (s : Server) :
  JSON_parse data = None
  ∨ (∃ message, JSON_parse data = Some message
      ∧ ((∀ ty, getProp "type" message = Some (Some (JString ty)) →
                ty ≠ "update"%string ∧ ty ≠ "setName"%string)
         ∨ (getProp "type" message = Some (Some (JString "update"))
            ∧ ∀ n, getProp "boredom" message ≠ Some (Some (JNumber n)))
         ∨ (getProp "type" message = Some (Some (JString "setName"))
            ∧ ∀ nm, getProp "name" message = Some (Some nm) →
                    truthy nm = false
                    ∨ match nm with
                      | JString _ | JArray _ => False
                      | _ => True
                      end))) →
  onMessage JSON_parse c data s = s.
Proof.
  intros [Hparse|(message & Hparse & Hcase)]; unfold onMessage; rewrite Hparse;
    [done|].
  rewrite applyUpdate_not_update.
  - apply applySetName_not_applicable. intros nm (Hty & Hnm & Ht & Hs).
    destruct Hcase as [H|[[H _]|[_ H]]].
    + destruct (H _ Hty) as [_ ?]. done.
    + rewrite Hty in H. done.
    + destruct (H nm Hnm) as [H'|H']; [by rewrite Ht in H'|].
      destruct nm; try done; by destruct Hs.
  - intros n [Hty Hb]. destruct Hcase as [H|[[_ H]|[H _]]].
    + destruct (H _ Hty) as [? _]. done.
    + by eapply H.
    + rewrite Hty in H. done.
Qed.

Lemma substring_0_length (n : nat) (str : string) :
  String.length (String.substring 0 n str) = (n `min` String.length str)%nat.
Proof.
  revert n. induction str as [|a str IH]; intros [|n]; cbn; try done.
  by rewrite IH.
Qed.

Lemma utf16_length_highSurrogate (a : ascii) (rest : string) :
  utf16_length (highSurrogate a rest) = 1%nat.
Proof.
  assert (∀ x : N, isContinuation (ascii_of_N (128 + N.land x 63)) = true) as Hc.
  { intros x. unfold isContinuation.
    assert (N.land x 63 < 64)%N as Hlt.
    { change 63%N with (N.ones 6). rewrite N.land_ones. by apply N.mod_lt. }
    unfold nat_of_ascii. rewrite N_ascii_embedding by lia.
    apply andb_true_iff. split.
    - apply Nat.leb_le. lia.
    - apply Nat.ltb_lt. lia. }
  unfold highSurrogate. cbn zeta. cbn [utf16_length]. unfold codeUnits at 2 3.
  rewrite !Hc. reflexivity.
Qed.

Lemma utf16_length_slice (n : nat) (str : string) :
  utf16_length (slice n str) = (n `min` utf16_length str)%nat.
Proof.
  revert n. induction str as [|a str IH]; intros n; cbn [slice utf16_length].
  - lia.
  - unfold codeUnits. destruct (isContinuation a) eqn:Hc.
    + cbn [utf16_length]. unfold codeUnits. rewrite Hc, IH. lia.
    + destruct (nat_of_ascii a <? 240)%nat eqn:Hl.
      * destruct n as [|n]; cbn [Nat.leb]; [done|].
        cbn [utf16_length]. unfold codeUnits. rewrite Hc, Hl, IH. lia.
      * destruct n as [|[|n]]; cbn [Nat.leb]; [done| |].
        -- rewrite utf16_length_highSurrogate. lia.
        -- cbn [utf16_length]. unfold codeUnits. rewrite Hc, Hl, IH. lia.
Qed.

Lemma slice_all (n : nat) (str : string) :
  (utf16_length str ≤ n)%nat → slice n str = str.
Proof.
  revert n. induction str as [|a str IH]; intros n; cbn [slice utf16_length];
    [done|].
  intros Hn. destruct (isContinuation a) eqn:Hc.
  - rewrite IH; [done|]. unfold codeUnits in Hn. rewrite Hc in Hn. lia.
  - rewrite (proj2 (Nat.leb_le _ _)) by lia. rewrite IH; [done|lia].
Qed.

Lemma slice_prefix (n : nat) (str : string) :
  inBasicPlane str = true → String.prefix (slice n str) str = true.
Proof.
  intros Hb. apply prefix_correct. revert n Hb.
  induction str as [|a str IH]; intros n Hb; cbn [slice]; [done|].
  cbn [inBasicPlane] in Hb. apply andb_true_iff in Hb as [Hl Hb].
  destruct (isContinuation a) eqn:Hc.
  - cbn [String.length String.substring]. by rewrite IH.
  - unfold codeUnits. rewrite Hc, Hl. destruct n as [|n]; cbn [Nat.leb]; [done|].
    cbn [String.length String.substring]. by rewrite IH.
Qed.

Lemma slice_ascii (n : nat) (str : string) :
  isAscii str = true → slice n str = String.substring 0 n str.
Proof.
  revert n. induction str as [|a str IH]; intros n Ha; cbn [slice].
  - by destruct n.
  - cbn [isAscii] in Ha. apply andb_true_iff in Ha as [Hl Ha].
    apply Nat.ltb_lt in Hl.
    assert (isContinuation a = false) as Hc.
    { unfold isContinuation. apply andb_false_iff. left. apply Nat.leb_gt. lia. }
    unfold codeUnits. rewrite Hc.
    rewrite (proj2 (Nat.ltb_lt _ _)) by lia.
    destruct n as [|n]; cbn [Nat.leb String.substring]; [done|].
    replace (S n - 1)%nat with n by lia. by rewrite IH.
Qed.

(** X10: a [setName] message with a non-empty string stores its first 20
    UTF-16 code units as the participant's name: the whole name when it
    has at most 20 code units, a prefix of the name when the name holds
    no surrogate pair, its first 20 characters when it is ASCII text.  The
    value, the socket and the bot flag of the participant, and the other
    participants, are untouched. *)
Theorem setName_truncates (JSON_parse : string → option json) (c : Conn)
    (data : string) (message : json) (nm : string) (s : Server)
    (room : Room) (user : User) :
  JSON_parse data = Some message →
  getProp "type" message = Some (Some (JString "setName")) →
  getProp "name" message = Some (Some (JString nm)) →
  nm ≠ EmptyString →
  heap s !! conn_room c = Some room →
  JSMap.get (conn_userId c) (users room) = Some user →
  ∃ (room' : Room) (stored : string),
    heap (onMessage JSON_parse c data s) !! conn_room c = Some room'
    ∧ JSMap.get (conn_userId c) (users room')
      = Some (mkUser (boredom user) (ws user) (isBot user) (JString stored))
    ∧ stored = slice 20 nm
    ∧ utf16_length stored = (20 `min` utf16_length nm)%nat
    ∧ ((utf16_length nm ≤ 20)%nat → stored = nm)
    ∧ (inBasicPlane nm = true → String.prefix stored nm = true)
    ∧ (isAscii nm = true →
       stored = String.substring 0 20 nm
       ∧ String.length stored = (20 `min` String.length nm)%nat)
    ∧ ∀ id, id ≠ conn_userId c →
            JSMap.get id (users room') = JSMap.get id (users room).
Proof.
  intros Hparse Hty Hnm Hne Hroom Huser. unfold onMessage. rewrite Hparse.
  rewrite applyUpdate_not_update by (intros n [H _]; rewrite Hty in H; done).
  unfold applySetName. rewrite Hty, Hnm, Hroom, Huser.
  rewrite bool_decide_eq_true_2 by done. cbn [andb truthy negb slice20].
  rewrite bool_decide_eq_false_2 by done. cbn [negb].
  eexists _, (slice 20 nm). split_and!.
  - apply heap_storeRoom_eq.
  - cbn [users setUsers]. apply get_set_eq.
  - reflexivity.
  - apply utf16_length_slice.
  - apply slice_all.
  - apply slice_prefix.
  - intros Ha. rewrite (slice_ascii 20 nm Ha). split; [done|].
    apply substring_0_length.
  - intros id Hid. cbn [users setUsers]. by apply get_set_ne.
Qed.

Lemma roomFrame_refl (userId : string) (room : Room) :
  roomFrame userId room room.
Proof. unfold roomFrame. split_and!; try done. intros u Hu. by exists u. Qed.

Lemma roomFrame_trans (userId : string) (r1 r2 r3 : Room) :
  roomFrame userId r1 r2 → roomFrame userId r2 r3 → roomFrame userId r1 r3.
Proof.
  intros (K1 & C1 & N1 & G1 & O1 & U1) (K2 & C2 & N2 & G2 & O2 & U2).
  unfold roomFrame. split_and!; try congruence.
  - intros id Hid. by rewrite O2, O1.
  - intros u Hu. destruct (U1 u Hu) as (u' & Hu' & W1 & B1).
    destruct (U2 u' Hu') as (u'' & Hu'' & W2 & B2).
    exists u''. split_and!; congruence.
Qed.

Lemma roomFrame_set (userId : string) (room : Room) (u v : User) :
  JSMap.get userId (users room) = Some u →
  ws v = ws u → isBot v = isBot u →
  roomFrame userId room (setUsers (JSMap.set userId v (users room)) room).
Proof.
  intros Hu Hws Hbot. unfold roomFrame. cbn [users setUsers createdAt name isGlobal].
  split_and!; try done.
  - apply keys_set_present. by eexists.
  - intros id Hid. by apply get_set_ne.
  - intros u0 Hu0. rewrite Hu in Hu0. injection Hu0 as <-.
    exists v. by rewrite get_set_eq.
Qed.

Lemma messageFrame_refl (c : Conn) (s : Server) : messageFrame c s s.
Proof.
  unfold messageFrame. split_and!; try done.
  destruct (heap s !! conn_room c) as [room|] eqn:E; [|done].
  exists room. split; [done|apply roomFrame_refl].
Qed.

Lemma messageFrame_trans (c : Conn) (s1 s2 s3 : Server) :
  messageFrame c s1 s2 → messageFrame c s2 s3 → messageFrame c s1 s3.
Proof.
  intros (R1 & O1 & H1) (R2 & O2 & H2). unfold messageFrame. split_and!.
  - congruence.
  - intros l Hl. by rewrite O2, O1.
  - destruct (heap s1 !! conn_room c) as [room|].
    + destruct H1 as (room' & E1 & F1). rewrite E1 in H2.
      destruct H2 as (room'' & E2 & F2). exists room''.
      split; [done|by eapply roomFrame_trans].
    + by rewrite H1 in H2.
Qed.

Lemma messageFrame_store (c : Conn) (s : Server) (room : Room) (u v : User) :
  heap s !! conn_room c = Some room →
  JSMap.get (conn_userId c) (users room) = Some u →
  ws v = ws u → isBot v = isBot u →
  messageFrame c s
    (storeRoom (conn_room c)
       (setUsers (JSMap.set (conn_userId c) v (users room)) room) s).
Proof.
  intros Hroom Hu Hws Hbot. unfold messageFrame. split_and!.
  - reflexivity.
  - intros l Hl. by apply heap_storeRoom_ne.
  - rewrite Hroom. eexists. split; [apply heap_storeRoom_eq|].
    by eapply roomFrame_set.
Qed.

Lemma applyUpdate_frame (c : Conn) (message : json) (s : Server) :
  messageFrame c s (applyUpdate c message s).
Proof.
  unfold applyUpdate.
  destruct (getProp "type" message) as [[[]|]|]; try apply messageFrame_refl.
  destruct (getProp "boredom" message) as [[[]|]|]; try apply messageFrame_refl.
  case_decide; [|apply messageFrame_refl].
  destruct (heap s !! conn_room c) as [room|] eqn:Hroom; [|apply messageFrame_refl].
  destruct (JSMap.get _ _) as [user|] eqn:Huser; [|apply messageFrame_refl].
  by eapply messageFrame_store.
Qed.

Lemma applySetName_frame (c : Conn) (message : json) (s : Server) :
  messageFrame c s (applySetName c message s).
Proof.
  unfold applySetName.
  destruct (getProp "type" message) as [[[]|]|]; try apply messageFrame_refl.
  destruct (getProp "name" message) as [[nm|]|]; try apply messageFrame_refl.
  destruct (_ && _); [|apply messageFrame_refl].
  destruct (heap s !! conn_room c) as [room|] eqn:Hroom; [|apply messageFrame_refl].
  destruct (JSMap.get _ _) as [user|] eqn:Huser; [|apply messageFrame_refl].
  destruct (slice20 nm); [|apply messageFrame_refl].
  by eapply messageFrame_store.
Qed.

(** X11: whatever the text received, the [message] handler of a
    connection never changes the registry, never touches a room object
    other than the one the connection joined, and in that one keeps the
    participants and their order, the room's name and creation time,
    every other participant's entry, and the socket and bot flag of the
    connection's own participant. *)
Theorem onMessage_frame (JSON_parse : string → option json) (c : Conn)
    (data : string) (s : Server) :
  messageFrame c s (onMessage JSON_parse c data s).
Proof.
  unfold onMessage. destruct (JSON_parse data) as [message|];
    [|apply messageFrame_refl].
  eapply messageFrame_trans; [apply applyUpdate_frame|apply applySetName_frame].
Qed.

Lemma messageFrame_count (c : Conn) (s s' : Server) (roomId : string) :
  messageFrame c s s' →
  count <$> getRoomStats s' roomId = count <$> getRoomStats s roomId.
Proof.
  intros (R & O & H). unfold getRoomStats, getRoom. rewrite R.
  destruct (rooms s !! roomId) as [l|]; [|done]. cbn [mbind option_bind].
  destruct (decide (l = conn_room c)) as [->|Hne].
  - destruct (heap s !! conn_room c) as [room|].
    + destruct H as (room' & -> & K & _). cbn. unfold JSMap.entries.
      rewrite !length_fmap. f_equal.
      rewrite <- (length_fmap fst (users room')), K. apply length_fmap.
    + by rewrite H.
  - by rewrite O.
Qed.

(** ** Broadcasts *)

Lemma broadcast_sends (isOpen : socket → bool) (message : Message)
    (m : JSMap.t User) :
  omap (λ e : string * User,
          match ws e.2 with
          | Some sock => if isOpen sock then Some (sock, message) else None
          | None => None
          end) m
  = (λ sock, (sock, message))
    <$> base.filter (λ sock, isOpen sock = true)
          (omap (λ e : string * User, ws e.2) m).
Proof.
  induction m as [|e m IH]; [done|]. cbn [omap list_omap].
  destruct (ws e.2) as [sock|]; [|exact IH].
  rewrite filter_cons. destruct (isOpen sock) eqn:Hopen.
  - rewrite decide_True by done. rewrite fmap_cons. by rewrite IH.
  - rewrite decide_False by done. exact IH.
Qed.

Lemma length_sockets (m : JSMap.t User) :
  length (omap (λ e : string * User, ws e.2) m)
  = length (base.filter (λ e : string * User, ws e.2 ≠ None) m).
Proof.
  induction m as [|e m IH]; [done|]. cbn [omap list_omap]. rewrite filter_cons.
  destruct (ws e.2) as [sock|].
  - rewrite decide_True by done. cbn [length]. by rewrite IH.
  - rewrite decide_False by (intros H; by apply H). exact IH.
Qed.

Lemma elem_of_sockets (sock : socket) (m : JSMap.t User) :
  sock ∈ omap (λ e : string * User, ws e.2) m →
  ∃ id u, (id, u) ∈ m ∧ ws u = Some sock.
Proof.
  intros H. apply list_elem_of_omap in H as ([id u] & Hin & Hws).
  by exists id, u.
Qed.

Lemma broadcastToRoom_present (isOpen : socket → bool) (s : Server)
    (roomId : string) (room : Room) :
  getRoom s roomId = Some room →
  ∃ st : Stats,
    getRoomStats s roomId = Some st
    ∧ count st = length (users room)
    ∧ broadcastToRoom isOpen s roomId
      = (λ sock, (sock, StatsMessage (Some st))) <$> openSockets isOpen room.
Proof.
  intros Hroom.
  assert (∃ st, getRoomStats s roomId = Some st
                ∧ count st = length (users room)) as (st & Hst & Hcount).
  { unfold getRoomStats. rewrite Hroom. eexists. split; [reflexivity|].
    cbn [count]. unfold JSMap.entries. by rewrite length_fmap. }
  exists st. split_and!; try done.
  unfold broadcastToRoom. rewrite Hroom, Hst. cbn zeta. apply broadcast_sends.
Qed.

(** X12: a broadcast to an unregistered room sends nothing.  Otherwise
    one and the same message, the current statistics of the room
    registered under the identifier, goes to the sockets of that room's
    participants that have one and whose socket is open, in table order:
    never more sends than connection-backed participants, and none to a
    socket outside the room. *)
Theorem broadcastToRoom_recipients (isOpen : socket → bool) (s : Server)
    (roomId : string) :
  (getRoom s roomId = None → broadcastToRoom isOpen s roomId = [])
  ∧ ∀ room, getRoom s roomId = Some room →
      ∃ st : Stats,
        getRoomStats s roomId = Some st
        ∧ count st = length (users room)
        ∧ broadcastToRoom isOpen s roomId
          = (λ sock, (sock, StatsMessage (Some st)))
            <$> openSockets isOpen room
        ∧ (length (broadcastToRoom isOpen s roomId) ≤ liveCount room)%nat
        ∧ ∀ sock message,
            (sock, message) ∈ broadcastToRoom isOpen s roomId →
            message = StatsMessage (Some st)
            ∧ isOpen sock = true
            ∧ ∃ id u, (id, u) ∈ users room ∧ ws u = Some sock.
Proof.
  split.
  - intros H. unfold broadcastToRoom. by rewrite H.
  - intros room Hroom.
    destruct (broadcastToRoom_present isOpen s roomId room Hroom)
      as (st & Hst & Hcount & Hsends).
    exists st. split_and!; try done.
    + rewrite Hsends, length_fmap. unfold openSockets, liveCount.
      rewrite <- length_sockets. apply length_filter.
    + intros sock message Hin. rewrite Hsends in Hin.
      apply list_elem_of_fmap in Hin as (sock' & [= -> ->] & Hin).
      unfold openSockets in Hin. apply list_elem_of_filter in Hin as [Hopen Hin].
      split_and!; [done..|]. by apply elem_of_sockets.
Qed.

(** X13: in a state that satisfies the invariant a connection always
    succeeds; the first message goes to the new socket and is the
    welcome, whose statistics already count the newcomer, and it is
    followed by the broadcast to the room, which reaches the new socket
    again when that socket is open. *)
Theorem connectionSends_welcome (isOpen : socket → bool) (sock : socket)
    (roomParam nameParam : option string) (now : Z) (rnd : list Byte.byte)
    (s : Server) :
  wf s →
  ∃ (s' : Server) (c : Conn) (room' : Room) (st : Stats),
    onConnection sock roomParam nameParam now rnd s = Some (s', c)
    ∧ getRoom s' (conn_roomId c) = Some room'
    ∧ getRoomStats s' (conn_roomId c) = Some st
    ∧ connectionSends isOpen sock roomParam nameParam now rnd s
      = (sock,
         WelcomeMessage (conn_userId c) (conn_roomId c) (name room')
           (of_Z 50) (Some st))
        :: broadcastToRoom isOpen s' (conn_roomId c)
    ∧ count st = length (users room')
    ∧ (1 ≤ count st)%nat
    ∧ (∃ ind, ind ∈ individuals st ∧ ind_id ind = conn_userId c
              ∧ ind_boredom ind = of_Z 50 ∧ ind_isBot ind = false)
    ∧ (isOpen sock = true →
       (sock, StatsMessage (Some st))
       ∈ broadcastToRoom isOpen s' (conn_roomId c)).
Proof.
  intros Hwf.
  destruct (onConnection_succeeds sock roomParam nameParam now rnd s Hwf)
    as [[s' c] Hconn].
  destruct (onConnection_inv _ _ _ _ _ _ _ _ Hconn)
    as (l & room1 & Hl & Hroom1 & Hc & Hs').
  set (newUser := mkUser (of_Z 50) (Some sock) false
                    (or_else (JString <$> nameParam) JNull)) in *.
  set (room' := setUsers (JSMap.set (generateUserId rnd) newUser (users room1))
                  room1) in *.
  assert (heap s' !! l = Some room') as Hheap
    by (rewrite Hs'; apply heap_storeRoom_eq).
  assert (getRoom s' (conn_roomId c) = Some room') as Hget.
  { apply getRoom_Some. exists l. split; [|done]. by rewrite Hs', Hc. }
  assert (JSMap.get (generateUserId rnd) (users room') = Some newUser) as Hnew
    by apply get_set_eq.
  destruct (broadcastToRoom_present isOpen s' (conn_roomId c) room' Hget)
    as (st & Hst & Hcount & Hsends).
  exists s', c, room', st. split_and!; try done.
  - unfold connectionSends. rewrite Hconn. rewrite Hc at 1. cbn [conn_room].
    by rewrite Hheap, Hst.
  - rewrite Hcount. apply get_Some_elem in Hnew.
    destruct (users room'); [by apply elem_of_nil in Hnew|cbn; lia].
  - unfold getRoomStats in Hst. rewrite Hget in Hst. injection Hst as <-.
    cbn [individuals]. eexists. split.
    + apply list_elem_of_fmap. eexists. split; [reflexivity|].
      apply get_Some_elem, Hnew.
    + by rewrite Hc.
  - intros Hopen. rewrite Hsends. apply list_elem_of_fmap. exists sock.
    split; [done|]. unfold openSockets. apply list_elem_of_filter. split; [done|].
    apply list_elem_of_omap. exists (generateUserId rnd, newUser).
    split; [apply get_Some_elem, Hnew|done].
Qed.

(** ** Statistics in reachable states *)


(** X14: in every state that satisfies the invariant, the value reported
    for each participant is an integer between 0 and 100, and so is the
    average reported for a room of at most [2^24] participants, the
    capacity of a [Map]: the sum of a longer table could be rounded
    upwards at every addition. *)
Theorem getRoomStats_in_range (s : Server) (roomId : string) (st : Stats) :
  wf s →
  getRoomStats s roomId = Some st →
  ((Z.of_nat (count st) ≤ 2 ^ 24)%Z →
   ∃ z : Z, average st = of_Z z ∧ (0 ≤ z ≤ 100)%Z)
  ∧ Forall (λ ind, ∃ zi : Z, ind_boredom ind = of_Z zi ∧ (0 ≤ zi ≤ 100)%Z)
      (individuals st).
Proof.
  intros Hwf Hst. unfold getRoomStats in Hst.
  destruct (getRoom s roomId) as [room|] eqn:Hroom; [|done].
  injection Hst as <-. cbn [average individuals count].
  apply getRoom_Some in Hroom as (l & _ & Hroom).
  pose proof (wf_values s Hwf l room Hroom) as Hrange.
  destruct (valuesInRange_finite room Hrange) as (qs & Hqs & HF).
  unfold JSMap.entries, JSMap.values in *.
  rewrite <- list_fmap_compose in Hqs.
  change (map (λ e : string * User, boredom e.2) (users room))
    with ((boredom ∘ snd) <$> users room).
  rewrite Hqs, length_fmap. split.
  - intros Hbound. case_bool_decide as Hlen.
    + destruct (average_rounded qs) as (w & -> & Hw0 & Hw100 & _);
        [by destruct qs; [cbn in Hlen; lia|]|done|done|].
      cbn [Math_round]. eexists. split; [reflexivity|].
      by apply (rounds_to_range w); [..|apply round_Z_rounds].
    + exists 50%Z. split; [done|lia].
  - apply Forall_fmap, Forall_forall. intros [id u] Hin.
    unfold compose. cbn [ind_boredom snd].
    destruct (Hrange id u Hin) as (q & -> & H0 & H100). cbn [Math_round].
    eexists. split; [reflexivity|].
    by apply (rounds_to_range q); [..|apply round_Z_rounds].
Qed.

(** ** Successive sweeps *)

Lemma cleanup_lookup (now : Z) (s : Server) (roomId : string) :
  rooms (cleanup now s) !! roomId
  = match rooms s !! roomId with
    | Some l => if evicts now (heap s) roomId l then None else Some l
    | None => None
    end.
Proof.
  unfold cleanup. cbn [rooms].
  destruct (rooms s !! roomId) as [l|] eqn:E.
  - destruct (evicts now (heap s) roomId l) eqn:Hev.
    + apply (sweep_deletes _ _ _ _ _ l); [by apply elem_of_map_to_list|done].
    + rewrite sweep_keeps; [done|].
      intros l0 Hin. apply elem_of_map_to_list in Hin.
      rewrite E in Hin. by injection Hin as <-.
  - by apply sweep_stays_absent.
Qed.

Lemma evicts_later (now1 now2 : Z) (h : gmap loc Room) (roomId : string)
    (l : loc) :
  (now1 ≤ now2)%Z → evicts now1 h roomId l = true → evicts now2 h roomId l = true.
Proof.
  intros Hle. unfold evicts. case_decide; [done|].
  destruct (h !! l) as [room|]; [|done].
  rewrite !andb_true_iff, !bool_decide_eq_true. intros [? ?]. split; [done|lia].
Qed.

(** X15: a sweep after an earlier sweep leaves the same state as the
    later sweep alone; in particular sweeping twice at the same time is
    the same as sweeping once. *)
Theorem cleanup_cleanup (now1 now2 : Z) (s : Server) :
  (now1 ≤ now2)%Z →
  cleanup now2 (cleanup now1 s) = cleanup now2 s.
Proof.
  intros Hle.
  assert (rooms (cleanup now2 (cleanup now1 s)) = rooms (cleanup now2 s)) as E.
  { apply map_eq. intros k. rewrite !cleanup_lookup.
    change (heap (cleanup now1 s)) with (heap s).
    destruct (rooms s !! k) as [l|]; [|done].
    destruct (evicts now1 (heap s) k l) eqn:H1.
    - by rewrite (evicts_later now1 now2 _ _ _ Hle H1).
    - reflexivity. }
  unfold cleanup in *. cbn [heap rooms] in *. by rewrite E.
Qed.

(** ** The bots stay *)

Lemma running_reachable (JSON_parse : string → option json) (start : Z)
    (s : Server) (cs : list Conn) :
  running JSON_parse start s cs → reachable JSON_parse start s.
Proof.
  induction 1.
  - apply reach_initial.
  - by apply reach_botTick.
  - by apply reach_cleanup.
  - by apply reach_request.
  - by eapply reach_connection.
  - by apply reach_message.
  - by apply reach_close.
Qed.

Lemma botsPresent_initial (start : Z) : botsPresent (globalRoom start).
Proof.
  intros bot Hbot. unfold bots in Hbot.
  repeat (apply elem_of_cons in Hbot as [->|Hbot];
          [eexists; split; [vm_compute; reflexivity|done]|]).
  by apply elem_of_nil in Hbot.
Qed.

Lemma botsPresent_keep (room room' : Room) :
  botsPresent room →
  (∀ bot u, bot ∈ bots →
            JSMap.get (bot_id bot) (users room) = Some u →
            ∃ u', JSMap.get (bot_id bot) (users room') = Some u'
                  ∧ isBot u' = isBot u ∧ ws u' = ws u
                  ∧ userName u' = userName u) →
  botsPresent room'.
Proof.
  intros Hroom Hkeep bot Hbot.
  destruct (Hroom bot Hbot) as (u & Hu & Hb & Hw & Hn).
  destruct (Hkeep bot u Hbot Hu) as (u' & Hu' & Hb' & Hw' & Hn').
  exists u'. split_and!; congruence.
Qed.

Lemma botsPresent_other_key (room : Room) (m' : JSMap.t User) (k : string) :
  botsPresent room →
  k ∉ bot_id <$> bots →
  (∀ id, id ≠ k → JSMap.get id m' = JSMap.get id (users room)) →
  botsPresent (setUsers m' room).
Proof.
  intros Hroom Hk Hsame. apply (botsPresent_keep room); [done|].
  intros bot u Hbot Hu. exists u. split; [|done]. cbn [users setUsers].
  rewrite Hsame; [done|]. intros E. apply Hk. rewrite <- E.
  by apply list_elem_of_fmap_2.
Qed.

Lemma botsInGlobal_store (l : loc) (r : Room) (s : Server) :
  botsInGlobal s →
  (∀ room, heap s !! l = Some room → botsPresent room → botsPresent r) →
  botsInGlobal (storeRoom l r s).
Proof.
  intros (room & Hroom & Hbots) Hr.
  apply getRoom_Some in Hroom as (lg & Hlg & Hheap).
  destruct (decide (lg = l)) as [->|Hne].
  - exists r. split; [|by eapply Hr].
    apply getRoom_Some. exists l. split; [done|apply heap_storeRoom_eq].
  - exists room. split; [|done].
    apply getRoom_Some. exists lg. split; [done|].
    by rewrite heap_storeRoom_ne.
Qed.

Lemma botsInGlobal_setNewRoom (roomId : string) (r : Room) (s : Server) :
  wf s → roomId ≠ GLOBAL_ROOM_ID →
  botsInGlobal s → botsInGlobal (setNewRoom roomId r s).
Proof.
  intros Hwf Hne (room & Hroom & Hbots). exists room. split; [|done].
  destruct (getRoom_setNewRoom_ne roomId GLOBAL_ROOM_ID r s) as [_ ->];
    [intros l; apply (wf_alloc s Hwf)|done|done].
Qed.

Lemma botsInGlobal_messageFrame (c : Conn) (s s' : Server) :
  messageFrame c s s' →
  conn_userId c ∉ bot_id <$> bots →
  botsInGlobal s → botsInGlobal s'.
Proof.
  intros (R & O & H) Hc (room & Hroom & Hbots).
  apply getRoom_Some in Hroom as (lg & Hlg & Hheap).
  destruct (decide (lg = conn_room c)) as [->|Hne].
  - rewrite Hheap in H. destruct H as (room' & Hroom' & _ & _ & _ & _ & Hother & _).
    exists room'. split.
    + apply getRoom_Some. exists (conn_room c). by rewrite R.
    + apply (botsPresent_keep room); [done|]. intros bot u Hbot Hu.
      exists u. split; [|done]. rewrite Hother; [done|].
      intros E. apply Hc. rewrite <- E. by apply list_elem_of_fmap_2.
  - exists room. split; [|done].
    apply getRoom_Some. exists lg. by rewrite R, O.
Qed.

Lemma botTick_shape (bot : Bot) (r : Qc) (s : Server) :
  botTick bot r s = s
  ∨ ∃ l room user v,
      heap s !! l = Some room
      ∧ JSMap.get (bot_id bot) (users room) = Some user
      ∧ botTick bot r s
        = storeRoom l
            (setUsers (JSMap.set (bot_id bot) (setBoredom v user) (users room))
               room) s.
Proof.
  unfold botTick. destruct (rooms s !! GLOBAL_ROOM_ID) as [l|]; [|by left].
  destruct (heap s !! l) as [room|] eqn:Hroom; [|by left].
  destruct (JSMap.get _ _) as [user|] eqn:Huser; [|by left].
  right. by eexists l, room, user, _.
Qed.

(** X16: in every run of the server the global room stays registered and
    keeps an entry for each bot, with the bot flag set, no socket and the
    bot's own name: no request, sweep, join, message or close removes or
    takes over a bot.  Every accepted connection has a 16-character
    identifier, which is never a bot's. *)
Theorem running_keeps_bots (JSON_parse : string → option json) (start : Z)
    (s : Server) (cs : list Conn) :
  running JSON_parse start s cs →
  botsInGlobal s
  ∧ Forall (λ c, String.length (conn_userId c) = 16%nat
                 ∧ conn_userId c ∉ bot_id <$> bots) cs.
Proof.
  induction 1 as [|s cs bot r Hrun [IH1 IH2] _ _ _|s cs now Hrun [IH1 IH2]
                  |s cs req now rnd Hrun [IH1 IH2]
                  |s s' cs sock roomParam nameParam now rnd c Hrun [IH1 IH2]
                     Hlen Hconn
                  |s cs c data Hrun [IH1 IH2] Hc|s cs c Hrun [IH1 IH2] Hc].
  - split; [|constructor]. exists (globalRoom start).
    split; [apply getRoom_setNewRoom_eq|apply botsPresent_initial].
  - split; [|done].
    destruct (botTick_shape bot r s) as [->|(l & room & user & v & Hroom & Huser & ->)];
      [done|].
    apply botsInGlobal_store; [done|]. intros room0 Hroom0 Hbots.
    rewrite Hroom in Hroom0. injection Hroom0 as <-.
    apply (botsPresent_keep room); [done|]. intros bot' u Hbot' Hu.
    cbn [users setUsers]. destruct (decide (bot_id bot' = bot_id bot)) as [E|E].
    + rewrite E in *. rewrite Huser in Hu. injection Hu as <-.
      eexists. split; [apply get_set_eq|done].
    + exists u. split; [|done]. by rewrite get_set_ne.
  - split; [|done]. destruct IH1 as (room & Hroom & Hbots).
    exists room. split; [|done]. apply cleanup_keeps; [done|by left].
  - split; [|done].
    pose proof (reachable_wf _ _ _ (running_reachable _ _ _ _ Hrun)) as Hwf.
    destruct (handleRequest_state JSON_parse req now rnd s)
      as [->|(_ & _ & roomName & ->)]; [done|].
    apply botsInGlobal_setNewRoom; [done| |done].
    intros E. pose proof (generateRoomCode_looksLikeCode rnd) as H.
    rewrite E in H. discriminate H.
  - pose proof (reachable_wf _ _ _ (running_reachable _ _ _ _ Hrun)) as Hwf.
    destruct (onConnection_inv _ _ _ _ _ _ _ _ Hconn)
      as (l & room1 & Hl & Hroom1 & -> & ->).
    pose proof (userId_not_bot rnd Hlen) as Hnot.
    split.
    + apply botsInGlobal_store.
      * unfold resolveRoom. case_bool_decide as Hreg; [done|].
        destruct (looksLikeCode _); cbn [fst]; [|done].
        apply botsInGlobal_setNewRoom; [done| |done].
        intros E. apply Hreg. rewrite E. by apply wf_global_registered.
      * intros room0 Hroom0 Hbots. rewrite Hroom1 in Hroom0.
        injection Hroom0 as <-.
        apply (botsPresent_other_key _ _ (generateUserId rnd)); [done..|].
        intros id Hid. by apply get_set_ne.
    + constructor; [|done]. cbn [conn_userId]. split; [|done].
      unfold generateUserId. rewrite toHex_length, Hlen. reflexivity.
  - split; [|done].
    assert (conn_userId c ∉ bot_id <$> bots) as Hnot.
    { rewrite Forall_forall in IH2. by apply IH2. }
    unfold onMessage. destruct (JSON_parse data) as [message|]; [|done].
    eapply botsInGlobal_messageFrame; [apply applySetName_frame|done|].
    eapply botsInGlobal_messageFrame; [apply applyUpdate_frame|done|done].
  - split; [|done].
    assert (conn_userId c ∉ bot_id <$> bots) as Hnot.
    { rewrite Forall_forall in IH2. by apply IH2. }
    unfold onClose. destruct (heap s !! conn_room c) as [room|] eqn:Hroom; [|done].
    apply botsInGlobal_store; [done|]. intros room0 Hroom0 Hbots.
    rewrite Hroom in Hroom0. injection Hroom0 as <-.
    apply (botsPresent_other_key _ _ (conn_userId c)); [done..|].
    intros id Hid. by apply get_delete_ne.
Qed.

(** ** How far a tick moves a bot *)

Lemma clamp_towards (x aim d : Qc) :
  0 ≤ aim → aim ≤ Qc_of_Z 100 → 0 ≤ d →
  aim - d ≤ x → x ≤ aim + d →
  aim - d ≤ clamp x 0 (Qc_of_Z 100) ∧ clamp x 0 (Qc_of_Z 100) ≤ aim + d.
Proof.
  intros H0 H100 Hd Hlo Hhi. unfold clamp.
  repeat case_decide;
    repeat match goal with
           | H : ¬ (_ < _) |- _ => apply Qcnot_lt_le in H
           end;
    split; try done; qc_to_q; inj_consts; lra.
Qed.

(** X17: one tick of one of the four bots stores a value within half the
    volatility, plus a rounding slack of [2^-40], of the point one tenth
    of the way from the current value to the target; with the random draw
    at 0.5 it stores that point up to the slack. *)
Theorem botTick_near_target (bot : Bot) (r : Qc) (s : Server) (l : loc)
    (room : Room) (user : User) :
  wf s →
  bot ∈ bots →
  0 ≤ r → r < 1 →
  rooms s !! GLOBAL_ROOM_ID = Some l →
  heap s !! l = Some room →
  JSMap.get (bot_id bot) (users room) = Some user →
  ∃ (current v : Qc) (room' : Room) (user' : User),
    boredom user = Finite current
    ∧ heap (botTick bot r s) !! l = Some room'
    ∧ JSMap.get (bot_id bot) (users room') = Some user'
    ∧ boredom user' = Finite v
    ∧ let aim := current + (bot_boredom bot - current) * Q2Qc (1 # 10) in
      let half := bot_volatility bot * Q2Qc (1 # 2) in
      let slack := Q2Qc (1 # 2 ^ 40) in
      aim - half - slack ≤ v ∧ v ≤ aim + half + slack
      ∧ (r = Q2Qc (1 # 2) → aim - slack ≤ v ∧ v ≤ aim + slack).
Proof.
  intros Hwf Hbot Hr0 Hr1 Hl Hroom Huser.
  destruct (wf_values s Hwf l room Hroom _ _ (get_Some_elem _ _ _ Huser))
    as (c & Hc & Hc0 & Hc100).
  rewrite (botTick_present bot r s l room user c) by done.
  destruct (tick_value bot r c Hbot Hr0 Hr1 Hc0 Hc100)
    as (v & -> & _ & _ & E1 & E2).
  assert (0 ≤ bot_boredom bot ∧ bot_boredom bot ≤ Qc_of_Z 100
          ∧ 0 ≤ bot_volatility bot) as (Ht0 & Ht100 & Hvol).
  { unfold bots in Hbot.
    repeat (apply elem_of_cons in Hbot as [->|Hbot]);
      [..|by apply elem_of_nil in Hbot];
      cbn [bot_boredom bot_volatility]; split_and!; decided. }
  set (t := bot_boredom bot) in *. set (vol := bot_volatility bot) in *.
  set (aim := c + (t - c) * Q2Qc (1 # 10)) in *.
  set (x := aim + (r - Q2Qc (1 # 2)) * vol) in *.
  assert (0 ≤ aim ∧ aim ≤ Qc_of_Z 100) as [Ha0 Ha100].
  { unfold aim. clear - Hc0 Hc100 Ht0 Ht100. clearbody t.
    split; qc_to_q; inj_consts; lra. }
  assert (0 ≤ vol * Q2Qc (1 # 2)) as Hhalf
    by (clear - Hvol; clearbody vol; qc_to_q; lra).
  assert (aim - vol * Q2Qc (1 # 2) ≤ x ∧ x ≤ aim + vol * Q2Qc (1 # 2))
    as [Hlo Hhi].
  { unfold x. clear - Hvol Hr0 Hr1. clearbody aim vol. split; qc_to_q; nra. }
  destruct (clamp_towards x aim (vol * Q2Qc (1 # 2)) Ha0 Ha100 Hhalf Hlo Hhi)
    as [T1 T2].
  exists c, v. do 2 eexists. split_and!.
  - exact Hc.
  - apply heap_storeRoom_eq.
  - cbn [users setUsers]. apply get_set_eq.
  - reflexivity.
  - cbn zeta. fold t aim. split_and!.
    + clear - T1 E2. clearbody x aim vol. qc_lra.
    + clear - T2 E1. clearbody x aim vol. qc_lra.
    + intros ->.
      assert (clamp x 0 (Qc_of_Z 100) = aim) as Ex.
      { unfold x.
        replace (aim + (Q2Qc (1 # 2) - Q2Qc (1 # 2)) * vol) with aim by ring.
        unfold clamp. rewrite decide_False by by apply Qcle_not_lt.
        by rewrite decide_False by by apply Qcle_not_lt. }
      rewrite Ex in E1, E2. clear - E1 E2. clearbody aim. split; qc_lra.
Qed.

(** ** The dial: angles and values *)

Lemma ltb_finite (a b : Qc) : ltb (Finite a) (Finite b) = bool_decide (a < b).
Proof. reflexivity. Qed.

Lemma binary64_mono_finite (x y a b : Qc) :
  binary64 x = Finite a → binary64 y = Finite b → x ≤ y → a ≤ b.
Proof.
  intros Hx Hy Hxy. pose proof (binary64_mono x y Hxy) as M.
  rewrite Hx, Hy in M. cbn [leb] in M. by apply bool_decide_eq_true in M.
Qed.

(** The scaling steps of [angleToValue] on a clamped angle. *)
Lemma dial_scale (n : Qc) :
  Qc_of_Z (-135) ≤ n → n ≤ Qc_of_Z 135 →
  ∃ x1 x2 x3 : Qc,
    binary64 (n - Qc_of_Z (-135)) = Finite x1
    ∧ binary64 (x1 / Qc_of_Z 270) = Finite x2
    ∧ binary64 (x2 * Qc_of_Z 100) = Finite x3
    ∧ mul (div (sub (Finite n) START_ANGLE) ARC_DEGREES) (of_Z 100) = Finite x3
    ∧ Qc_of_Z 0 ≤ x3 ∧ x3 ≤ Qc_of_Z 100
    ∧ x3 - (n + Qc_of_Z 135) * Q2Qc (10 # 27)
      ≤ Qc_of_Z (2 ^ 9) * u53 + Qc_of_Z 128 * tiny
    ∧ (n + Qc_of_Z 135) * Q2Qc (10 # 27) - x3
      ≤ Qc_of_Z (2 ^ 9) * u53 + Qc_of_Z 128 * tiny.
Proof.
  intros Hlo Hhi.
  assert (Qc_of_Z 270 ≠ 0) as H270.
  { rewrite <- Qc_of_Z_0. intros E. by apply Qc_of_Z_inj in E. }
  destruct (binary64_range 0 270 (2 ^ 9) (n - Qc_of_Z (-135)))
    as (x1 & Hx1 & A1 & A2 & A3 & A4); [lia|lia|lia| | |].
  { clear - Hlo. qc_lra. }
  { clear - Hhi. qc_lra. }
  assert (x1 = (x1 / Qc_of_Z 270) * Qc_of_Z 270) as Ex by (field; done).
  set (p := x1 / Qc_of_Z 270) in *.
  destruct (binary64_range 0 1 1 p)
    as (x2 & Hx2 & B1 & B2 & B3 & B4); [lia|lia|lia| | |].
  { clearbody p. rewrite Ex in A1. clear - A1. qc_lra. }
  { clearbody p. rewrite Ex in A2. clear - A2. qc_lra. }
  destruct (binary64_range 0 100 (2 ^ 7) (x2 * Qc_of_Z 100))
    as (x3 & Hx3 & C1 & C2 & C3 & C4); [lia|lia|lia| | |].
  { clear - B1. qc_lra. }
  { clear - B2. qc_lra. }
  exists x1, x2, x3. split_and!; try done.
  - unfold START_ANGLE, ARC_DEGREES, of_Z.
    rewrite sub_finite, Hx1, div_finite by done. fold p.
    rewrite Hx2, mul_finite. exact Hx3.
  - pose proof u53_pos. pose proof tiny_pos.
    clearbody p. rewrite Ex in A3, A4. clear - H H0 A3 A4 B3 B4 C3 C4. qc_lra.
  - pose proof u53_pos. pose proof tiny_pos.
    clearbody p. rewrite Ex in A3, A4. clear - H H0 A3 A4 B3 B4 C3 C4. qc_lra.
Qed.

Lemma dial_scale_mono (n n' x3 x3' : Qc) :
  Qc_of_Z (-135) ≤ n → n ≤ n' → n' ≤ Qc_of_Z 135 →
  mul (div (sub (Finite n) START_ANGLE) ARC_DEGREES) (of_Z 100) = Finite x3 →
  mul (div (sub (Finite n') START_ANGLE) ARC_DEGREES) (of_Z 100) = Finite x3' →
  x3 ≤ x3'.
Proof.
  intros Hlo Hnn Hhi H3 H3'.
  destruct (dial_scale n) as (x1 & x2 & y3 & Hx1 & Hx2 & Hx3 & E & _);
    [done|by eapply Qcle_trans|].
  destruct (dial_scale n') as (x1' & x2' & y3' & Hx1' & Hx2' & Hx3' & E' & _);
    [by eapply Qcle_trans|done|].
  rewrite E in H3. rewrite E' in H3'.
  injection H3 as <-. injection H3' as <-.
  assert (x1 ≤ x1') as L1.
  { apply (binary64_mono_finite _ _ _ _ Hx1 Hx1'). clear - Hnn. qc_lra. }
  assert (Qc_of_Z 270 ≠ 0) as H270.
  { rewrite <- Qc_of_Z_0. intros E0. by apply Qc_of_Z_inj in E0. }
  assert (x2 ≤ x2') as L2.
  { apply (binary64_mono_finite _ _ _ _ Hx2 Hx2').
    assert (x1 = (x1 / Qc_of_Z 270) * Qc_of_Z 270) as Ex by (field; done).
    assert (x1' = (x1' / Qc_of_Z 270) * Qc_of_Z 270) as Ex' by (field; done).
    set (p := x1 / Qc_of_Z 270) in *. set (p' := x1' / Qc_of_Z 270) in *.
    clearbody p p'. rewrite Ex, Ex' in L1. clear - L1. qc_lra. }
  apply (binary64_mono_finite _ _ _ _ Hx3 Hx3'). clear - L2. qc_lra.
Qed.

Lemma angleToValue_finite (a : Qc) :
  angleToValue (Finite a)
  = Math_round
      (mul (div (sub (Finite (clamp a (Qc_of_Z (-135)) (Qc_of_Z 135)))
                   START_ANGLE) ARC_DEGREES) (of_Z 100)).
Proof.
  unfold angleToValue, clamp. cbn zeta.
  change START_ANGLE with (Finite (Qc_of_Z (-135))).
  change END_ANGLE with (Finite (Qc_of_Z 135)).
  rewrite !(ltb_finite a).
  destruct (decide (a < Qc_of_Z (-135))) as [Hlow|Hlow].
  - rewrite !(bool_decide_eq_true_2 (a < Qc_of_Z (-135))) by done.
    rewrite !ltb_finite.
    by rewrite !bool_decide_eq_false_2 by (intros H; by vm_compute in H).
  - rewrite !(bool_decide_eq_false_2 (a < Qc_of_Z (-135))) by done.
    rewrite !ltb_finite.
    destruct (decide (Qc_of_Z 135 < a)) as [Hhigh|Hhigh].
    + by rewrite !bool_decide_eq_true_2 by done.
    + by rewrite !bool_decide_eq_false_2 by done.
Qed.

Lemma round_Z_mono (p q : Qc) : p ≤ q → (round_Z p ≤ round_Z q)%Z.
Proof.
  intros H. unfold round_Z. apply Qfloor_resp_le.
  pose proof (this_plus_half p) as Ep. pose proof (this_plus_half q) as Eq.
  set (x := this (p + Q2Qc (1 # 2))) in *.
  set (y := this (q + Q2Qc (1 # 2))) in *. clearbody x y.
  qc_to_q. lra.
Qed.

Lemma clamp_mono (x y lo hi : Qc) :
  lo ≤ hi → x ≤ y → clamp x lo hi ≤ clamp y lo hi.
Proof.
  intros Hlh Hxy. unfold clamp.
  repeat case_decide;
    repeat match goal with
           | H : ¬ (_ < _) |- _ => apply Qcnot_lt_le in H
           end;
    try done; try apply Qcle_refl; qc_to_q; lra.
Qed.

(** X18: the dial turns every angle into an integer between 0 and 100
    (0 below -135 degrees, 100 above 135 degrees, also for the
    infinities), and a larger angle never gives a smaller value. *)
Theorem angleToValue_range_monotone (a b : Qc) :
  (∃ z : Z, angleToValue (Finite a) = of_Z z ∧ (0 ≤ z ≤ 100)%Z)
  ∧ (a ≤ Qc_of_Z (-135) → angleToValue (Finite a) = of_Z 0)
  ∧ (Qc_of_Z 135 ≤ a → angleToValue (Finite a) = of_Z 100)
  ∧ angleToValue NInf = of_Z 0
  ∧ angleToValue PInf = of_Z 100
  ∧ (a ≤ b →
     ∃ za zb : Z, angleToValue (Finite a) = of_Z za
                  ∧ angleToValue (Finite b) = of_Z zb ∧ (za ≤ zb)%Z).
Proof.
  assert (Qc_of_Z (-135) ≤ Qc_of_Z 135) as Hends by by apply (proj1 (Qc_of_Z_le _ _)).
  assert (∀ c : Qc, ∃ x3 : Qc,
            mul (div (sub (Finite (clamp c (Qc_of_Z (-135)) (Qc_of_Z 135)))
                        START_ANGLE) ARC_DEGREES) (of_Z 100) = Finite x3
            ∧ 0 ≤ x3 ∧ x3 ≤ Qc_of_Z 100) as Hscale.
  { intros c. destruct (clamp_range c (Qc_of_Z (-135)) (Qc_of_Z 135) Hends)
      as [Hlo Hhi].
    destruct (dial_scale _ Hlo Hhi) as (_ & _ & x3 & _ & _ & _ & E & H0 & H100 & _).
    exists x3. rewrite <- Qc_of_Z_0. done. }
  split_and!.
  - rewrite angleToValue_finite. destruct (Hscale a) as (x3 & -> & H0 & H100).
    cbn [Math_round]. eexists. split; [reflexivity|].
    by apply (rounds_to_range x3); [..|apply round_Z_rounds].
  - intros Ha. rewrite angleToValue_finite.
    assert (clamp a (Qc_of_Z (-135)) (Qc_of_Z 135) = Qc_of_Z (-135)) as ->.
    { unfold clamp. case_decide as H1; [done|]. apply Qcnot_lt_le in H1.
      rewrite decide_False by (apply Qcle_not_lt; by eapply Qcle_trans).
      by apply Qcle_antisym. }
    vm_compute. reflexivity.
  - intros Ha. rewrite angleToValue_finite.
    assert (clamp a (Qc_of_Z (-135)) (Qc_of_Z 135) = Qc_of_Z 135) as ->.
    { unfold clamp.
      rewrite decide_False by (apply Qcle_not_lt; by eapply Qcle_trans).
      case_decide as H1; [done|]. apply Qcnot_lt_le in H1.
      by apply Qcle_antisym. }
    vm_compute. reflexivity.
  - vm_compute. reflexivity.
  - vm_compute. reflexivity.
  - intros Hab. rewrite !angleToValue_finite.
    destruct (Hscale a) as (xa & Ea & _). destruct (Hscale b) as (xb & Eb & _).
    rewrite Ea, Eb. cbn [Math_round]. do 2 eexists.
    split_and!; [reflexivity..|].
    apply round_Z_mono.
    pose proof (clamp_mono a b (Qc_of_Z (-135)) (Qc_of_Z 135) Hends Hab) as H.
    destruct (clamp_range a (Qc_of_Z (-135)) (Qc_of_Z 135) Hends) as [Hlo _].
    destruct (clamp_range b (Qc_of_Z (-135)) (Qc_of_Z 135) Hends) as [_ Hhi].
    by apply (dial_scale_mono _ _ _ _ Hlo H Hhi).
Qed.

(** The angle of a value between 0 and 100. *)
Lemma valueToAngle_finite (q : Qc) :
  0 ≤ q → q ≤ Qc_of_Z 100 →
  ∃ y : Qc,
    valueToAngle (Finite q) = Finite y
    ∧ Qc_of_Z (-135) ≤ y ∧ y ≤ Qc_of_Z 135
    ∧ y - (Qc_of_Z (-135) + q * Q2Qc (27 # 10))
      ≤ Qc_of_Z (2 ^ 11) * u53 + Qc_of_Z (2 ^ 9) * tiny
    ∧ (Qc_of_Z (-135) + q * Q2Qc (27 # 10)) - y
      ≤ Qc_of_Z (2 ^ 11) * u53 + Qc_of_Z (2 ^ 9) * tiny.
Proof.
  intros H0 H100.
  assert (Qc_of_Z 100 ≠ 0) as Hnz.
  { rewrite <- Qc_of_Z_0. intros E. by apply Qc_of_Z_inj in E. }
  unfold valueToAngle, START_ANGLE, ARC_DEGREES, of_Z.
  rewrite div_finite by done.
  assert (q = (q / Qc_of_Z 100) * Qc_of_Z 100) as Eq by (field; done).
  set (p := q / Qc_of_Z 100) in *.
  destruct (binary64_range 0 1 1 p)
    as (y1 & -> & A1 & A2 & A3 & A4); [lia|lia|lia| | |].
  { clearbody p. rewrite Eq in H0. clear - H0. qc_lra. }
  { clearbody p. rewrite Eq in H100. clear - H100. qc_lra. }
  rewrite mul_finite.
  destruct (binary64_range 0 270 (2 ^ 9) (y1 * Qc_of_Z 270))
    as (y2 & -> & B1 & B2 & B3 & B4); [lia|lia|lia| | |].
  { clear - A1. qc_lra. }
  { clear - A2. qc_lra. }
  rewrite add_finite.
  destruct (binary64_range (-135) 135 (2 ^ 8) (Qc_of_Z (-135) + y2))
    as (y3 & -> & C1 & C2 & C3 & C4); [lia|lia|lia| | |].
  { clear - B1. qc_lra. }
  { clear - B2. qc_lra. }
  exists y3. pose proof u53_pos. pose proof tiny_pos.
  split_and!; try done.
  - clearbody p. rewrite Eq. clear - H H1 A3 A4 B3 B4 C3 C4. qc_lra.
  - clearbody p. rewrite Eq. clear - H H1 A3 A4 B3 B4 C3 C4. qc_lra.
Qed.

(** X19: turning a value between 0 and 100 into an angle and the angle
    back into a value gives an integer within [1/2 + 2^-40] of the value;
    an integer value comes back unchanged. *)
Theorem dial_round_trip (q : Qc) :
  0 ≤ q → q ≤ Qc_of_Z 100 →
  ∃ z : Z,
    angleToValue (valueToAngle (Finite q)) = of_Z z
    ∧ Qc_of_Z z - q ≤ Q2Qc (1 # 2) + Q2Qc (1 # 2 ^ 40)
    ∧ q - Qc_of_Z z ≤ Q2Qc (1 # 2) + Q2Qc (1 # 2 ^ 40)
    ∧ ∀ k : Z, q = Qc_of_Z k → z = k.
Proof.
  intros H0 H100.
  destruct (valueToAngle_finite q H0 H100) as (y & -> & Y1 & Y2 & Y3 & Y4).
  rewrite angleToValue_finite.
  assert (clamp y (Qc_of_Z (-135)) (Qc_of_Z 135) = y) as ->.
  { unfold clamp. rewrite decide_False by by apply Qcle_not_lt.
    by rewrite decide_False by by apply Qcle_not_lt. }
  destruct (dial_scale y Y1 Y2)
    as (_ & _ & x3 & _ & _ & _ & -> & _ & _ & X1 & X2).
  cbn [Math_round]. exists (round_Z x3).
  destruct (round_Z_rounds x3) as [R1 R2].
  pose proof rounding_budget_small as HB.
  pose proof u53_pos as Hu. pose proof tiny_pos as Ht.
  assert (x3 - q ≤ Q2Qc (1 # 2 ^ 40) ∧ q - x3 ≤ Q2Qc (1 # 2 ^ 40)) as [E1 E2].
  { clear - HB Hu Ht Y3 Y4 X1 X2. split; qc_lra. }
  split_and!.
  - reflexivity.
  - clear - R1 E1. qc_lra.
  - clear - R2 E2. qc_lra.
  - intros k ->. apply (rounds_to_unique x3); [apply round_Z_rounds|].
    assert (Q2Qc (1 # 2 ^ 40) < Q2Qc (1 # 2)) as Hsmall by decided.
    clear - E1 E2 Hsmall. split; qc_lra.
Qed.

(** The round trip is not [Math.round]: 57.5 comes back as 57. *)
Example dial_round_trip_half :
  angleToValue (valueToAngle (Finite (Q2Qc (115 # 2)))) = of_Z 57
  ∧ Math_round (Finite (Q2Qc (115 # 2))) = of_Z 58.
Proof. split; vm_compute; reflexivity. Qed.

Lemma ltb_trans_const (v : num) (a b : Z) :
  (a ≤ b)%Z → ltb v (of_Z a) = true → ltb v (of_Z b) = true.
Proof.
  intros Hab. destruct v as [q| | |]; cbn [ltb of_Z]; try done.
  rewrite !bool_decide_eq_true. intros Hq.
  eapply Qclt_le_trans; [exact Hq|]. by apply (proj1 (Qc_of_Z_le _ _)).
Qed.

(** X20: the dial's colour follows its label: "Engaged" and "Content" are
    green, "Neutral" lime, "Restless" yellow, "Bored" orange and
    "Very Bored" red, for every number including [NaN] and the
    infinities. *)
Theorem getBoredomColor_follows_label (val : num) :
  getBoredomColor val
  = (let label := getBoredomLabel val in
     if decide (label = "Engaged"%string ∨ label = "Content"%string)
     then "#22c55e"
     else if decide (label = "Neutral"%string) then "#84cc16"
     else if decide (label = "Restless"%string) then "#eab308"
     else if decide (label = "Bored"%string) then "#f97316"
     else "#ef4444")%string.
Proof.
  unfold getBoredomColor, getBoredomLabel.
  destruct (ltb val (of_Z 15)) eqn:H15.
  - by rewrite (ltb_trans_const val 15 30).
  - destruct (ltb val (of_Z 30)) eqn:H30; [done|].
    destruct (ltb val (of_Z 50)) eqn:H50; [done|].
    destruct (ltb val (of_Z 70)) eqn:H70; [done|].
    destruct (ltb val (of_Z 85)) eqn:H85; done.
Qed.

(** ** What holds in every reachable state *)

(** X21: in every state the server reaches, the global room is
    registered; every registered identifier leads to a room object and is
    either the global identifier or six characters from A-Z and 0-9; and
    every stored value, in every room, is a rational between 0 and
    100. *)
Theorem reachable_invariant (JSON_parse : string → option json) (start : Z)
    (s : Server) :
  reachable JSON_parse start s →
  is_Some (getRoom s GLOBAL_ROOM_ID)
  ∧ (∀ roomId, is_Some (rooms s !! roomId) →
               is_Some (getRoom s roomId)
               ∧ (roomId = GLOBAL_ROOM_ID ∨ wellFormedCode roomId))
  ∧ (∀ roomId room id u,
       getRoom s roomId = Some room →
       JSMap.get id (users room) = Some u →
       ∃ q, boredom u = Finite q ∧ 0 ≤ q ∧ q ≤ Qc_of_Z 100).
Proof.
  intros Hreach. pose proof (reachable_wf _ _ _ Hreach) as Hwf. split_and!.
  - apply (wf_global s Hwf).
  - intros roomId [l Hl]. split.
    + destruct (wf_alloc s Hwf roomId l Hl) as [room Hroom].
      exists room. apply getRoom_Some. by exists l.
    + destruct (wf_codes s Hwf roomId) as [?|?]; [by eexists|by left|right].
      by apply looksLikeCode_wellFormed.
  - intros roomId room id u Hroom Hu.
    apply getRoom_Some in Hroom as (l & _ & Hroom).
    apply (wf_values s Hwf l room Hroom id u), get_Some_elem, Hu.
Qed.

(** X22: a room created by a [POST /api/rooms] whose body parses to a value
    other than [null] can be joined under its identifier, which the
    response returns with status 200 when the room name can be converted
    to a string (the response is 400 otherwise): the connection lands in
    that room, which keeps the name and creation time given at creation
    and has the newcomer as its only participant. *)
Theorem created_room_joinable (JSON_parse : string → option json)
    (bodyText : string) (data : json) (now : Z)
    (rnd : Byte.byte * Byte.byte * Byte.byte) (s : Server)
    (sock : socket) (nameParam : option string) (now' : Z)
    (rnd' : list Byte.byte) :
  JSON_parse (if decide (bodyText = EmptyString) then "{}"%string else bodyText)
  = Some data →
  data ≠ JNull →
  ∃ (roomId : string) (roomName : json) (s1 s2 : Server) (c : Conn)
    (room' : Room),
    handleRequest JSON_parse (mkRequest "POST" "/api/rooms" bodyText) now rnd s
    = (s1, if stringifies roomName
           then mkResponse 200 (CreatedBody roomId roomName)
           else mkResponse 400 (ErrorBody "Invalid request"))
    ∧ onConnection sock (Some roomId) nameParam now' rnd' s1 = Some (s2, c)
    ∧ conn_roomId c = roomId
    ∧ getRoom s2 roomId = Some room'
    ∧ name room' = roomName
    ∧ createdAt room' = now
    ∧ (users room').*1 = [generateUserId rnd'].
Proof.
  intros Hparse Hnn. rewrite handleRequest_post by done. cbn [reqBody].
  destruct (postRooms_accepted JSON_parse bodyText now rnd s data Hparse Hnn)
    as (dataName & _ & ->). cbn zeta.
  set (roomId := generateRoomCode rnd).
  set (roomName := or_else dataName (JString ("Room " +:+ roomId))).
  set (s1 := setNewRoom roomId (mkRoom JSMap.empty now roomName false) s).
  assert (rooms s1 !! roomId = Some (newLoc (heap s))) as Hreg
    by (unfold s1, setNewRoom; cbn [rooms]; apply lookup_insert_eq).
  assert (heap s1 !! newLoc (heap s)
          = Some (mkRoom JSMap.empty now roomName false)) as Hheap
    by (unfold s1, setNewRoom; cbn [heap]; apply lookup_insert_eq).
  assert (resolveRoom (Some roomId) now' s1 = (s1, roomId)) as Hres.
  { unfold resolveRoom.
    rewrite decide_False.
    - rewrite bool_decide_eq_true_2; [done|by eexists].
    - intros E. pose proof (generateRoomCode_looksLikeCode rnd) as H.
      fold roomId in H. rewrite E in H. discriminate H. }
  eexists roomId, roomName, s1, _, _, _. split_and!.
  - reflexivity.
  - unfold onConnection. rewrite Hres, Hreg. cbn [mbind option_bind].
    rewrite Hheap. reflexivity.
  - reflexivity.
  - apply getRoom_Some. exists (newLoc (heap s)). split; [done|].
    apply heap_storeRoom_eq.
  - reflexivity.
  - reflexivity.
  - reflexivity.
Qed.

(** ** Instances of the further properties *)

Lemma running_sample :
  running parseSample 0 updated [joined2.2; joined1.2].
Proof.
  apply (run_message parseSample 0 joined2.1 _ joined1.2 (updateText "80")).
  - apply (run_connection parseSample 0 joined1.1 joined2.1 _ 2%nat
             (Some sampleCode) None 3000 (replicate 8 Byte.x02)).
    + apply (run_connection parseSample 0 created.1 joined1.1 _ 1%nat
               (Some sampleCode) None 2000 (replicate 8 Byte.x01)).
      * apply (run_request parseSample 0 (initial 0) []). apply run_initial.
      * reflexivity.
      * vm_compute. reflexivity.
    + reflexivity.
    + vm_compute. reflexivity.
  - apply list_elem_of_further, list_elem_of_here.
Qed.

Lemma generateRoomCode_injective_witness : sampleBytes = sampleBytes.
Proof. apply (generateRoomCode_injective sampleBytes sampleBytes). reflexivity. Defined.

Lemma handleRequest_frame_witness :
  let s' := (handleRequest parseSample emptyRequest 1000 sampleBytes
               joined2.1).1 in
  (url emptyRequest ≠ "/api/rooms"%string
   ∨ method emptyRequest ≠ "POST"%string → s' = joined2.1)
  ∧ (∀ l room, heap joined2.1 !! l = Some room → heap s' !! l = Some room)
  ∧ (∀ roomId, roomId ≠ generateRoomCode sampleBytes →
               rooms s' !! roomId = rooms joined2.1 !! roomId
               ∧ getRoom s' roomId = getRoom joined2.1 roomId)
  ∧ getRoom s' GLOBAL_ROOM_ID = getRoom joined2.1 GLOBAL_ROOM_ID.
Proof.
  apply (handleRequest_frame parseSample emptyRequest 1000 sampleBytes joined2.1).
  apply wf_joined2.
Defined.

Lemma getRoomById_lookup_witness :
  handleRequest parseSample
    (mkRequest "GET" ("/api/rooms/" +:+ sampleCode) EmptyString)
    9000 sampleBytes updated
  = (updated,
     match getRoomStats updated sampleCode with
     | Some stats => mkResponse 200 (StatsBody stats)
     | None => mkResponse 404 (ErrorBody "Room not found")
     end)
  ∧ (is_Some (getRoomStats updated sampleCode)
     ↔ is_Some (getRoom updated sampleCode)).
Proof.
  apply (getRoomById_lookup parseSample sampleCode 9000 sampleBytes updated).
  decided.
Defined.

Lemma onConnection_adds_participant_witness :
  ∃ room1 room' : Room,
    heap (resolveRoom (Some sampleCode) 3000 joined1.1).1 !! conn_room joined2.2
    = Some room1
    ∧ rooms joined2.1 !! conn_roomId joined2.2 = Some (conn_room joined2.2)
    ∧ heap joined2.1 !! conn_room joined2.2 = Some room'
    ∧ conn_ws joined2.2 = 2%nat
    ∧ conn_userId joined2.2 = generateUserId (replicate 8 Byte.x02)
    ∧ JSMap.get (conn_userId joined2.2) (users room')
      = Some (mkUser (of_Z 50) (Some 2%nat) false JNull)
    ∧ (∀ id, id ≠ conn_userId joined2.2 →
             JSMap.get id (users room') = JSMap.get id (users room1))
    ∧ length (users room')
      = match JSMap.get (conn_userId joined2.2) (users room1) with
        | Some _ => length (users room1)
        | None => S (length (users room1))
        end
    ∧ createdAt room' = createdAt room1
    ∧ name room' = name room1.
Proof.
  apply (onConnection_adds_participant 2%nat (Some sampleCode) None 3000
           (replicate 8 Byte.x02) joined1.1 joined2.1 joined2.2).
  vm_compute. reflexivity.
Defined.

Lemma join_then_close_witness :
  onClose joined2.2 joined2.1 = (resolveRoom (Some sampleCode) 3000 joined1.1).1.
Proof.
  apply (join_then_close 2%nat (Some sampleCode) None 3000
           (replicate 8 Byte.x02) joined1.1 joined2.1 joined2.2
           (mkRoom
              [("0101010101010101"%string,
                mkUser (of_Z 50) (Some 1%nat) false JNull)]
              1000 (JString "Team Sync") false)).
  - vm_compute. reflexivity.
  - vm_compute. reflexivity.
  - vm_compute. reflexivity.
Defined.

Lemma onMessage_ignored_witness :
  onMessage parseSample joined1.2 "not json" joined2.1 = joined2.1
  ∧ onMessage parseSample joined1.2 "null" joined2.1 = joined2.1
  ∧ onMessage parseSample joined1.2 nameBody joined2.1 = joined2.1.
Proof.
  split_and!.
  - apply (onMessage_ignored parseSample joined1.2 "not json" joined2.1).
    left. vm_compute. reflexivity.
  - apply (onMessage_ignored parseSample joined1.2 "null" joined2.1).
    right. exists JNull. split; [vm_compute; reflexivity|].
    left. intros ty H. discriminate H.
  - apply (onMessage_ignored parseSample joined1.2 nameBody joined2.1).
    right. exists (JObject [("name"%string, JString "Team Sync")]).
    split; [vm_compute; reflexivity|].
    left. intros ty H. discriminate H.
Defined.

Lemma setName_truncates_witness :
  ∃ (room' : Room) (stored : string),
    heap (onMessage parseWithName joined1.2 setNameText joined2.1)
      !! conn_room joined1.2 = Some room'
    ∧ JSMap.get (conn_userId joined1.2) (users room')
      = Some (mkUser (of_Z 50) (Some 1%nat) false (JString stored))
    ∧ stored = slice 20 "abcdefghijklmnopqrstuvwxyz"
    ∧ utf16_length stored
      = (20 `min` utf16_length "abcdefghijklmnopqrstuvwxyz")%nat
    ∧ ((utf16_length "abcdefghijklmnopqrstuvwxyz" ≤ 20)%nat →
       stored = "abcdefghijklmnopqrstuvwxyz"%string)
    ∧ (inBasicPlane "abcdefghijklmnopqrstuvwxyz" = true →
       String.prefix stored "abcdefghijklmnopqrstuvwxyz" = true)
    ∧ (isAscii "abcdefghijklmnopqrstuvwxyz" = true →
       stored = String.substring 0 20 "abcdefghijklmnopqrstuvwxyz"
       ∧ String.length stored
         = (20 `min` String.length "abcdefghijklmnopqrstuvwxyz")%nat)
    ∧ ∀ id, id ≠ conn_userId joined1.2 →
            JSMap.get id (users room') = JSMap.get id (users teamSyncRoom).
Proof.
  apply (setName_truncates parseWithName joined1.2 setNameText setNameMessage
           "abcdefghijklmnopqrstuvwxyz" joined2.1 teamSyncRoom
           (mkUser (of_Z 50) (Some 1%nat) false JNull)).
  - vm_compute. reflexivity.
  - reflexivity.
  - reflexivity.
  - discriminate.
  - vm_compute. reflexivity.
  - vm_compute. reflexivity.
Defined.

Example setName_stores_twenty :
  userName
  <$> (heap (onMessage parseWithName joined1.2 setNameText joined2.1)
         !! conn_room joined1.2
       ≫= λ room, JSMap.get (conn_userId joined1.2) (users room))
  = Some (JString "abcdefghijklmnopqrst").
Proof. vm_compute. reflexivity. Qed.

(** Seven euro signs are 21 bytes and 7 code units: [slice] keeps them
    all.  A surrogate pair in code units 20 and 21 is cut after its high
    surrogate, here [0xD83D]. *)
Example slice_counts_code_units :
  String.length euros = 21%nat
  ∧ utf16_length euros = 7%nat
  ∧ slice20 (JString euros) = Some (JString euros)
  ∧ utf16_length lettersAndFace = 21%nat
  ∧ slice20 (JString lettersAndFace)
    = Some (JString ("abcdefghijklmnopqrs"
                     +:+ String (ascii_of_nat 237) (String (ascii_of_nat 160)
                           (String (ascii_of_nat 189) EmptyString)))).
Proof. split_and!; vm_compute; reflexivity. Qed.

Lemma wf_updated : wf updated.
Proof.
  apply (reachable_wf parseSample 0).
  apply (running_reachable parseSample 0 updated [joined2.2; joined1.2]).
  apply running_sample.
Qed.

Lemma connectionSends_welcome_witness :
  ∃ (s' : Server) (c : Conn) (room' : Room) (st : Stats),
    onConnection 1%nat (Some sampleCode) None 2000 (replicate 8 Byte.x01)
      created.1 = Some (s', c)
    ∧ getRoom s' (conn_roomId c) = Some room'
    ∧ getRoomStats s' (conn_roomId c) = Some st
    ∧ connectionSends (λ _, true) 1%nat (Some sampleCode) None 2000
        (replicate 8 Byte.x01) created.1
      = (1%nat,
         WelcomeMessage (conn_userId c) (conn_roomId c) (name room')
           (of_Z 50) (Some st))
        :: broadcastToRoom (λ _, true) s' (conn_roomId c)
    ∧ count st = length (users room')
    ∧ (1 ≤ count st)%nat
    ∧ (∃ ind, ind ∈ individuals st ∧ ind_id ind = conn_userId c
              ∧ ind_boredom ind = of_Z 50 ∧ ind_isBot ind = false)
    ∧ ((λ _ : socket, true) 1%nat = true →
       (1%nat, StatsMessage (Some st))
       ∈ broadcastToRoom (λ _, true) s' (conn_roomId c)).
Proof.
  apply (connectionSends_welcome (λ _, true) 1%nat (Some sampleCode) None 2000
           (replicate 8 Byte.x01) created.1).
  apply wf_created.
Defined.

Lemma getRoomStats_in_range_witness :
  ∃ st : Stats,
    getRoomStats updated sampleCode = Some st
    ∧ (∃ z : Z, average st = of_Z z ∧ (0 ≤ z ≤ 100)%Z)
    ∧ Forall (λ ind, ∃ zi : Z, ind_boredom ind = of_Z zi ∧ (0 ≤ zi ≤ 100)%Z)
        (individuals st).
Proof.
  destruct (getRoomStats updated sampleCode) as [st|] eqn:Hst.
  - exists st. split; [reflexivity|].
    destruct (getRoomStats_in_range updated sampleCode st) as [Havg Hind].
    + apply wf_updated.
    + exact Hst.
    + split; [|exact Hind]. apply Havg.
      pose proof (getRoomStats_count updated sampleCode) as Hc.
      rewrite Hst in Hc. rewrite Hc. vm_compute. discriminate.
  - vm_compute in Hst. discriminate Hst.
Defined.

Lemma cleanup_cleanup_witness :
  cleanup 3700000 (cleanup 3601000 created.1) = cleanup 3700000 created.1.
Proof. apply (cleanup_cleanup 3601000 3700000 created.1). lia. Defined.

Lemma running_keeps_bots_witness :
  botsInGlobal updated
  ∧ Forall (λ c, String.length (conn_userId c) = 16%nat
                 ∧ conn_userId c ∉ bot_id <$> bots) [joined2.2; joined1.2].
Proof.
  apply (running_keeps_bots parseSample 0 updated [joined2.2; joined1.2]).
  apply running_sample.
Defined.

Lemma botTick_near_target_witness :
  ∃ (current v : Qc) (room' : Room) (user' : User),
    boredom (mkUser (of_Z 65) None true (JString "Restless Rita"))
    = Finite current
    ∧ heap (botTick restless draw06 (initial 0)) !! 0%nat = Some room'
    ∧ JSMap.get (bot_id restless) (users room') = Some user'
    ∧ boredom user' = Finite v
    ∧ let aim := current + (bot_boredom restless - current) * Q2Qc (1 # 10) in
      let half := bot_volatility restless * Q2Qc (1 # 2) in
      let slack := Q2Qc (1 # 2 ^ 40) in
      aim - half - slack ≤ v ∧ v ≤ aim + half + slack
      ∧ (draw06 = Q2Qc (1 # 2) → aim - slack ≤ v ∧ v ≤ aim + slack).
Proof.
  apply (botTick_near_target restless draw06 (initial 0) 0%nat
           (globalRoom 0)
           (mkUser (of_Z 65) None true (JString "Restless Rita"))).
  - apply wf_initial.
  - apply list_elem_of_here.
  - decided.
  - decided.
  - vm_compute. reflexivity.
  - vm_compute. reflexivity.
  - vm_compute. reflexivity.
Defined.

Lemma dial_round_trip_witness :
  ∃ z : Z,
    angleToValue (valueToAngle (Finite (Q2Qc (161 # 2)))) = of_Z z
    ∧ Qc_of_Z z - Q2Qc (161 # 2) ≤ Q2Qc (1 # 2) + Q2Qc (1 # 2 ^ 40)
    ∧ Q2Qc (161 # 2) - Qc_of_Z z ≤ Q2Qc (1 # 2) + Q2Qc (1 # 2 ^ 40)
    ∧ ∀ k : Z, Q2Qc (161 # 2) = Qc_of_Z k → z = k.
Proof. apply (dial_round_trip (Q2Qc (161 # 2))); decided. Defined.

Lemma reachable_invariant_witness :
  is_Some (getRoom updated GLOBAL_ROOM_ID)
  ∧ (∀ roomId, is_Some (rooms updated !! roomId) →
               is_Some (getRoom updated roomId)
               ∧ (roomId = GLOBAL_ROOM_ID ∨ wellFormedCode roomId))
  ∧ (∀ roomId room id u,
       getRoom updated roomId = Some room →
       JSMap.get id (users room) = Some u →
       ∃ q, boredom u = Finite q ∧ 0 ≤ q ∧ q ≤ Qc_of_Z 100).
Proof.
  apply (reachable_invariant parseSample 0 updated).
  apply (running_reachable parseSample 0 updated [joined2.2; joined1.2]).
  apply running_sample.
Defined.

Lemma created_room_joinable_witness :
  ∃ (roomId : string) (roomName : json) (s1 s2 : Server) (c : Conn)
    (room' : Room),
    handleRequest parseSample (mkRequest "POST" "/api/rooms" nameBody) 1000
      sampleBytes (initial 0)
    = (s1, if stringifies roomName
           then mkResponse 200 (CreatedBody roomId roomName)
           else mkResponse 400 (ErrorBody "Invalid request"))
    ∧ onConnection 1%nat (Some roomId) None 2000 (replicate 8 Byte.x01) s1
      = Some (s2, c)
    ∧ conn_roomId c = roomId
    ∧ getRoom s2 roomId = Some room'
    ∧ name room' = roomName
    ∧ createdAt room' = 1000%Z
    ∧ (users room').*1 = [generateUserId (replicate 8 Byte.x01)].
Proof.
  apply (created_room_joinable parseSample nameBody
           (JObject [("name"%string, JString "Team Sync")]) 1000 sampleBytes
           (initial 0) 1%nat None 2000 (replicate 8 Byte.x01)).
  - vm_compute. reflexivity.
  - discriminate.
Defined.

Lemma onClose_removes_witness :
  ∃ room', heap (onClose joined1.2 updated) !! conn_room joined1.2 = Some room'
           ∧ JSMap.get (conn_userId joined1.2) (users room') = None
           ∧ ∀ id, id ≠ conn_userId joined1.2 →
                   JSMap.get id (users room')
                   = JSMap.get id
                       (users
                          (mkRoom
                             [("0101010101010101"%string,
                               mkUser (of_Z 80) (Some 1%nat) false JNull);
                              ("0202020202020202"%string,
                               mkUser (of_Z 50) (Some 2%nat) false JNull)]
                             1000 (JString "Team Sync") false)).
Proof.
  apply (onClose_removes joined1.2 updated).
  vm_compute. reflexivity.
Defined.

(** ** An update as seen by the room, an idle room, a close as seen by
    the others *)

Lemma set_split {V : Type} (k : string) (v u : V) (m : JSMap.t V) :
  JSMap.get k m = Some u →
  ∃ m1 m2, m = m1 ++ (k, u) :: m2
           ∧ JSMap.set k v m = m1 ++ (k, v) :: m2
           ∧ k ∉ m1.*1.
Proof.
  unfold JSMap.get. induction m as [|[k' v'] m IH]; cbn [assoc JSMap.set]; [done|].
  destruct (decide (k = k')) as [<-|Hne].
  - intros [= ->]. exists [], m. split_and!; [done|done|apply not_elem_of_nil].
  - intros H. destruct (IH H) as (m1 & m2 & -> & -> & Hfresh).
    exists ((k', v') :: m1), m2. split_and!; [done|done|].
    rewrite fmap_cons. cbn [fst]. apply not_elem_of_cons. done.
Qed.

Lemma elem_of_delete_iff {V : Type} (k k0 : string) (v0 : V) (m : JSMap.t V) :
  (k0, v0) ∈ JSMap.delete k m ↔ k0 ≠ k ∧ (k0, v0) ∈ m.
Proof.
  induction m as [|[k' v'] m IH]; cbn [JSMap.delete].
  - split; [by intros ?%elem_of_nil|by intros [_ ?%elem_of_nil]].
  - destruct (decide (k = k')) as [<-|Hne].
    + rewrite IH, elem_of_cons. split.
      * intros [Hk Hin]. split; [exact Hk|by right].
      * intros [Hk [E|Hin]]; [by injection E as -> _|by split].
    + rewrite !elem_of_cons, IH. split.
      * intros [E|[Hk Hin]].
        -- injection E as -> ->. split; [by intros ->|by left].
        -- split; [exact Hk|by right].
      * intros [Hk [E|Hin]]; [by left|right; by split].
Qed.

Lemma length_delete_present {V : Type} (k : string) (u : V) (m : JSMap.t V) :
  JSMap.get k m = Some u → (length (JSMap.delete k m) < length m)%nat.
Proof.
  assert (∀ m' : JSMap.t V, (length (JSMap.delete k m') ≤ length m')%nat) as Hle.
  { induction m' as [|[k' v'] m' IH]; cbn [JSMap.delete length]; [lia|].
    destruct (decide (k = k')); cbn [length]; lia. }
  unfold JSMap.get. induction m as [|[k' v'] m IH]; cbn [assoc JSMap.delete]; [done|].
  destruct (decide (k = k')) as [<-|Hne]; cbn [length].
  - intros _. specialize (Hle m). lia.
  - intros H. specialize (IH H). lia.
Qed.

Lemma individuals_ids (f : string * User → Individual) (m : JSMap.t User) :
  (∀ e, ind_id (f e) = e.1) → ind_id <$> map f m = m.*1.
Proof.
  intros Hf. induction m as [|e m IH]; [done|].
  cbn [map]. rewrite !fmap_cons, Hf. by rewrite IH.
Qed.

Lemma getRoom_storeRoom_own (roomId : string) (l : loc) (r : Room) (s : Server) :
  rooms s !! roomId = Some l → getRoom (storeRoom l r s) roomId = Some r.
Proof.
  intros Hreg. apply getRoom_Some. exists l. split.
  - unfold storeRoom. cbn [rooms]. exact Hreg.
  - apply heap_storeRoom_eq.
Qed.

Lemma sockets_set_same (k : string) (u u' : User) (m : JSMap.t User) :
  JSMap.get k m = Some u → ws u' = ws u →
  omap (λ e : string * User, ws e.2) (JSMap.set k u' m)
  = omap (λ e : string * User, ws e.2) m.
Proof.
  intros Hget Hws.
  destruct (set_split k u' u m Hget) as (m1 & m2 & Hm & -> & _).
  rewrite Hm. rewrite !omap_app. f_equal.
  cbn [omap list_omap snd]. by rewrite Hws.
Qed.

Lemma setNameSends_other_type (isOpen : socket → bool) (c : Conn)
    (message : json) (s : Server) (ty : string) :
  getProp "type" message = Some (Some (JString ty)) →
  ty ≠ "setName"%string →
  setNameSends isOpen c message s = [].
Proof.
  intros Hty Hne. unfold setNameSends. rewrite Hty.
  destruct (getProp "name" message) as [[nm|]|]; [|done|done].
  by rewrite bool_decide_eq_false_2.
Qed.

(** X24: an [update] message on a connection whose room is the one
    registered under its room identifier changes the room's statistics in
    one place only: the first entry with the sender's identifier now
    carries the clamped, rounded value; the entries before and after it,
    their order and the count are as before.  The handler then sends that
    one [stats] message to every open socket of the room. *)
Theorem update_visible_in_stats (JSON_parse : string → option json)
    (isOpen : socket → bool) (c : Conn) (data : string) (message : json)
    (n : jnumber) (s : Server) (room : Room) (user : User) :
  JSON_parse data = Some message →
  getProp "type" message = Some (Some (JString "update")) →
  getProp "boredom" message = Some (Some (JNumber n)) →
  rooms s !! conn_roomId c = Some (conn_room c) →
  heap s !! conn_room c = Some room →
  JSMap.get (conn_userId c) (users room) = Some user →
  ∃ (st0 st : Stats) (before after : list Individual) (ind0 : Individual),
    getRoomStats s (conn_roomId c) = Some st0
    ∧ getRoomStats (onMessage JSON_parse c data s) (conn_roomId c) = Some st
    ∧ individuals st0 = before ++ ind0 :: after
    ∧ ind_id ind0 = conn_userId c
    ∧ (conn_userId c ∉ ind_id <$> before)
    ∧ individuals st
      = before
        ++ (mkIndividual (conn_userId c)
             (of_Z (match n with
                    | JFinite q => Z.max 0 (Z.min 100 (round_Z q))
                    | JInfinite false => 100
                    | JInfinite true => 0
                    end))
             (ind_isBot ind0) (ind_name ind0)
           :: after)
    ∧ count st = count st0
    ∧ messageSends JSON_parse isOpen c data s
      = (λ sock, (sock, StatsMessage (Some st))) <$> openSockets isOpen room.
Proof.
  intros Hparse Hty Hb Hreg Hroom Huser.
  pose proof (onMessage_update JSON_parse c data message n s room user
                Hparse Hty Hb Hroom Huser) as Hmsg.
  assert (applyUpdate c message s = onMessage JSON_parse c data s) as Happ.
  { rewrite Hmsg. unfold applyUpdate. rewrite Hty, Hb, Hroom, Huser.
    by rewrite decide_True. }
  assert (messageSends JSON_parse isOpen c data s
          = broadcastToRoom isOpen (onMessage JSON_parse c data s)
              (conn_roomId c)) as Hsends.
  { unfold messageSends. rewrite Hparse.
    rewrite (setNameSends_other_type _ _ _ _ "update") by done.
    rewrite app_nil_r. unfold updateSends.
    rewrite Hty, Hb, Hroom, Huser, Happ. by rewrite decide_True. }
  rewrite Hsends, Hmsg. clear Hsends Happ Hmsg.
  rewrite update_value_integer.
  set (z := match n with
            | JFinite q => Z.max 0 (Z.min 100 (round_Z q))
            | JInfinite false => 100%Z
            | JInfinite true => 0%Z
            end).
  set (room' := setUsers (JSMap.set (conn_userId c) (setBoredom (of_Z z) user)
                            (users room)) room).
  assert (getRoom s (conn_roomId c) = Some room) as Hget
    by (apply getRoom_Some; by exists (conn_room c)).
  assert (getRoom (storeRoom (conn_room c) room' s) (conn_roomId c) = Some room')
    as Hget' by (by apply getRoom_storeRoom_own).
  destruct (broadcastToRoom_present isOpen _ _ _ Hget') as (st & Hst & _ & Hbc).
  destruct (set_split (conn_userId c) (setBoredom (of_Z z) user) user
              (users room) Huser) as (m1 & m2 & Hm & Hset & Hfresh).
  set (f := λ e : string * User,
              mkIndividual e.1 (Math_round (boredom e.2)) (isBot e.2 || false)
                (or_else (Some (userName e.2)) JNull)).
  assert (∃ st0, getRoomStats s (conn_roomId c) = Some st0
                 ∧ individuals st0 = map f (users room)
                 ∧ count st0 = length (users room)) as (st0 & Hst0 & Hind0 & Hc0).
  { unfold getRoomStats. rewrite Hget. eexists. split; [reflexivity|].
    cbn [individuals count]. unfold JSMap.entries.
    split; [reflexivity|by rewrite length_map]. }
  assert (individuals st = map f (users room')
          ∧ count st = length (users room')) as [Hind Hc].
  { unfold getRoomStats in Hst. rewrite Hget' in Hst.
    injection Hst as <-. cbn [individuals count]. unfold JSMap.entries.
    split; [reflexivity|by rewrite length_map]. }
  exists st0, st, (map f m1), (map f m2), (f (conn_userId c, user)).
  split_and!.
  - exact Hst0.
  - exact Hst.
  - rewrite Hind0, Hm, map_app. reflexivity.
  - reflexivity.
  - rewrite (individuals_ids f m1) by done. exact Hfresh.
  - rewrite Hind. unfold room'. cbn [users setUsers]. rewrite Hset, map_app.
    cbn [map]. unfold f at 2. cbn [fst snd boredom setBoredom isBot userName
                                     ind_isBot ind_name].
    by rewrite Math_round_of_Z.
  - rewrite Hc, Hc0. unfold room'. cbn [users setUsers].
    rewrite length_set. by rewrite Huser.
  - rewrite Hbc. f_equal. unfold openSockets, room'. cbn [users setUsers].
    by rewrite (sockets_set_same _ user).
Qed.

Lemma update_visible_in_stats_witness :
  ∃ (st0 st : Stats) (before after : list Individual) (ind0 : Individual),
    getRoomStats joined2.1 sampleCode = Some st0
    ∧ getRoomStats updated sampleCode = Some st
    ∧ individuals st0 = before ++ ind0 :: after
    ∧ ind_id ind0 = "0101010101010101"%string
    ∧ ("0101010101010101"%string ∉ ind_id <$> before)
    ∧ individuals st
      = before
        ++ (mkIndividual "0101010101010101" (of_Z 80)
             (ind_isBot ind0) (ind_name ind0)
           :: after)
    ∧ count st = count st0
    ∧ messageSends parseSample (λ _, true) joined1.2 (updateText "80") joined2.1
      = (λ sock, (sock, StatsMessage (Some st)))
        <$> openSockets (λ _, true) teamSyncRoom.
Proof.
  apply (update_visible_in_stats parseSample (λ _, true) joined1.2
           (updateText "80") (updateMessage 80)
           (JFinite (Qc_of_Z 80)) joined2.1 teamSyncRoom
           (mkUser (of_Z 50) (Some 1%nat) false JNull));
    vm_compute; reflexivity.
Defined.

(** X25: a room created by an accepted [POST /api/rooms] at time [now] and
    never joined is registered right after the request, and a sweep at
    time [now'] removes it exactly when more than 3600000 ms have passed
    since its creation; from then on the room has no statistics. *)
Theorem unjoined_room_swept (JSON_parse : string → option json)
    (bodyText : string) (data : json) (now : Z)
    (rnd : Byte.byte * Byte.byte * Byte.byte) (s : Server) (now' : Z) :
  JSON_parse (if decide (bodyText = EmptyString) then "{}"%string else bodyText)
  = Some data →
  data ≠ JNull →
  let s1 :=
    (handleRequest JSON_parse (mkRequest "POST" "/api/rooms" bodyText)
       now rnd s).1 in
  let roomId := generateRoomCode rnd in
  is_Some (getRoomStats s1 roomId)
  ∧ (rooms (cleanup now' s1) !! roomId = None ↔ (3600000 < now' - now)%Z)
  ∧ (getRoomStats (cleanup now' s1) roomId = None ↔ (3600000 < now' - now)%Z).
Proof.
  intros Hparse Hnn. cbn zeta. rewrite handleRequest_post by done.
  cbn [reqBody].
  destruct (postRooms_accepted JSON_parse bodyText now rnd s data Hparse Hnn)
    as (dataName & _ & ->). cbn zeta. cbn [fst].
  set (roomId := generateRoomCode rnd).
  set (room0 := mkRoom JSMap.empty now
                  (or_else dataName (JString ("Room " +:+ roomId))) false).
  set (s1 := setNewRoom roomId room0 s).
  assert (getRoom s1 roomId = Some room0) as Hget
    by apply getRoom_setNewRoom_eq.
  assert (roomId ≠ GLOBAL_ROOM_ID) as Hng.
  { intros E. pose proof (generateRoomCode_looksLikeCode rnd) as H.
    fold roomId in H. rewrite E in H. discriminate H. }
  assert (rooms (cleanup now' s1) !! roomId = None ↔ (3600000 < now' - now)%Z)
    as Hiff.
  { split.
    - intros Hnone. destruct (decide (3600000 < now' - now)%Z) as [|Hle]; [done|].
      destruct (cleanup_keeps now' s1 roomId room0 Hget) as [E _].
      { right. right. cbn [createdAt room0]. lia. }
      rewrite Hnone in E. apply getRoom_Some in Hget as (l & Hl & _).
      rewrite Hl in E. discriminate E.
    - intros Hlt. apply (cleanup_removes now' s1 roomId room0); done. }
  split_and!.
  - unfold getRoomStats. rewrite Hget. by eexists.
  - exact Hiff.
  - rewrite <- Hiff. unfold getRoomStats, getRoom. split.
    + destruct (rooms (cleanup now' s1) !! roomId) as [l|] eqn:El; [|done].
      destruct (decide (3600000 < now' - now)%Z) as [Hlt|Hle].
      { apply Hiff in Hlt. discriminate Hlt. }
      destruct (cleanup_keeps now' s1 roomId room0 Hget) as [_ E].
      { right. right. cbn [createdAt room0]. lia. }
      unfold getRoom in E. rewrite El in E. rewrite E. discriminate.
    + intros ->. reflexivity.
Qed.

Lemma unjoined_room_swept_witness :
  let s1 :=
    (handleRequest parseSample (mkRequest "POST" "/api/rooms" nameBody)
       1000 sampleBytes (initial 0)).1 in
  let roomId := generateRoomCode sampleBytes in
  is_Some (getRoomStats s1 roomId)
  ∧ (rooms (cleanup 3601001 s1) !! roomId = None
     ↔ (3600000 < 3601001 - 1000)%Z)
  ∧ (getRoomStats (cleanup 3601001 s1) roomId = None
     ↔ (3600000 < 3601001 - 1000)%Z).
Proof.
  apply (unjoined_room_swept parseSample nameBody
           (JObject [("name"%string, JString "Team Sync")]) 1000 sampleBytes
           (initial 0) 3601001).
  - vm_compute. reflexivity.
  - discriminate.
Defined.

(** X26: when a connection whose room is the one registered under its room
    identifier closes, the [stats] message that follows goes to exactly
    the open sockets of the other participants; its statistics count
    fewer participants than before and no longer list the leaver. *)
Theorem closeSends_recipients (isOpen : socket → bool) (c : Conn) (s : Server)
    (room : Room) (user : User) :
  rooms s !! conn_roomId c = Some (conn_room c) →
  heap s !! conn_room c = Some room →
  JSMap.get (conn_userId c) (users room) = Some user →
  ∃ st : Stats,
    getRoomStats (onClose c s) (conn_roomId c) = Some st
    ∧ (count st < length (users room))%nat
    ∧ (conn_userId c ∉ ind_id <$> individuals st)
    ∧ ∀ sock message,
        (sock, message) ∈ closeSends isOpen c s
        ↔ message = StatsMessage (Some st)
          ∧ isOpen sock = true
          ∧ ∃ id u, id ≠ conn_userId c ∧ (id, u) ∈ users room
                    ∧ ws u = Some sock.
Proof.
  intros Hreg Hroom Huser. unfold closeSends.
  rewrite (onClose_present c s room Hroom).
  set (room' := setUsers (JSMap.delete (conn_userId c) (users room)) room).
  assert (getRoom (storeRoom (conn_room c) room' s) (conn_roomId c) = Some room')
    as Hget' by (by apply getRoom_storeRoom_own).
  destruct (broadcastToRoom_present isOpen _ _ _ Hget')
    as (st & Hst & Hcount & Hbc).
  exists st. split_and!.
  - exact Hst.
  - rewrite Hcount. unfold room'. cbn [users setUsers].
    by apply (length_delete_present _ user).
  - unfold getRoomStats in Hst. rewrite Hget' in Hst. injection Hst as <-.
    cbn [individuals]. unfold JSMap.entries.
    rewrite individuals_ids by done.
    unfold room'. cbn [users setUsers]. intros Hin.
    apply list_elem_of_fmap in Hin as ([id u] & E & Hin). cbn [fst] in E.
    subst id. apply elem_of_delete_iff in Hin as [Hne _]. done.
  - intros sock message. rewrite Hbc, list_elem_of_fmap. unfold openSockets.
    split.
    + intros (sock' & E & Hin). injection E as -> ->.
      apply list_elem_of_filter in Hin as [Hopen Hin].
      apply list_elem_of_omap in Hin as ([id u] & Hin & Hws).
      unfold room' in Hin. cbn [users setUsers] in Hin.
      apply elem_of_delete_iff in Hin as [Hne Hin].
      split_and!; [done|done|]. exists id, u. done.
    + intros (-> & Hopen & id & u & Hne & Hin & Hws).
      exists sock. split; [done|].
      apply list_elem_of_filter. split; [done|].
      apply list_elem_of_omap. exists (id, u). split; [|done].
      unfold room'. cbn [users setUsers]. apply elem_of_delete_iff. done.
Qed.

Lemma closeSends_recipients_witness :
  ∃ st : Stats,
    getRoomStats (onClose joined1.2 joined2.1) sampleCode = Some st
    ∧ (count st < length (users teamSyncRoom))%nat
    ∧ ("0101010101010101"%string ∉ ind_id <$> individuals st)
    ∧ ∀ sock message,
        (sock, message) ∈ closeSends (λ _, true) joined1.2 joined2.1
        ↔ message = StatsMessage (Some st)
          ∧ (λ _ : socket, true) sock = true
          ∧ ∃ id u, id ≠ "0101010101010101"%string
                    ∧ (id, u) ∈ users teamSyncRoom
                    ∧ ws u = Some sock.
Proof.
  apply (closeSends_recipients (λ _, true) joined1.2 joined2.1 teamSyncRoom
           (mkUser (of_Z 50) (Some 1%nat) false JNull));
    vm_compute; reflexivity.
Defined.

Lemma updateSends_not_update (isOpen : socket → bool) (c : Conn)
    (message : json) (s : Server) :
  (∀ n, ¬ (getProp "type" message = Some (Some (JString "update"))
           ∧ getProp "boredom" message = Some (Some (JNumber n)))) →
  updateSends isOpen c message s = [].
Proof.
  intros H. unfold updateSends.
  destruct (getProp "type" message) as [[[]|]|]; try done.
  destruct (getProp "boredom" message) as [[[]|]|]; try done.
  case_decide as E; [|done]. subst. exfalso. by eapply H.
Qed.

Lemma setNameSends_not_applicable (isOpen : socket → bool) (c : Conn)
    (message : json) (s : Server) :
  (∀ nm, ¬ (getProp "type" message = Some (Some (JString "setName"))
            ∧ getProp "name" message = Some (Some nm)
            ∧ truthy nm = true
            ∧ is_Some (slice20 nm))) →
  setNameSends isOpen c message s = [].
Proof.
  intros H. unfold setNameSends.
  destruct (getProp "type" message) as [[[]|]|]; try done.
  destruct (getProp "name" message) as [[nm|]|]; try done.
  case_bool_decide as E; [|done]. cbn [andb].
  destruct (truthy nm) eqn:Ht; [|done].
  destruct (heap s !! conn_room c); [|done].
  destruct (JSMap.get _ _); [|done].
  destruct (slice20 nm) eqn:Hs; [|done].
  subst. exfalso. eapply H. split_and!; done.
Qed.

Lemma message_without_user (isOpen : socket → bool) (c : Conn)
    (message : json) (s : Server) :
  (∀ room, heap s !! conn_room c = Some room →
           JSMap.get (conn_userId c) (users room) = None) →
  applyUpdate c message s = s
  ∧ applySetName c message s = s
  ∧ updateSends isOpen c message s = []
  ∧ setNameSends isOpen c message s = [].
Proof.
  intros Habs. unfold applyUpdate, applySetName, updateSends, setNameSends.
  destruct (heap s !! conn_room c) as [room|] eqn:Hroom.
  - rewrite (Habs room eq_refl).
    destruct (getProp "type" message) as [[[]|]|]; try done.
    destruct (getProp "boredom" message) as [[[]|]|],
             (getProp "name" message) as [[nm|]|];
      repeat case_decide; repeat case_bool_decide; cbn [andb];
      try destruct (truthy nm); done.
  - destruct (getProp "type" message) as [[[]|]|]; try done.
    destruct (getProp "boredom" message) as [[[]|]|],
             (getProp "name" message) as [[nm|]|];
      repeat case_decide; repeat case_bool_decide; cbn [andb];
      try destruct (truthy nm); done.
Qed.

(** X27: no [send] follows, and the state stays as it is, when the text
    received does not parse, when its [type] is neither "update" nor
    "setName", when an update carries no number, when a name is missing,
    falsy or neither a string nor an array, and also when the sender is
    no longer in its room's participant table (a message handled after
    the connection's [close]). *)
Theorem messageSends_ignored (JSON_parse : string → option json)
    (isOpen : socket → bool) (c : Conn) (data : string) (s : Server) :
  JSON_parse data = None
  ∨ (∃ message, JSON_parse data = Some message
      ∧ ((∀ ty, getProp "type" message = Some (Some (JString ty)) →
                ty ≠ "update"%string ∧ ty ≠ "setName"%string)
         ∨ (getProp "type" message = Some (Some (JString "update"))
            ∧ ∀ n, getProp "boredom" message ≠ Some (Some (JNumber n)))
         ∨ (getProp "type" message = Some (Some (JString "setName"))
            ∧ ∀ nm, getProp "name" message = Some (Some nm) →
                    truthy nm = false
                    ∨ match nm with
                      | JString _ | JArray _ => False
                      | _ => True
                      end)))
  ∨ (∀ room, heap s !! conn_room c = Some room →
             JSMap.get (conn_userId c) (users room) = None) →
  messageSends JSON_parse isOpen c data s = []
  ∧ onMessage JSON_parse c data s = s.
Proof.
  unfold messageSends, onMessage.
  intros [Hparse|[(message & Hparse & Hcase)|Habs]].
  - by rewrite Hparse.
  - rewrite Hparse.
    assert (∀ n, ¬ (getProp "type" message = Some (Some (JString "update"))
                    ∧ getProp "boredom" message = Some (Some (JNumber n))))
      as Hnu.
    { intros n [Hty Hb]. destruct Hcase as [H|[[_ H]|[H _]]].
      - destruct (H _ Hty) as [? _]. done.
      - by eapply H.
      - rewrite Hty in H. done. }
    assert (∀ nm, ¬ (getProp "type" message = Some (Some (JString "setName"))
                     ∧ getProp "name" message = Some (Some nm)
                     ∧ truthy nm = true
                     ∧ is_Some (slice20 nm))) as Hnn.
    { intros nm (Hty & Hnm & Ht & Hs).
      destruct Hcase as [H|[[H _]|[_ H]]].
      - destruct (H _ Hty) as [_ ?]. done.
      - rewrite Hty in H. done.
      - destruct (H nm Hnm) as [H'|H']; [by rewrite Ht in H'|].
        destruct nm; try done; by destruct Hs. }
    rewrite (applyUpdate_not_update _ _ _ Hnu).
    rewrite (updateSends_not_update _ _ _ _ Hnu).
    rewrite (setNameSends_not_applicable _ _ _ _ Hnn).
    by rewrite (applySetName_not_applicable _ _ _ Hnn).
  - destruct (JSON_parse data) as [message|]; [|done].
    destruct (message_without_user isOpen c message s Habs)
      as (-> & -> & -> & ->). done.
Qed.

Lemma messageSends_ignored_witness :
  messageSends parseSample (λ _, true) joined1.2 (updateText "80") closed = []
  ∧ onMessage parseSample joined1.2 (updateText "80") closed = closed.
Proof.
  apply (messageSends_ignored parseSample (λ _, true) joined1.2
           (updateText "80") closed).
  right. right. intros room Hroom. vm_compute in Hroom.
  injection Hroom as <-. vm_compute. reflexivity.
Defined.
